(** * Jungle (animal chess): rules engine, search and rollout selection

    A shallow embedding of [src/main.py]: the class [Jungle] (terrain,
    capture rule, move generator, victory test, real-play mutation, the
    alpha-beta search with its inline make/unmake blocks, the board
    printer) and of [Player] the rollout [sym] and the body of [loop].

    Python values are modelled as follows.
    - integers are [Z]; positions are pairs of [Z];
    - a [dict] with integer keys is an association list kept in insertion
      order, with Python's rules: assigning an existing key keeps its place,
      a new key goes to the end, [del] raises [KeyError] on a missing key;
    - a [list] indexed by an integer follows Python: a negative index counts
      from the end, anything else out of range raises [IndexError];
    - a [str] that the program parses or builds (the move string of
      [update]) is the list of its code points; the fixed pictures of
      [initial_board] and [draw] and the tags passed as [mes] are literals
      and are kept as [string]s;
    - a method that mutates [self] is a function from the state to a
      [result] carrying the new state; a raised exception is [Raise e]. *)

From Stdlib Require Import ZArith Lia Bool Ascii DecimalString.
From stdpp Require Import base option list strings.

Local Open Scope char_scope.
Local Open Scope string_scope.
Local Open Scope list_scope.

Local Open Scope Z_scope.

(** ** Exceptions and the error monad *)

Inductive exn : Set :=
| WrongMove | ValueError | IndexError | KeyError | TypeError
| AssertionError | OutOfFuel.

Inductive result (A : Type) : Type :=
| Ok (a : A)
| Raise (e : exn).
Arguments Ok {A} a.
Arguments Raise {A} e.

#[global] Instance result_ret : MRet result := fun A a => Ok a.
#[global] Instance result_bind : MBind result := fun A B f m =>
  match m with
  | Ok a => f a
  | Raise e => Raise e
  end.

Definition is_ok {A} (r : result A) : bool :=
  match r with Ok _ => true | Raise _ => false end.

(** ** Python lists indexed by integers *)

Definition py_norm {A} (l : list A) (i : Z) : option nat :=
  let n := Z.of_nat (length l) in
  let j := if i <? 0 then i + n else i in
  if (0 <=? j) && (j <? n) then Some (Z.to_nat j) else None.

Definition py_index {A} (l : list A) (i : Z) : result A :=
  match py_norm l i with
  | Some j => match l !! j with Some a => Ok a | None => Raise IndexError end
  | None => Raise IndexError
  end.

Definition py_setitem {A} (l : list A) (i : Z) (v : A) : result (list A) :=
  match py_norm l i with
  | Some j => Ok (<[j := v]> l)
  | None => Raise IndexError
  end.

(** ** Python dicts with integer keys, in insertion order *)

Abbreviation dict V := (list (Z * V)) (only parsing).

Fixpoint dict_get {V} (d : dict V) (k : Z) : option V :=
  match d with
  | [] => None
  | (k', v) :: d' => if k' =? k then Some v else dict_get d' k
  end.

Definition dict_contains {V} (d : dict V) (k : Z) : bool :=
  match dict_get d k with Some _ => true | None => false end.

Definition dict_getitem {V} (d : dict V) (k : Z) : result V :=
  match dict_get d k with Some v => Ok v | None => Raise KeyError end.

Fixpoint dict_set {V} (d : dict V) (k : Z) (v : V) : dict V :=
  match d with
  | [] => [(k, v)]
  | (k', v') :: d' =>
      if k' =? k then (k, v) :: d' else (k', v') :: dict_set d' k v
  end.

Fixpoint dict_remove {V} (d : dict V) (k : Z) : dict V :=
  match d with
  | [] => []
  | (k', v') :: d' =>
      if k' =? k then d' else (k', v') :: dict_remove d' k
  end.

Definition dict_del {V} (d : dict V) (k : Z) : result (dict V) :=
  if dict_contains d k then Ok (dict_remove d k) else Raise KeyError.

Definition dict_keys {V} (d : dict V) : list Z := d.*1.

(** Python's [==] on two dicts: the same keys with the same values,
    whatever the insertion order. *)
Definition dict_eq {V} (d1 d2 : dict V) : Prop :=
  ∀ k, dict_get d1 k = dict_get d2 k.

(** ** Terrain and ranks (class attributes of [Jungle]) *)

Abbreviation pos := (Z * Z)%type (only parsing).
Abbreviation piece := (Z * Z)%type (only parsing).       (* (player, rank) *)
Abbreviation move := ((Z * Z) * (Z * Z))%type (only parsing).

Definition pos_eqb (a b : pos) : bool := (a.1 =? b.1) && (a.2 =? b.2).
Definition pos_in (p : pos) (l : list pos) : bool := existsb (pos_eqb p) l.

Definition MAXIMAL_PASSIVE : Z := 30.
Definition MX : Z := 7.
Definition MY : Z := 9.
Definition traps : list pos := [(2, 0); (4, 0); (3, 1); (2, 8); (4, 8); (3, 7)].
Definition ponds : list pos :=
  x ← [1; 2; 4; 5]; y ← [3; 4; 5]; [(x, y)].
Definition dens : list pos := [(3, 8); (3, 0)].
Definition dirs : list (Z * Z) := [(0, 1); (1, 0); (-1, 0); (0, -1)].

Definition rat : Z := 0.
Definition cat : Z := 1.
Definition dog : Z := 2.
Definition wolf : Z := 3.
Definition jaguar : Z := 4.
Definition tiger : Z := 5.
Definition lion : Z := 6.
Definition elephant : Z := 7.

Definition PIECE_VALUES : dict Z :=
  [(0, 4); (1, 1); (2, 2); (3, 3); (4, 5); (5, 7); (6, 8); (7, 10)].

Definition LICZ_ROZGR : nat := 4.
Definition MAX_DEPTH : Z := 3.
Definition A : Z := 1.
Definition B : Z := 1.

(** ** [Jungle.can_beat] *)

Definition can_beat (p1 p2 : Z) (pos1 pos2 : pos) : bool :=
  if pos_in pos1 ponds && pos_in pos2 ponds then true
  else if pos_in pos1 ponds then false
  else if (p1 =? rat) && (p2 =? elephant) then true
  else if (p1 =? elephant) && (p2 =? rat) then false
  else if p1 >=? p2 then true
  else if pos_in pos2 traps then true
  else false.

(** ** The game state ([Jungle.__init__], [Jungle.initial_board]) *)

Abbreviation board_t := (list (list (option piece))) (only parsing).

Record Jungle : Type := mkJungle {
  board : board_t;
  pieces : dict (dict pos);
  curplayer : Z;
  peace_counter : Z;
  winner : option Z
}.

Definition set_board (s : Jungle) (b : board_t) : Jungle :=
  mkJungle b (pieces s) (curplayer s) (peace_counter s) (winner s).
Definition set_pieces (s : Jungle) (ps : dict (dict pos)) : Jungle :=
  mkJungle (board s) ps (curplayer s) (peace_counter s) (winner s).
Definition set_curplayer (s : Jungle) (p : Z) : Jungle :=
  mkJungle (board s) (pieces s) p (peace_counter s) (winner s).
Definition set_peace_counter (s : Jungle) (c : Z) : Jungle :=
  mkJungle (board s) (pieces s) (curplayer s) c (winner s).
Definition set_winner (s : Jungle) (w : option Z) : Jungle :=
  mkJungle (board s) (pieces s) (curplayer s) (peace_counter s) w.

(** [board[y][x]] and [board[y][x] = v]. *)
Definition board_get (b : board_t) (x y : Z) : result (option piece) :=
  row ← py_index b y; py_index row x.

Definition board_set (b : board_t) (x y : Z) (v : option piece) : result board_t :=
  row ← py_index b y;
  row' ← py_setitem row x v;
  py_setitem b y row'.

(** [self.pieces[pl][pc] = v] and [del self.pieces[pl][pc]]: the inner
    dict is mutated in place, the outer one keeps its two keys. *)
Definition pieces_set (ps : dict (dict pos)) (pl pc : Z) (v : pos)
  : result (dict (dict pos)) :=
  d ← dict_getitem ps pl;
  Ok (dict_set ps pl (dict_set d pc v)).

Definition pieces_del (ps : dict (dict pos)) (pl pc : Z)
  : result (dict (dict pos)) :=
  d ← dict_getitem ps pl;
  d' ← dict_del d pc;
  Ok (dict_set ps pl d').

Definition ascii_code (c : ascii) : Z := Z.of_nat (nat_of_ascii c).

Definition is_upper (c : ascii) : bool :=
  (ascii_code "A" <=? ascii_code c) && (ascii_code c <=? ascii_code "Z").

Definition lower (c : ascii) : ascii :=
  if is_upper c then ascii_of_nat (nat_of_ascii c + 32) else c.

(** The picture of [initial_board], already split into its nine rows. *)
Definition picture : list string :=
  ["L.....T"; ".D...C."; "R.J.W.E"; "......."; "......."; ".......";
   "e.w.j.r"; ".c...d."; "t.....l"]%string.

(** [T = dict(zip('rcdwjtle', range(8)))]. *)
Definition T : list (ascii * Z) :=
  zip (String.list_ascii_of_string "rcdwjtle") (seqZ 0 8).

Fixpoint T_getitem (t : list (ascii * Z)) (c : ascii) : result Z :=
  match t with
  | [] => Raise KeyError
  | (c', r) :: t' => if Ascii.eqb c' c then Ok r else T_getitem t' c
  end.

Definition initial_cell (row : list ascii) (x : Z) : result (option piece) :=
  c ← py_index row x;
  if Ascii.eqb c "." then Ok None
  else
    let player := if is_upper c then 1 else 0 in
    r ← T_getitem T (lower c);
    Ok (Some (player, r)).

Fixpoint initial_row (row : list ascii) (xs : list Z) : result (list (option piece)) :=
  match xs with
  | [] => Ok []
  | x :: xs' =>
      c ← initial_cell row x;
      cs ← initial_row row xs';
      Ok (c :: cs)
  end.

Fixpoint initial_rows (B : list string) (ys : list Z) : result board_t :=
  match ys with
  | [] => Ok []
  | y :: ys' =>
      row ← py_index B y;
      r ← initial_row (String.list_ascii_of_string row) (seqZ 0 7);
      rs ← initial_rows B ys';
      Ok (r :: rs)
  end.

Definition initial_board : result board_t := initial_rows picture (seqZ 0 9).

(** The two nested loops of [__init__] that fill [self.pieces]. *)
Fixpoint init_pieces_row (b : board_t) (y : Z) (xs : list Z)
    (ps : dict (dict pos)) : result (dict (dict pos)) :=
  match xs with
  | [] => Ok ps
  | x :: xs' =>
      C ← board_get b x y;
      match C with
      | Some (pl, pc) =>
          ps' ← pieces_set ps pl pc (x, y);
          init_pieces_row b y xs' ps'
      | None => init_pieces_row b y xs' ps
      end
  end.

Fixpoint init_pieces (b : board_t) (ys : list Z) (ps : dict (dict pos))
  : result (dict (dict pos)) :=
  match ys with
  | [] => Ok ps
  | y :: ys' =>
      ps' ← init_pieces_row b y (seqZ 0 MX) ps;
      init_pieces b ys' ps'
  end.

Definition Jungle_init : result Jungle :=
  b ← initial_board;
  ps ← init_pieces b (seqZ 0 MY) [(0, []); (1, [])];
  Ok (mkJungle b ps 0 0 None).

(** The state built by [Jungle()]. *)
Definition new_Jungle : Jungle :=
  Eval vm_compute in
    match Jungle_init with
    | Ok s => s
    | Raise _ => mkJungle [] [] 0 0 None
    end.

(** ** [Jungle.pieces_comparison] *)

Fixpoint players_with (ps : dict (dict pos)) (i : Z) (players : list Z)
  : result (list Z) :=
  match players with
  | [] => Ok []
  | p :: rest =>
      d ← dict_getitem ps p;
      r ← players_with ps i rest;
      Ok (if dict_contains d i then p :: r else r)
  end.

Fixpoint pieces_comparison_loop (ps : dict (dict pos)) (ranks : list Z)
  : result (option Z) :=
  match ranks with
  | [] => Ok None
  | i :: rest =>
      l ← players_with ps i [0; 1];
      if Z.of_nat (length l) =? 1 then Ok (head l)
      else pieces_comparison_loop ps rest
  end.

(** [range(7, -1, -1)] *)
Definition ranks_down : list Z := [7; 6; 5; 4; 3; 2; 1; 0].

Definition pieces_comparison (s : Jungle) : result (option Z) :=
  pieces_comparison_loop (pieces s) ranks_down.

(** ** [Jungle.rat_is_blocking] *)

Fixpoint rat_is_blocking_loop (s : Jungle) (players : list Z)
    (x y nx dx dy : Z) : result bool :=
  match players with
  | [] => Ok false
  | player :: rest =>
      d ← dict_getitem (pieces s) (1 - player);
      if negb (dict_contains d rat) then rat_is_blocking_loop s rest x y nx dx dy
      else
        '(rx, ry) ← dict_getitem d rat;
        if negb (pos_in (rx, ry) ponds) then rat_is_blocking_loop s rest x y nx dx dy
        else if negb (dy =? 0) && (x =? rx) then Ok true
        else if negb (dx =? 0) && ((y =? ry) && (Z.abs (x - rx) <=? 2)
                                   && (Z.abs (nx - rx) <=? 2)) then Ok true
        else rat_is_blocking_loop s rest x y nx dx dy
  end.

Definition rat_is_blocking (s : Jungle) (player_unused : Z) (p : pos)
    (dx dy : Z) : result bool :=
  let '(x, y) := p in
  let nx := x + dx in
  rat_is_blocking_loop s [0; 1] x y nx dx dy.

(** ** [Jungle.moves] *)

(** The river part of the inner loop of [moves]: [Ok None] is a
    [continue], [Ok (Some pos2)] is the destination the loop goes on with
    (the single step, or the leap of a tiger or lion). *)
Definition moves_target (s : Jungle) (player p : Z) (pos1 : pos) (dx dy : Z)
  : result (option pos) :=
  let '(x, y) := pos1 in
  let nx := x + dx in
  let ny := y + dy in
  if pos_in (nx, ny) ponds then
    if negb ((p =? rat) || (p =? tiger) || (p =? lion)) then Ok None
    else if (p =? tiger) || (p =? lion) then
      let dx := if negb (dx =? 0) then dx * 3 else dx in
      let dy := if negb (dy =? 0) then dy * 4 else dy in
      blocked ← rat_is_blocking s player pos1 dx dy;
      if (blocked : bool) then Ok None else Ok (Some (x + dx, y + dy))
    else Ok (Some (nx, ny))
  else Ok (Some (nx, ny)).

(** One turn of the inner loop of [moves]: piece [p] of [player] standing
    on [pos1], direction [(dx, dy)]. [Ok None] is a [continue] (or a failed
    range test), [Ok (Some m)] is [res.append(m)]. *)
Definition moves_dir (s : Jungle) (player p : Z) (pos1 : pos) (d : Z * Z)
  : result (option move) :=
  let '(x, y) := pos1 in
  let '(dx, dy) := d in
  let nx := x + dx in
  let ny := y + dy in
  if ((0 <=? nx) && (nx <? MX)) && ((0 <=? ny) && (ny <? MY)) then
    den ← py_index dens player;
    if pos_eqb den (nx, ny) then Ok None
    else
      target ← moves_target s player p pos1 dx dy;
      match target with
      | None => Ok None
      | Some (nx, ny) =>
          c ← board_get (board s) nx ny;
          match c with
          | Some (pl2, piece2) =>
              if pl2 =? player then Ok None
              else if negb (can_beat p piece2 pos1 (nx, ny)) then Ok None
              else Ok (Some (pos1, (nx, ny)))
          | None => Ok (Some (pos1, (nx, ny)))
          end
      end
  else Ok None.

Fixpoint moves_dirs (s : Jungle) (player p : Z) (pos1 : pos)
    (ds : list (Z * Z)) : result (list move) :=
  match ds with
  | [] => Ok []
  | d :: rest =>
      m ← moves_dir s player p pos1 d;
      ms ← moves_dirs s player p pos1 rest;
      Ok (option_list m ++ ms)
  end.

Fixpoint moves_items (s : Jungle) (player : Z) (items : dict pos)
  : result (list move) :=
  match items with
  | [] => Ok []
  | (p, pos1) :: rest =>
      ms ← moves_dirs s player p pos1 dirs;
      ms' ← moves_items s player rest;
      Ok (ms ++ ms')
  end.

Definition moves (s : Jungle) (player : Z) : result (list move) :=
  d ← dict_getitem (pieces s) player;
  moves_items s player d.

(** ** [Jungle.victory] *)

Definition victory (s : Jungle) (player : Z) (mes : string)
  : result (bool * Jungle) :=
  let oponent := 1 - player in
  d ← dict_getitem (pieces s) oponent;
  if Z.of_nat (length d) =? 0 then Ok (true, set_winner s (Some player))
  else
    '(x, y) ← py_index dens oponent;
    c ← board_get (board s) x y;
    if bool_decide (is_Some c) then Ok (true, set_winner s (Some player))
    else if peace_counter s >=? MAXIMAL_PASSIVE then
      r ← pieces_comparison s;
      match r with
      | None => Ok (true, set_winner s (Some 0))
      | Some r => Ok (true, set_winner s (Some r))
      end
    else Ok (false, s).

(** ** [Jungle.do_move] *)

Definition do_move (s : Jungle) (m : option move) : result Jungle :=
  let s := set_curplayer s (1 - curplayer s) in
  match m with
  | None => Ok s
  | Some ((x, y), (x2, y2)) =>
      c ← board_get (board s) x y;
      match c with
      | None => Raise TypeError
      | Some (pl, pc) =>
          c2 ← board_get (board s) x2 y2;
          s ← match c2 with
              | Some (pl2, pc2) =>
                  ps ← pieces_del (pieces s) pl2 pc2;
                  Ok (set_peace_counter (set_pieces s ps) 0)
              | None => Ok (set_peace_counter s (peace_counter s + 1))
              end;
          ps ← pieces_set (pieces s) pl pc (x2, y2);
          let s := set_pieces s ps in
          b ← board_set (board s) x2 y2 (Some (pl, pc));
          b ← board_set b x y None;
          Ok (set_board s b)
      end
  end.

(** ** [Jungle.update] *)

(** A Python [str] is modelled as the list of its code points. [str_lit]
    is the [str] of a literal written with one-byte characters. *)
Definition str_lit (s : string) : list Z :=
  ascii_code <$> String.list_ascii_of_string s.

(** [move_string.split(' ')]: split at every single space (U+0020). *)
Fixpoint split_space (s : list Z) : list (list Z) :=
  match s with
  | [] => [[]]
  | c :: s' =>
      let r := split_space s' in
      if c =? 32 then [] :: r
      else match r with
           | t :: ts => (c :: t) :: ts
           | [] => [[c]]
           end
  end.

(** [int(m)] for a [str] [m], as CPython 3.11 computes it: white space is
    dropped at both ends, one sign is allowed, then decimal digits with
    single underscores only between digits; more than 4300 digits, or
    anything else, is a [ValueError].

    The white space [int] drops: the ASCII characters 9 to 13 and 32, and
    the Unicode white space above U+007F. (The separators U+001C to U+001F
    are white space for [str.isspace] but not for [int].) *)
Definition is_space (c : Z) : bool :=
  ((9 <=? c) && (c <=? 13)) || (c =? 32) ||
  (c =? 0x85) || (c =? 0xA0) || (c =? 0x1680) ||
  ((0x2000 <=? c) && (c <=? 0x200A)) ||
  (c =? 0x2028) || (c =? 0x2029) || (c =? 0x202F) || (c =? 0x205F) ||
  (c =? 0x3000).

Fixpoint lstrip (l : list Z) : list Z :=
  match l with
  | c :: l' => if is_space c then lstrip l' else l
  | [] => []
  end.

Definition strip (l : list Z) : list Z :=
  reverse (lstrip (reverse (lstrip l))).

(** The code points of the digit zero of every decimal digit system of
    Unicode 14.0 (the version CPython 3.11 carries); the nine code points
    after each are its digits one to nine. *)
Definition decimal_zeros : list Z :=
  [0x30; 0x660; 0x6F0; 0x7C0; 0x966; 0x9E6; 0xA66; 0xAE6; 0xB66; 0xBE6;
   0xC66; 0xCE6; 0xD66; 0xDE6; 0xE50; 0xED0; 0xF20; 0x1040; 0x1090; 0x17E0;
   0x1810; 0x1946; 0x19D0; 0x1A80; 0x1A90; 0x1B50; 0x1BB0; 0x1C40; 0x1C50;
   0xA620; 0xA8D0; 0xA900; 0xA9D0; 0xA9F0; 0xAA50; 0xABF0; 0xFF10; 0x104A0;
   0x10D30; 0x11066; 0x110F0; 0x11136; 0x111D0; 0x112F0; 0x11450; 0x114D0;
   0x11650; 0x116C0; 0x11730; 0x118E0; 0x11950; 0x11C50; 0x11D50; 0x11DA0;
   0x16A60; 0x16AC0; 0x16B50; 0x1D7CE; 0x1D7D8; 0x1D7E2; 0x1D7EC; 0x1D7F6;
   0x1E140; 0x1E2F0; 0x1E950; 0x1FBF0].

Fixpoint digit_in (zeros : list Z) (c : Z) : option Z :=
  match zeros with
  | [] => None
  | z :: rest =>
      if (z <=? c) && (c <=? z + 9) then Some (c - z) else digit_in rest c
  end.

Definition digit_val (c : Z) : option Z := digit_in decimal_zeros c.

(** [sys.get_int_max_str_digits()], which the program leaves at its
    default. *)
Definition MAX_STR_DIGITS : Z := 4300.

(** The digits of an integer literal: the value and the number of digits
    read; [after_digit] says that the last character was a digit. *)
Fixpoint int_digits (acc digits : Z) (after_digit : bool) (l : list Z)
  : option (Z * Z) :=
  match l with
  | [] => if after_digit then Some (acc, digits) else None
  | c :: l' =>
      match digit_val c with
      | Some v => int_digits (10 * acc + v) (digits + 1) true l'
      | None =>
          if (c =? 95) && after_digit then int_digits acc digits false l'
          else None
      end
  end.

Definition py_int (m : list Z) : result Z :=
  let l := strip m in
  let '(sign, l) :=
    match l with
    | c :: l' =>
        if c =? 45 then (-1, l')
        else if c =? 43 then (1, l')
        else (1, l)
    | [] => (1, l)
    end in
  match int_digits 0 0 false l with
  | Some (n, digits) =>
      if MAX_STR_DIGITS <? digits then Raise ValueError else Ok (sign * n)
  | None => Raise ValueError
  end.

(** [tuple(int(m) for m in tokens)] *)
Fixpoint py_ints (tokens : list (list Z)) : result (list Z) :=
  match tokens with
  | [] => Ok []
  | m :: rest =>
      z ← py_int m;
      zs ← py_ints rest;
      Ok (z :: zs)
  end.

(** The [if not possible_moves: ... else: ...] block of [update]: the
    tuple of integers becomes [None] (a pass) or a pair of positions. *)
Definition update_decode (tuple : list Z) (possible_moves : list move)
  : result (option move) :=
  match possible_moves with
  | [] =>
      if negb (bool_decide (tuple = [-1; -1; -1; -1])) then Raise WrongMove
      else Ok None
  | _ :: _ =>
      m0 ← py_index tuple 0;
      m1 ← py_index tuple 1;
      m2 ← py_index tuple 2;
      m3 ← py_index tuple 3;
      if negb (bool_decide (((m0, m1), (m2, m3)) ∈ possible_moves))
      then Raise WrongMove
      else Ok (Some ((m0, m1), (m2, m3)))
  end.

Definition update (s : Jungle) (player : Z) (move_string : list Z)
    (mes : string)
  : result (Jungle * option Z) :=
  let s := set_curplayer s player in
  tuple ← py_ints (split_space move_string);
  if negb (Z.of_nat (length tuple) =? 4) then Raise WrongMove
  else
    possible_moves ← moves s player;
    m ← update_decode tuple possible_moves;
    s ← do_move s m;
    '(v, s) ← victory s player mes;
    if (v : bool) then
      match winner s with
      | None => Raise AssertionError
      | Some w => Ok (s, Some (2 * w - 1))
      end
    else Ok (s, None).

(** ** Search values: integers and the two infinities *)

Inductive num : Set := NegInf | Fin (z : Z) | PosInf.

Definition num_ltb (a b : num) : bool :=
  match a, b with
  | NegInf, NegInf => false
  | NegInf, _ => true
  | Fin _, NegInf => false
  | Fin x, Fin y => x <? y
  | Fin _, PosInf => true
  | PosInf, _ => false
  end.

Definition num_leb (a b : num) : bool := negb (num_ltb b a).
Definition num_gtb (a b : num) : bool := num_ltb b a.
Definition num_geb (a b : num) : bool := negb (num_ltb a b).

(** What the two search methods return: [(value, x1, y1, x2, y2)], the
    coordinates being integers or [None]. *)
Definition answer : Type := num * option Z * option Z * option Z * option Z.

(** ** [Jungle.heur] *)

Fixpoint heur_loop (ps : dict (dict pos)) (ranks : list Z) (licz_1 licz_2 : Z)
  : result (Z * Z) :=
  match ranks with
  | [] => Ok (licz_1, licz_2)
  | i :: rest =>
      d1 ← dict_getitem ps 1;
      licz_1 ← (if dict_contains d1 i
                then v ← dict_getitem PIECE_VALUES i; Ok (licz_1 + v)
                else Ok licz_1);
      d0 ← dict_getitem ps 0;
      licz_2 ← (if dict_contains d0 i
                then v ← dict_getitem PIECE_VALUES i; Ok (licz_2 + v)
                else Ok licz_2);
      heur_loop ps rest licz_1 licz_2
  end.

Definition heur (s : Jungle) : result Z :=
  '(licz_1, licz_2) ← heur_loop (pieces s) ranks_down 0 0;
  m1 ← moves s 1;
  m0 ← moves s 0;
  let licz1_1 := Z.of_nat (length m1) in
  let licz1_2 := Z.of_nat (length m0) in
  Ok (A * (licz_1 - licz_2) + B * (licz1_1 - licz1_2)).

(** ** [Jungle.utility] *)

(** A Python [bool] compared with an integer counts as 0 or 1. *)
Definition bool_int (b : bool) : Z := if b then 1 else 0.

Definition utility (s : Jungle) (p : Z) : result (Jungle * option answer) :=
  '(v, s) ← victory s p "n";
  if bool_int v <? 0 then Ok (s, Some (PosInf, Some 0, Some 0, Some 0, Some 0))
  else
    '(v, s) ← victory s p "n";
    if bool_int v =? 0 then Ok (s, Some (Fin 0, Some 0, Some 0, Some 0, Some 0))
    else
      '(v, s) ← victory s p "n";
      if bool_int v >? 0
      then Ok (s, Some (NegInf, Some 0, Some 0, Some 0, Some 0))
      else Ok (s, None).

Definition cut_off_tests (depth : Z) : bool :=
  if depth >? MAX_DEPTH then true else false.

(** ** The inline make and unmake blocks of the search *)

(** The local variables the undo block reads. *)
Record saved : Set := mkSaved {
  sv_a : Z; sv_b : Z; sv_c : Z; sv_d : Z;
  sv_pl : Z; sv_pc : Z; sv_pl2 : Z; sv_pc2 : Z;
  sv_p_c : Z; sv_zbicie : Z
}.

(** From [(a, b), (c, d) = iter] to [# end of affect]. *)
Definition affect (s : Jungle) (iter : move) : result (Jungle * saved) :=
  let '((a, b), (c, d)) := iter in
  cell ← board_get (board s) a b;
  match cell with
  | None => Raise TypeError
  | Some (pl, pc) =>
      let p_c := peace_counter s in
      target ← board_get (board s) c d;
      '(s, pl2, pc2, zbicie) ←
        match target with
        | Some (pl2, pc2) =>
            ps ← pieces_del (pieces s) pl2 pc2;
            Ok (set_peace_counter (set_pieces s ps) 0, pl2, pc2, 1)
        | None => Ok (set_peace_counter s (peace_counter s + 1), 0, 0, 0)
        end;
      ps ← pieces_set (pieces s) pl pc (c, d);
      let s := set_pieces s ps in
      bd ← board_set (board s) c d (Some (pl, pc));
      bd ← board_set bd a b None;
      Ok (set_board s bd, mkSaved a b c d pl pc pl2 pc2 p_c zbicie)
  end.

(** From [# undo everything] to [# end of undo]. *)
Definition undo (s : Jungle) (u : saved) : result Jungle :=
  let '(mkSaved a b c d pl pc pl2 pc2 p_c zbicie) := u in
  if zbicie =? 1 then
    ps ← pieces_set (pieces s) pl2 pc2 (c, d);
    let s := set_peace_counter (set_pieces s ps) p_c in
    bd ← board_set (board s) a b (Some (pl, pc));
    bd ← board_set bd c d (Some (pl2, pc2));
    let s := set_board s bd in
    ps ← pieces_set (pieces s) pl pc (a, b);
    Ok (set_pieces s ps)
  else
    let s := set_peace_counter s (peace_counter s - 1) in
    bd ← board_set (board s) a b (Some (pl, pc));
    bd ← board_set bd c d None;
    let s := set_board s bd in
    ps ← pieces_set (pieces s) pl pc (a, b);
    Ok (set_pieces s ps).

(** ** [Jungle.max_alpha_beta] and [Jungle.min_alpha_beta] *)

(** [mov != [None]]: [mov] is the list [moves] returned, and a move is
    never [None]. *)
Definition not_the_none_list (mov : list move) : bool :=
  negb (bool_decide ((Some <$> mov) = [None])).

(** What one call of a search method returns: the state it leaves behind
    and the returned Python value ([None] when [utility] falls through). *)
Definition search_fn : Type :=
  Jungle → num → num → Z → bool → result (Jungle * option answer).

(** The [for iter in moves] loop of [max_alpha_beta]; [rec] is
    [self.min_alpha_beta]. *)
Fixpoint max_loop (rec : search_fn) (its : list move) (s : Jungle)
    (alpha beta : num) (depth : Z) (value : num) (px py px_2 py_2 : option Z)
  : result (Jungle * option answer) :=
  match its with
  | [] => Ok (s, Some (value, px, py, px_2, py_2))
  | ((a, b), (c, d)) :: rest =>
      '(s, u) ← affect s ((a, b), (c, d));
      '(s, r) ← rec s alpha beta (depth + 1) false;
      match r with
      | None => Raise TypeError
      | Some (m, min_i, in_j, cos, cos1) =>
          let '(value, px, py, px_2, py_2) :=
            if num_gtb m value then (m, Some a, Some b, Some c, Some d)
            else (value, px, py, px_2, py_2) in
          s ← undo s u;
          if num_geb value beta then Ok (s, Some (value, px, py, px_2, py_2))
          else
            let alpha := if num_gtb value alpha then value else alpha in
            max_loop rec rest s alpha beta depth value px py px_2 py_2
      end
  end.

(** The [for iter in moves] loop of [min_alpha_beta]; [rec] is
    [self.max_alpha_beta]. *)
Fixpoint min_loop (rec : search_fn) (its : list move) (s : Jungle)
    (alpha beta : num) (depth : Z) (minv : num) (qx qy qx1 qy1 : option Z)
  : result (Jungle * option answer) :=
  match its with
  | [] => Ok (s, Some (minv, qx, qy, qx1, qy1))
  | ((a, b), (c, d)) :: rest =>
      '(s, u) ← affect s ((a, b), (c, d));
      '(s, r) ← rec s alpha beta (depth + 1) false;
      match r with
      | None => Raise TypeError
      | Some (m, max_i, max_j, cos, cos1) =>
          let '(minv, qx, qy, qx1, qy1) :=
            if num_ltb m minv then (m, Some a, Some b, Some c, Some d)
            else (minv, qx, qy, qx1, qy1) in
          s ← undo s u;
          if num_leb minv alpha then Ok (s, Some (minv, qx, qy, qx1, qy1))
          else
            let beta := if num_ltb minv beta then minv else beta in
            min_loop rec rest s alpha beta depth minv qx qy qx1 qy1
      end
  end.

(** The [else] branch of [max_alpha_beta] (the pass). *)
Definition max_pass (rec : search_fn) (s : Jungle) (alpha beta : num)
    (depth : Z) (value : num) (px py px_2 py_2 : option Z)
  : result (Jungle * option answer) :=
  '(s, r) ← rec s alpha beta (depth + 1) false;
  match r with
  | None => Raise TypeError
  | Some (m, min_i, in_j, cos, cos1) =>
      let value := if num_gtb m value then m else value in
      Ok (s, Some (value, px, py, px_2, py_2))
  end.

(** The [else] branch of [min_alpha_beta] (the pass). *)
Definition min_pass (rec : search_fn) (s : Jungle) (alpha beta : num)
    (depth : Z) (minv : num) (qx qy qx1 qy1 : option Z)
  : result (Jungle * option answer) :=
  '(s, r) ← rec s alpha beta (depth + 1) false;
  match r with
  | None => Raise TypeError
  | Some (m, max_i, max_j, cos, cos1) =>
      let minv := if num_ltb m minv then m else minv in
      Ok (s, Some (minv, qx, qy, qx1, qy1))
  end.

(** The two methods call each other; [fuel] bounds the nesting of calls
    (the depth test bounds it in the source). *)
Fixpoint max_alpha_beta (fuel : nat) (s : Jungle) (alpha beta : num)
    (depth : Z) (start : bool) {struct fuel}
  : result (Jungle * option answer) :=
  match fuel with
  | O => Raise OutOfFuel
  | S fuel' =>
      let player := 0 in
      mov ← moves s player;
      '(v, s) ← victory s player "n";
      if (v : bool) then utility s player
      else if cut_off_tests depth then
        h ← heur s;
        Ok (s, Some (Fin h, Some 0, Some 0, Some 0, Some 0))
      else
        if not_the_none_list mov then
          max_loop (min_alpha_beta fuel') mov s alpha beta depth
                   NegInf None None None None
        else
          max_pass (min_alpha_beta fuel') s alpha beta depth
                   NegInf None None None None
  end
with min_alpha_beta (fuel : nat) (s : Jungle) (alpha beta : num)
    (depth : Z) (start : bool) {struct fuel}
  : result (Jungle * option answer) :=
  match fuel with
  | O => Raise OutOfFuel
  | S fuel' =>
      let player := 1 in
      mov ← moves s player;
      '(v, s) ← victory s player "n";
      if (v : bool) then utility s player
      else if cut_off_tests depth then
        h ← heur s;
        Ok (s, Some (Fin h, Some 0, Some 0, Some 0, Some 0))
      else
        if not_the_none_list mov then
          min_loop (max_alpha_beta fuel') mov s alpha beta depth
                   PosInf None None None None
        else
          min_pass (max_alpha_beta fuel') s alpha beta depth
                   PosInf None None None None
  end.

(** ** The choice of a move in [Player.loop] *)

Section Rollouts.
(** [sym i j] is what the [j]-th call [self.sym(copy.deepcopy(self.game), i)]
    returns for the candidate at index [i] of [mov]: the outcome of one
    random game played on a copy. *)
Variable sym : nat → nat → bool.

(** [for j in range(LICZ_ROZGR): if self.sym(...): licz += 1] *)
Fixpoint count_wins (i : nat) (js : list nat) (licz : Z) : Z :=
  match js with
  | [] => licz
  | j :: rest => count_wins i rest (if sym i j then licz + 1 else licz)
  end.

(** [for i in mov: ...], with the index of [i] in [mov]. *)
Fixpoint loop_scores (idx : nat) (mov : list move) (max_wygr : Z)
    (max_move : list move) : Z * list move :=
  match mov with
  | [] => (max_wygr, max_move)
  | i :: rest =>
      let licz := count_wins idx (seq 0 LICZ_ROZGR) 0 in
      if max_wygr <=? licz
      then loop_scores (S idx) rest licz (max_move ++ [i])
      else loop_scores (S idx) rest max_wygr max_move
  end.

(** The list [max_move] that [random.choice] draws from. *)
Definition loop_max_move (mov : list move) : list move :=
  (loop_scores 0 mov (-1) []).2.

(** The score of the candidate at index [idx]. *)
Definition score (idx : nat) : Z := count_wins idx (seq 0 LICZ_ROZGR) 0.
End Rollouts.

(** [random.choice(l)]: [r] is the number the generator draws below
    [len(l)]; an empty list raises [IndexError]. *)
Definition random_choice {X} (l : list X) (r : nat) : result X :=
  match l !! (r `mod` length l)%nat with
  | Some x => Ok x
  | None => Raise IndexError
  end.

(** [Jungle.random_move] *)
Definition random_move (s : Jungle) (player : Z) (r : nat)
  : result (option move) :=
  ms ← moves s player;
  match ms with
  | [] => Ok None
  | _ :: _ => m ← random_choice ms r; Ok (Some m)
  end.


(** * Invariants and reachable states *)

(** A position of the 7 x 9 board. *)
Definition in_board (p : pos) : Prop := (0 ≤ p.1 < MX) ∧ (0 ≤ p.2 < MY).

(** Nine rows of seven cells. *)
Definition board_shape (b : board_t) : Prop :=
  length b = 9%nat ∧ ∀ row, row ∈ b → length row = 7%nat.

(** [pieces[pl][pc]] when both keys are present. *)
Definition loc (ps : dict (dict pos)) (pl pc : Z) : option pos :=
  match dict_get ps pl with
  | Some d => dict_get d pc
  | None => None
  end.

(** The two players' dicts are there and no rank is listed twice. *)
Definition pieces_ok (ps : dict (dict pos)) : Prop :=
  dict_keys ps = [0; 1] ∧
  ∀ pl d, dict_get ps pl = Some d → NoDup (dict_keys d).

(** The invariant of a game in progress: the board and the rank index
    describe the same placement, ranks are 0..7, and only a rat stands in
    the river. *)
Record wf (s : Jungle) : Prop := mk_wf {
  wf_shape : board_shape (board s);
  wf_pieces : pieces_ok (pieces s);
  wf_rank : ∀ pl pc p, loc (pieces s) pl pc = Some p → 0 ≤ pc ≤ 7;
  wf_loc : ∀ pl pc p, loc (pieces s) pl pc = Some p →
    in_board p ∧ board_get (board s) p.1 p.2 = Ok (Some (pl, pc));
  wf_cell : ∀ x y pl pc, in_board (x, y) →
    board_get (board s) x y = Ok (Some (pl, pc)) →
    loc (pieces s) pl pc = Some (x, y);
  wf_swim : ∀ pl pc p, loc (pieces s) pl pc = Some p →
    pos_in p ponds = true → pc = rat
}.

(** The consistency of the two views, as the data model words it. *)
Definition consistent (s : Jungle) : Prop :=
  (∀ owner rank p, loc (pieces s) owner rank = Some p →
     board_get (board s) p.1 p.2 = Ok (Some (owner, rank))) ∧
  (∀ p owner rank, in_board p →
     (board_get (board s) p.1 p.2 = Ok (Some (owner, rank)) ↔
      loc (pieces s) owner rank = Some p)) ∧
  (∀ owner d, dict_get (pieces s) owner = Some d →
     NoDup (dict_keys d) ∧ (length d ≤ 8)%nat) ∧
  (∀ o1 r1 o2 r2 p, loc (pieces s) o1 r1 = Some p →
     loc (pieces s) o2 r2 = Some p → o1 = o2 ∧ r1 = r2).

(** Python's [==] on the two-level dict [pieces]. *)
Definition pieces_eq (ps ps' : dict (dict pos)) : Prop :=
  dict_keys ps = dict_keys ps' ∧ ∀ pl pc, loc ps pl pc = loc ps' pl pc.

(** Two states with the same placement: equal boards, equal rank indexes
    (as dicts) and equal passivity counters. *)
Definition same_position (s s' : Jungle) : Prop :=
  board s = board s' ∧ pieces_eq (pieces s) (pieces s') ∧
  peace_counter s = peace_counter s'.

(** [m] is in the list [moves] returns for [player]. *)
Definition legal (s : Jungle) (player : Z) (m : move) : Prop :=
  ∃ ms, moves s player = Ok ms ∧ m ∈ ms.

(** What the make block needs of a move: a piece stands on the origin, the
    destination is another cell of the board, and only a rat goes into the
    river. *)
Definition movable (s : Jungle) (m : move) : Prop :=
  ∃ pl pc, loc (pieces s) pl pc = Some m.1 ∧ in_board m.2 ∧ m.1 ≠ m.2 ∧
           (pos_in m.2 ponds = true → pc = rat).

(** The states the program goes through: a new game, real moves through
    [update], passes, the writes to [curplayer] and [winner], and the
    nodes of the search (a make block on a legal move, and the unmake block
    once the nested call has handed the placement back). *)
Inductive reachable : Jungle → Prop :=
| reach_new : reachable new_Jungle
| reach_update s player move_string mes s' r :
    reachable s → player = 0 ∨ player = 1 →
    update s player move_string mes = Ok (s', r) → reachable s'
| reach_pass s s' :
    reachable s → do_move s None = Ok s' → reachable s'
| reach_curplayer s p :
    reachable s → reachable (set_curplayer s p)
| reach_victory s player mes v s' :
    reachable s → player = 0 ∨ player = 1 →
    victory s player mes = Ok (v, s') → reachable s'
| reach_affect s player m s' u :
    reachable s → player = 0 ∨ player = 1 → legal s player m →
    affect s m = Ok (s', u) → reachable s'
| reach_undo s0 player m s1 u s1' s2 :
    reachable s0 → player = 0 ∨ player = 1 → legal s0 player m →
    affect s0 m = Ok (s1, u) →
    reachable s1' → same_position s1 s1' →
    undo s1' u = Ok s2 → reachable s2.

(** What the make block does to a state [s] on a move [m]: the state [s1]
    it leaves and the locals [u] it keeps for the unmake block. *)
Record after_move (s : Jungle) (m : move) (s1 : Jungle) (u : saved) : Prop :=
  mk_after_move {
  am_from : (sv_a u, sv_b u) = m.1;
  am_to : (sv_c u, sv_d u) = m.2;
  am_mover :
    board_get (board s) m.1.1 m.1.2 = Ok (Some (sv_pl u, sv_pc u));
  am_target :
    (board_get (board s) m.2.1 m.2.2 = Ok (Some (sv_pl2 u, sv_pc2 u)) ∧
     sv_zbicie u = 1 ∧ peace_counter s1 = 0) ∨
    (board_get (board s) m.2.1 m.2.2 = Ok None ∧
     sv_zbicie u = 0 ∧ peace_counter s1 = peace_counter s + 1);
  am_p_c : sv_p_c u = peace_counter s;
  am_shape : board_shape (board s1);
  am_board : ∀ x y, in_board (x, y) →
    board_get (board s1) x y =
      if decide ((x, y) = m.1) then Ok None
      else if decide ((x, y) = m.2) then Ok (Some (sv_pl u, sv_pc u))
      else board_get (board s) x y;
  am_pieces_ok : pieces_ok (pieces s1);
  am_loc : ∀ q r,
    loc (pieces s1) q r =
      if decide (q = sv_pl u ∧ r = sv_pc u) then Some m.2
      else if decide (loc (pieces s) q r = Some m.2) then None
      else loc (pieces s) q r;
  am_curplayer : curplayer s1 = curplayer s;
  am_winner : winner s1 = winner s
}.

(** A rat of player [q] sits in the river on the path of the leap that
    starts at [p] and goes by [(dx, dy)]: on the same x for a vertical
    leap; for a horizontal one on the same y, at most 2 away in x from both
    the origin and the destination. *)
Definition rat_on_path (s : Jungle) (q : Z) (p : pos) (dx dy : Z) : bool :=
  match loc (pieces s) q rat with
  | Some (rx, ry) =>
      pos_in (rx, ry) ponds &&
      ((negb (dy =? 0) && (p.1 =? rx)) ||
       (negb (dx =? 0) &&
        ((p.2 =? ry) && (Z.abs (p.1 - rx) <=? 2)
         && (Z.abs (p.1 + dx - rx) <=? 2))))
  | None => false
  end.

(** The invariant [wf] as a test that can be run on a given state. *)
Definition all_cells : list pos := x ← seqZ 0 MX; y ← seqZ 0 MY; [(x, y)].

Definition in_boardb (p : pos) : bool :=
  ((0 <=? p.1) && (p.1 <? MX)) && ((0 <=? p.2) && (p.2 <? MY)).

Definition cell_is (b : board_t) (p : pos) (c : option piece) : bool :=
  match board_get b p.1 p.2 with
  | Ok c' => bool_decide (c' = c)
  | Raise _ => false
  end.

Definition wf_item (s : Jungle) (pl : Z) (it : Z * pos) : bool :=
  ((0 <=? it.1) && (it.1 <=? 7)) && in_boardb it.2 &&
  cell_is (board s) it.2 (Some (pl, it.1)) &&
  (negb (pos_in it.2 ponds) || (it.1 =? rat)).

Definition wf_cellb (s : Jungle) (p : pos) : bool :=
  match board_get (board s) p.1 p.2 with
  | Ok (Some (pl, pc)) => bool_decide (loc (pieces s) pl pc = Some p)
  | Ok None => true
  | Raise _ => false
  end.

Definition wfb (s : Jungle) : bool :=
  bool_decide (length (board s) = 9%nat) &&
  forallb (λ row, bool_decide (length row = 7%nat)) (board s) &&
  bool_decide (dict_keys (pieces s) = [0; 1]) &&
  forallb (λ e, bool_decide (NoDup (dict_keys e.2)) &&
                forallb (wf_item s e.1) e.2) (pieces s) &&
  forallb (wf_cellb s) all_cells.

(** Player [p] still has a piece of rank [i] ([i in self.pieces[p]]). *)
Definition has_rank (s : Jungle) (p i : Z) : bool :=
  match dict_get (pieces s) p with
  | Some d => dict_contains d i
  | None => false
  end.

(** The winner the passivity rule names: the holder of the highest rank,
    counting down from the elephant, that exactly one player holds; player 0
    when no rank is held by exactly one player. *)
Definition passive_winner (s : Jungle) (w : Z) : Prop :=
  (∃ i, 0 ≤ i ≤ 7 ∧ (w = 0 ∨ w = 1) ∧
        has_rank s w i = true ∧ has_rank s (1 - w) i = false ∧
        ∀ j, i < j ≤ 7 → has_rank s 0 j = has_rank s 1 j) ∨
  (w = 0 ∧ ∀ j, 0 ≤ j ≤ 7 → has_rank s 0 j = has_rank s 1 j).

(** * Example positions *)

Definition no_row : list (option (Z * Z)) :=
  [None; None; None; None; None; None; None].

(** Player 0's rat stands on player 1's den (3, 0); player 1 has a cat
    left on (0, 0). Player 0 has won. *)
Definition den_taken : Jungle :=
  mkJungle
    [[Some (1, 1); None; None; Some (0, 0); None; None; None];
     no_row; no_row; no_row; no_row; no_row; no_row; no_row; no_row]
    [(0, [(0, (3, 0))]); (1, [(1, (0, 0))])]
    0 0 None.

(** Player 0 has only a rat, in the corner (0, 8), shut in by player 1's
    cat on (0, 7) and dog on (1, 8): player 0 has no move, and nobody has
    won. *)
Definition stuck : Jungle :=
  mkJungle
    [no_row; no_row; no_row; no_row; no_row; no_row; no_row;
     [Some (1, 1); None; None; None; None; None; None];
     [Some (0, 0); Some (1, 2); None; None; None; None; None]]
    [(0, [(0, (0, 8))]); (1, [(1, (0, 7)); (2, (1, 8))])]
    0 0 None.

(** Outcomes of the rollouts in which the first candidate wins one game
    of four, the second three, and every later candidate none. *)
Definition rollouts_1_3 (i j : nat) : bool :=
  match i with
  | O => Nat.eqb j 0
  | S O => Nat.ltb j 3
  | _ => false
  end.

(** The offset of the leap [moves] turns the step [d] into: 3 cells
    sideways or 4 cells up or down. *)
Definition leap (d : Z * Z) : Z * Z :=
  (if negb (d.1 =? 0) then d.1 * 3 else d.1,
   if negb (d.2 =? 0) then d.2 * 4 else d.2).

(** Player 0's tiger on (0, 3) with player 0's own rat in the river on
    (1, 3), next to it; player 1 has a cat on (0, 0) and no rat. *)
Definition own_rat_in_river : Jungle :=
  mkJungle
    [[Some (1, 1); None; None; None; None; None; None];
     no_row; no_row;
     [Some (0, 5); Some (0, 0); None; None; None; None; None];
     no_row; no_row; no_row; no_row; no_row]
    [(0, [(5, (0, 3)); (0, (1, 3))]); (1, [(1, (0, 0))])]
    0 0 None.

(** The tuple of integers [update] read is refused against the legal
    moves [ms]: it has not 4 entries; or there is no legal move and it is
    not the pass [-1 -1 -1 -1]; or there are legal moves and the pair of
    positions it spells is not one of them (a pass then never is). *)
Definition is_wrong_move (tuple : list Z) (ms : list move) : bool :=
  match tuple with
  | [a; b; c; d] =>
      match ms with
      | [] => negb (bool_decide (tuple = [-1; -1; -1; -1]))
      | _ :: _ => negb (bool_decide (((a, b), (c, d)) ∈ ms))
      end
  | _ => true
  end.

(** A search method behaves well at depth [depth]: on every well-formed
    state it returns a tuple, raises nothing, and hands back a well-formed
    state with the placement it was given. *)
Definition search_ok (rec : search_fn) (depth : Z) : Prop :=
  ∀ s alpha beta start, wf s →
    ∃ s' a, rec s alpha beta depth start = Ok (s', Some a) ∧
            same_position s s' ∧ wf s'.

(** Player 0's dog on (0, 5) can take player 1's cat on (0, 4); player 1
    also has a rat on (6, 0), listed after the cat in its dict. *)
Definition capture_ready : Jungle :=
  mkJungle
    [[None; None; None; None; None; None; Some (1, 0)];
     no_row; no_row; no_row;
     [Some (1, 1); None; None; None; None; None; None];
     [Some (0, 2); None; None; None; None; None; None];
     no_row; no_row; no_row]
    [(0, [(2, (0, 5))]); (1, [(1, (0, 4)); (0, (6, 0))])]
    0 0 None.




(** * The move string and the body of [Player.loop] *)

(** [str(z)] for an integer: its decimal digits, after a minus sign when it
    is negative; an integer of more than 4300 digits is a [ValueError]. *)
Definition py_str (z : Z) : result (list Z) :=
  let ds := str_lit (NilZero.string_of_uint (N.to_uint (Z.abs_N z))) in
  if MAX_STR_DIGITS <? Z.of_nat (length ds) then Raise ValueError
  else Ok (if z <? 0 then 45 :: ds else ds).

(** [str(x)] for a coordinate the search returned: an integer or [None]. *)
Definition py_str_opt (x : option Z) : result (list Z) :=
  match x with
  | Some z => py_str z
  | None => Ok (str_lit "None")
  end.

(** [str(a)+' '+str(b)+' '+str(c)+' '+str(d)] *)
Definition move_string (a b c d : option Z) : result (list Z) :=
  sa ← py_str_opt a;
  sb ← py_str_opt b;
  sc ← py_str_opt c;
  sd ← py_str_opt d;
  Ok (((((sa ++ [32]) ++ sb) ++ [32]) ++ sc) ++ [32] ++ sd).

(** ** [Player.sym] *)

(** [if kon == 1: return True else: return False] *)
Definition kon_bool (kon : Z) : bool := kon =? 1.

(** One player's part of a round of the [while True] loop of [sym]: a move
    drawn from [J.moves(player)] and played through [update], or the pass
    [J.do_move(None)] when the list is empty. [rs] is the sequence of the
    numbers [random.choice] draws and [k] counts the draws made so far. The
    result carries the game, the new count and [kon]. *)
Definition sym_turn (rs : nat → nat) (k : nat) (J : Jungle) (player : Z)
  : result (Jungle * nat * option Z) :=
  ms ← moves J player;
  match ms with
  | _ :: _ =>
      '((a, b), (c, d)) ← random_choice ms (rs k);
      str ← move_string (Some a) (Some b) (Some c) (Some d);
      '(J, kon) ← update J player str "n";
      Ok (J, S k, kon)
  | [] =>
      J ← do_move J None;
      Ok (J, k, None)
  end.

(** The [while True] loop of [sym]; [fuel] bounds the number of rounds. *)
Fixpoint sym_loop (fuel : nat) (rs : nat → nat) (k : nat) (J : Jungle)
  : result (bool * Jungle) :=
  match fuel with
  | O => Raise OutOfFuel
  | S fuel' =>
      let J := set_curplayer J 0 in
      '(J, k, kon) ← sym_turn rs k J 0;
      match kon with
      | Some kon => Ok (kon_bool kon, J)
      | None =>
          '(J, k, kon) ← sym_turn rs k J 1;
          match kon with
          | Some kon => Ok (kon_bool kon, J)
          | None => sym_loop fuel' rs k J
          end
      end
  end.

(** [Player.sym(J, move)]: the returned boolean and the game [J] as the
    rollout leaves it. *)
Definition sym (fuel : nat) (rs : nat → nat) (J : Jungle) (mv : move)
  : result (bool * Jungle) :=
  let '((a, b), (c, d)) := mv in
  let J := set_curplayer J 1 in
  str ← move_string (Some a) (Some b) (Some c) (Some d);
  '(J, kon) ← update J 1 str "n";
  match kon with
  | Some kon => Ok (kon_bool kon, J)
  | None => sym_loop fuel rs 0 J
  end.

(** ** One round of [Player.loop] *)

(** The body of the [while True] loop of [Player.loop]. [rollout i j] is
    what the [j]-th rollout of the candidate at index [i] returned (the
    rollouts run on deep copies and leave [self.game] alone), [r] is the
    number [random.choice] draws, [fuel] bounds the nesting of the search.
    The result is the game and what the round does next: [Some b] is
    [return b], [None] is the next round. ([player] is 1 throughout, so
    [self.my_player] is never written.) *)
Definition loop_body (rollout : nat → nat → bool) (r fuel : nat)
    (game : Jungle) : result (Jungle * option bool) :=
  mov ← moves game 1;
  '((a, b), (c, d)) ← random_choice (loop_max_move rollout mov) r;
  str ← move_string (Some a) (Some b) (Some c) (Some d);
  '(game, kon) ← update game 1 str "gl1";
  match kon with
  | Some kon => Ok (game, Some (kon_bool kon))
  | None =>
      '(game, ans) ← max_alpha_beta fuel game NegInf PosInf 0 true;
      match ans with
      | None => Raise TypeError
      | Some (m, aa, bb, cc, dd) =>
          str ← move_string aa bb cc dd;
          if bool_decide (aa ≠ None) then
            '(game, kon0) ← update game 0 str "gl0";
            Ok (game, None)
          else Ok (game, None)
      end
  end.

(** ** [Jungle.draw] *)

(** [TT = {0: 'rcdwjtle', 1: 'RCDWJTLE'}] *)
Definition TT : list (Z * list ascii) :=
  [(0, String.list_ascii_of_string "rcdwjtle");
   (1, String.list_ascii_of_string "RCDWJTLE")].

(** What [draw] appends to [L] for the cell [b = self.board[y][x]]. *)
Definition draw_cell (b : board_t) (x y : Z) : result ascii :=
  c ← board_get b x y;
  match c with
  | Some (pl, pc) =>
      letters ← dict_getitem TT pl;
      py_index letters pc
  | None => Ok "."%char
  end.

Fixpoint draw_row (b : board_t) (y : Z) (xs : list Z) : result (list ascii) :=
  match xs with
  | [] => Ok []
  | x :: xs' =>
      c ← draw_cell b x y;
      cs ← draw_row b y xs';
      Ok (c :: cs)
  end.

(** The lines [draw] prints for the rows [ys]. *)
Fixpoint draw_rows (b : board_t) (ys : list Z) : result (list string) :=
  match ys with
  | [] => Ok []
  | y :: ys' =>
      L ← draw_row b y (seqZ 0 MX);
      ls ← draw_rows b ys';
      Ok (String.string_of_list_ascii L :: ls)
  end.

(** [Jungle.draw]: the lines it prints, the closing empty line included. *)
Definition draw (s : Jungle) : result (list string) :=
  ls ← draw_rows (board s) (seqZ 0 MY);
  Ok (ls ++ [EmptyString]).

(** The coordinates a search method returns at a node it expands, [init]
    being the value it starts from: no move at all with the value still
    [init], or the coordinates of one of the moves [ms]. *)
Definition chosen (ms : list move) (init v : num) (aa bb cc dd : option Z)
  : Prop :=
  (v = init ∧ aa = None ∧ bb = None ∧ cc = None ∧ dd = None) ∨
  ∃ a b c d, ((a, b), (c, d)) ∈ ms ∧
             aa = Some a ∧ bb = Some b ∧ cc = Some c ∧ dd = Some d.
(** * Properties *)

(** ** The error monad *)

Lemma bind_Ok {X Y} (m : result X) (f : X → result Y) (y : Y) :
  m ≫= f = Ok y ↔ ∃ x, m = Ok x ∧ f x = Ok y.
Proof.
  destruct m as [x|e]; simpl.
  - split; [eauto | intros (x' & [= <-] & H); exact H].
  - split; [discriminate | intros (x' & [=] & _)].
Qed.

Lemma bind_Ok_l {X Y} (m : result X) (f : X → result Y) (x : X) :
  m = Ok x → m ≫= f = f x.
Proof. intros ->. reflexivity. Qed.

(** Run the binds whose first part is already a value. *)
Ltac mred := cbn [mbind result_bind].

(** Take apart a hypothesis [H : (x ← m; k) = Ok y]. *)
Tactic Notation "inv_bind" hyp(H) "as" simple_intropattern(x) ident(Hx) :=
  apply bind_Ok in H; destruct H as (x & Hx & H).

(** ** Python list indexing inside the range *)

Lemma py_norm_in_range {X} (l : list X) (i : Z) :
  0 ≤ i < Z.of_nat (length l) → py_norm l i = Some (Z.to_nat i).
Proof.
  intros Hi. unfold py_norm.
  destruct (Z.ltb_spec i 0); [lia|].
  destruct (Z.leb_spec 0 i); [|lia].
  destruct (Z.ltb_spec i (Z.of_nat (length l))); [reflexivity|lia].
Qed.

Lemma py_index_in_range {X} (l : list X) (i : Z) :
  0 ≤ i < Z.of_nat (length l) →
  ∃ x, l !! Z.to_nat i = Some x ∧ py_index l i = Ok x.
Proof.
  intros Hi. unfold py_index. rewrite py_norm_in_range by done.
  destruct (lookup_lt_is_Some_2 l (Z.to_nat i)) as [x Hx]; [lia|].
  exists x. by rewrite Hx.
Qed.

Lemma py_setitem_in_range {X} (l : list X) (i : Z) (v : X) :
  0 ≤ i < Z.of_nat (length l) →
  py_setitem l i v = Ok (<[Z.to_nat i := v]> l).
Proof. intros Hi. unfold py_setitem. by rewrite py_norm_in_range. Qed.

(** ** Dicts *)

Section Dict.
Context {V : Type}.
Implicit Types (d : dict V) (k : Z) (v : V).

Lemma dict_get_set d k v k' :
  dict_get (dict_set d k v) k' = if decide (k = k') then Some v else dict_get d k'.
Proof.
  induction d as [|[k0 v0] d IH]; simpl.
  - destruct (Z.eqb_spec k k'), (decide (k = k')); congruence.
  - destruct (Z.eqb_spec k0 k) as [->|Hne]; simpl.
    + destruct (Z.eqb_spec k k'), (decide (k = k')); congruence.
    + rewrite IH. destruct (Z.eqb_spec k0 k'), (decide (k = k')); congruence.
Qed.

Lemma dict_get_None d k : dict_get d k = None ↔ k ∉ dict_keys d.
Proof.
  unfold dict_keys. induction d as [|[k0 v0] d IH]; simpl.
  - split; [intros _; apply not_elem_of_nil | done].
  - rewrite not_elem_of_cons, <- IH.
    destruct (Z.eqb_spec k0 k) as [->|Hne]; split.
    + discriminate.
    + intros [Hk _]. done.
    + intros H. split; [congruence|done].
    + intros [_ H]. done.
Qed.

Lemma dict_get_Some_elem d k v : dict_get d k = Some v → (k, v) ∈ d.
Proof.
  induction d as [|[k0 v0] d IH]; simpl; [done|].
  destruct (Z.eqb_spec k0 k) as [->|Hne].
  - intros [= ->]. apply elem_of_cons; by left.
  - intros H. apply elem_of_cons; right; auto.
Qed.

Lemma dict_elem_get d k v :
  NoDup (dict_keys d) → (k, v) ∈ d → dict_get d k = Some v.
Proof.
  unfold dict_keys. induction d as [|[k0 v0] d IH]; simpl.
  - intros _ H. by apply elem_of_nil in H.
  - intros Hnd H. apply NoDup_cons in Hnd as [Hk0 Hnd].
    apply elem_of_cons in H as [[= <- <-]|H].
    + by rewrite Z.eqb_refl.
    + destruct (Z.eqb_spec k0 k) as [->|Hne]; [|auto].
      exfalso. apply Hk0. by apply (list_elem_of_fmap_2 fst) in H.
Qed.

Lemma dict_get_remove d k k' :
  NoDup (dict_keys d) →
  dict_get (dict_remove d k) k' = if decide (k = k') then None else dict_get d k'.
Proof.
  unfold dict_keys. induction d as [|[k0 v0] d IH]; simpl; intros Hnd.
  - by destruct (decide (k = k')).
  - apply NoDup_cons in Hnd as [Hk0 Hnd].
    destruct (Z.eqb_spec k0 k) as [->|Hne]; simpl.
    + destruct (decide (k = k')) as [<-|Hne'].
      * by apply dict_get_None.
      * by destruct (Z.eqb_spec k k').
    + rewrite IH by done.
      destruct (Z.eqb_spec k0 k'), (decide (k = k')); congruence.
Qed.

Lemma dict_keys_set_present d k v :
  k ∈ dict_keys d → dict_keys (dict_set d k v) = dict_keys d.
Proof.
  unfold dict_keys. induction d as [|[k0 v0] d IH]; simpl; intros H.
  - by apply elem_of_nil in H.
  - destruct (Z.eqb_spec k0 k) as [->|Hne]; simpl; [done|].
    apply elem_of_cons in H as [->|H]; [done|]. f_equal. by apply IH.
Qed.

Lemma dict_keys_set_absent d k v :
  k ∉ dict_keys d → dict_set d k v = d ++ [(k, v)].
Proof.
  unfold dict_keys. induction d as [|[k0 v0] d IH]; simpl; intros H; [done|].
  apply not_elem_of_cons in H as [Hne H].
  destruct (Z.eqb_spec k0 k) as [->|_]; [done|]. by rewrite IH.
Qed.

Lemma dict_set_nodup d k v :
  NoDup (dict_keys d) → NoDup (dict_keys (dict_set d k v)).
Proof.
  intros Hnd. destruct (decide (k ∈ dict_keys d)) as [Hin|Hnin].
  - by rewrite dict_keys_set_present.
  - rewrite dict_keys_set_absent by done. unfold dict_keys in *.
    rewrite fmap_app. apply NoDup_app. split; [done|]. split.
    + intros x Hx Hx'. apply list_elem_of_singleton in Hx'. by subst.
    + apply NoDup_singleton.
Qed.

Lemma dict_remove_sublist d k : dict_keys (dict_remove d k) `sublist_of` dict_keys d.
Proof.
  unfold dict_keys. induction d as [|[k0 v0] d IH]; simpl; [done|].
  destruct (Z.eqb_spec k0 k); simpl.
  - by apply sublist_cons.
  - by apply sublist_skip.
Qed.

Lemma dict_remove_nodup d k :
  NoDup (dict_keys d) → NoDup (dict_keys (dict_remove d k)).
Proof. intros H. exact (sublist_NoDup _ _ H (dict_remove_sublist d k)). Qed.

(** Deleting a key and assigning it again gives the same items, the
    re-assigned one now last. *)
Lemma dict_remove_set_perm d k v :
  NoDup (dict_keys d) → dict_get d k = Some v →
  dict_set (dict_remove d k) k v ≡ₚ d.
Proof.
  intros Hnd Hget.
  rewrite dict_keys_set_absent.
  2:{ apply dict_get_None. rewrite dict_get_remove by done.
      by destruct (decide (k = k)). }
  revert Hnd Hget. unfold dict_keys.
  induction d as [|[k0 v0] d IH]; simpl; [done|].
  intros Hnd. apply NoDup_cons in Hnd as [Hk0 Hnd].
  destruct (Z.eqb_spec k0 k) as [->|Hne].
  - intros [= ->]. by rewrite <- Permutation_cons_append.
  - intros H. simpl. by rewrite IH.
Qed.

Lemma dict_perm_get d d' k :
  NoDup (dict_keys d) → d ≡ₚ d' → dict_get d k = dict_get d' k.
Proof.
  intros Hnd Hp.
  assert (Hnd' : NoDup (dict_keys d')).
  { unfold dict_keys in *. by rewrite <- Hp. }
  destruct (dict_get d k) as [v|] eqn:E.
  - symmetry. apply dict_elem_get; [done|]. rewrite <- Hp.
    by apply dict_get_Some_elem.
  - symmetry. apply dict_get_None. apply dict_get_None in E.
    unfold dict_keys in *. by rewrite <- Hp.
Qed.
End Dict.

(** ** The board as a grid *)

Lemma board_get_lookup b x y :
  board_shape b → in_board (x, y) →
  ∃ row c, b !! Z.to_nat y = Some row ∧ row !! Z.to_nat x = Some c ∧
           board_get b x y = Ok c.
Proof.
  intros [Hlen Hrows] [Hx Hy]. unfold MX, MY in *. simpl in *.
  destruct (py_index_in_range b y) as (row & Hrow & Ey); [lia|].
  assert (Hr : length row = 7%nat) by (eapply Hrows, list_elem_of_lookup_2, Hrow).
  destruct (py_index_in_range row x) as (c & Hc & Ex); [lia|].
  exists row, c. split; [done|]. split; [done|].
  unfold board_get. rewrite Ey. simpl. exact Ex.
Qed.

Lemma board_get_ok b x y :
  board_shape b → in_board (x, y) → ∃ c, board_get b x y = Ok c.
Proof.
  intros Hs Hi. destruct (board_get_lookup b x y Hs Hi) as (? & c & _ & _ & E).
  eauto.
Qed.

Lemma board_set_spec b x y v :
  board_shape b → in_board (x, y) →
  ∃ b', board_set b x y v = Ok b' ∧ board_shape b' ∧
        ∀ x' y', in_board (x', y') →
          board_get b' x' y' =
            if decide (x' = x ∧ y' = y) then Ok v else board_get b x' y'.
Proof.
  intros Hs Hi.
  destruct (board_get_lookup b x y Hs Hi) as (row & c & Hrow & Hc & _).
  destruct Hs as [Hlen Hrows]. pose proof Hi as [Hx Hy].
  unfold MX, MY in *. simpl in *.
  assert (Hr : length row = 7%nat) by (eapply Hrows, list_elem_of_lookup_2, Hrow).
  exists (<[Z.to_nat y := <[Z.to_nat x := v]> row]> b).
  assert (Hs' : board_shape (<[Z.to_nat y := <[Z.to_nat x := v]> row]> b)).
  { split; [by rewrite length_insert|].
    intros r Hin. apply list_elem_of_lookup_1 in Hin as [i Hi'].
    apply list_lookup_insert_Some in Hi' as [(_ & <- & _)|[_ Hi']].
    - by rewrite length_insert.
    - eapply Hrows, list_elem_of_lookup_2, Hi'. }
  split; [|split; [exact Hs'|]].
  - unfold board_set.
    destruct (py_index_in_range b y) as (row' & Hrow' & ->); [lia|].
    assert (row' = row) as -> by congruence. simpl.
    rewrite py_setitem_in_range by lia. simpl.
    by rewrite py_setitem_in_range by lia.
  - intros x' y' Hi'.
    destruct (board_get_lookup _ x' y' Hs' Hi') as (r1 & c1 & Hr1 & Hc1 & ->).
    destruct (board_get_lookup b x' y' (conj Hlen Hrows) Hi')
      as (r2 & c2 & Hr2 & Hc2 & ->).
    destruct Hi' as [Hx' Hy']. unfold MX, MY in *. simpl in *.
    destruct (decide (y' = y)) as [->|Hney].
    + rewrite list_lookup_insert_eq in Hr1 by lia.
      injection Hr1 as <-. assert (r2 = row) as -> by congruence.
      destruct (decide (x' = x)) as [->|Hnex].
      * rewrite list_lookup_insert_eq in Hc1 by lia.
        rewrite decide_True by done. congruence.
      * rewrite list_lookup_insert_ne in Hc1 by lia.
        rewrite decide_False by (intros [? _]; done). congruence.
    + rewrite list_lookup_insert_ne in Hr1 by lia.
      rewrite decide_False by (intros [_ ?]; done). congruence.
Qed.

(** Two boards of the right shape with the same cells are the same list. *)
Lemma board_ext b b' :
  board_shape b → board_shape b' →
  (∀ x y, in_board (x, y) → board_get b x y = board_get b' x y) →
  b = b'.
Proof.
  intros Hs Hs' Hext. apply list_eq. intros j.
  destruct (decide (j < 9)%nat) as [Hj|Hj].
  2:{ rewrite !lookup_ge_None_2; [done|destruct Hs'; lia|destruct Hs; lia]. }
  destruct (lookup_lt_is_Some_2 b j) as [r Hr]; [destruct Hs; lia|].
  destruct (lookup_lt_is_Some_2 b' j) as [r' Hr']; [destruct Hs'; lia|].
  rewrite Hr, Hr'. f_equal. apply list_eq. intros i.
  assert (Hlr : length r = 7%nat)
    by (destruct Hs as [_ H]; eapply H, list_elem_of_lookup_2, Hr).
  assert (Hlr' : length r' = 7%nat)
    by (destruct Hs' as [_ H]; eapply H, list_elem_of_lookup_2, Hr').
  destruct (decide (i < 7)%nat) as [Hi|Hi].
  2:{ rewrite !lookup_ge_None_2; [done|lia|lia]. }
  assert (Hin : in_board (Z.of_nat i, Z.of_nat j)).
  { split; unfold MX, MY; simpl; lia. }
  specialize (Hext _ _ Hin).
  destruct (board_get_lookup b _ _ Hs Hin) as (r1 & c1 & Hr1 & Hc1 & E1).
  destruct (board_get_lookup b' _ _ Hs' Hin) as (r2 & c2 & Hr2 & Hc2 & E2).
  rewrite Nat2Z.id in *.
  assert (r1 = r) as -> by congruence. assert (r2 = r') as -> by congruence.
  congruence.
Qed.

(** ** The two-level dict [pieces] *)

Lemma dict_get_Some_key {V} (d : dict V) k v :
  dict_get d k = Some v → k ∈ dict_keys d.
Proof.
  intros H. destruct (decide (k ∈ dict_keys d)) as [|Hn]; [done|].
  apply dict_get_None in Hn. congruence.
Qed.

Lemma loc_Some ps pl pc p :
  loc ps pl pc = Some p ↔ ∃ d, dict_get ps pl = Some d ∧ dict_get d pc = Some p.
Proof.
  unfold loc. destruct (dict_get ps pl) as [d|]; split.
  - eauto.
  - intros (d' & [= <-] & H). exact H.
  - discriminate.
  - intros (d' & [=] & _).
Qed.

Lemma pieces_ok_player ps pl :
  pieces_ok ps → (pl = 0 ∨ pl = 1 ↔ ∃ d, dict_get ps pl = Some d).
Proof.
  intros [Hk _]. split.
  - intros Hpl. destruct (dict_get ps pl) as [d|] eqn:E; [eauto|].
    apply dict_get_None in E. rewrite Hk in E.
    exfalso. apply E. destruct Hpl as [-> | ->].
    + apply elem_of_cons; by left.
    + apply elem_of_cons; right; apply elem_of_cons; by left.
  - intros [d Hd]. apply dict_get_Some_key in Hd. rewrite Hk in Hd.
    apply elem_of_cons in Hd as [->|Hd]; [by left|].
    apply elem_of_cons in Hd as [->|Hd]; [by right|].
    by apply elem_of_nil in Hd.
Qed.

Lemma loc_player ps pl pc p :
  pieces_ok ps → loc ps pl pc = Some p → pl = 0 ∨ pl = 1.
Proof.
  intros Hok H. apply loc_Some in H as (d & Hd & _).
  apply (pieces_ok_player ps pl Hok). eauto.
Qed.

Lemma pieces_set_spec ps pl pc v :
  pieces_ok ps → pl = 0 ∨ pl = 1 →
  ∃ ps', pieces_set ps pl pc v = Ok ps' ∧ pieces_ok ps' ∧
    ∀ q r, loc ps' q r =
      if decide (q = pl ∧ r = pc) then Some v else loc ps q r.
Proof.
  intros Hok Hpl. pose proof Hok as [Hk Hnd].
  apply (pieces_ok_player ps pl Hok) in Hpl as [d Hd].
  exists (dict_set ps pl (dict_set d pc v)). split; [|split].
  - unfold pieces_set, dict_getitem. by rewrite Hd.
  - split.
    + rewrite dict_keys_set_present; [done|]. by eapply dict_get_Some_key.
    + intros q d'. rewrite dict_get_set. destruct (decide (pl = q)) as [<-|].
      * intros [= <-]. apply dict_set_nodup. by eapply Hnd.
      * apply Hnd.
  - intros q r. unfold loc. rewrite dict_get_set.
    destruct (decide (pl = q)) as [<-|Hne].
    + rewrite dict_get_set, Hd. destruct (decide (pc = r)) as [<-|Hne].
      * by rewrite decide_True.
      * by rewrite decide_False by (intros [_ ?]; done).
    + by rewrite decide_False by (intros [? _]; done).
Qed.

Lemma pieces_del_spec ps pl pc p :
  pieces_ok ps → loc ps pl pc = Some p →
  ∃ ps', pieces_del ps pl pc = Ok ps' ∧ pieces_ok ps' ∧
    ∀ q r, loc ps' q r = if decide (q = pl ∧ r = pc) then None else loc ps q r.
Proof.
  intros Hok Hloc. pose proof Hok as [Hk Hnd].
  apply loc_Some in Hloc as (d & Hd & Hp).
  exists (dict_set ps pl (dict_remove d pc)). split; [|split].
  - unfold pieces_del, dict_getitem, dict_del, dict_contains.
    by rewrite Hd; simpl; rewrite Hp.
  - split.
    + rewrite dict_keys_set_present; [done|]. by eapply dict_get_Some_key.
    + intros q d'. rewrite dict_get_set. destruct (decide (pl = q)) as [<-|].
      * intros [= <-]. apply dict_remove_nodup. by eapply Hnd.
      * apply Hnd.
  - intros q r. unfold loc. rewrite dict_get_set.
    destruct (decide (pl = q)) as [<-|Hne].
    + rewrite dict_get_remove, Hd by (by eapply Hnd).
      destruct (decide (pc = r)) as [<-|Hne].
      * by rewrite decide_True.
      * by rewrite decide_False by (intros [_ ?]; done).
    + by rewrite decide_False by (intros [? _]; done).
Qed.

(** ** The make block *)

(** Case analysis on the [decide] tests that compare cells or pieces. *)
Ltac decide_cases :=
  repeat case_decide; try done;
  repeat match goal with H : _ ∧ _ |- _ => destruct H end;
  simplify_eq; try done;
  try (exfalso;
       match goal with
       | H : ¬ (_ ∧ _) |- _ => apply H; by split
       | H : _ ≠ _ |- _ => by apply H
       end).

Lemma pair_eq_dec_iff (x y a b : Z) : (x, y) = (a, b) ↔ x = a ∧ y = b.
Proof. split; [by intros [= -> ->]|by intros [-> ->]]. Qed.

Lemma wf_loc_inj s q r q' r' p :
  wf s → loc (pieces s) q r = Some p → loc (pieces s) q' r' = Some p →
  q = q' ∧ r = r'.
Proof.
  intros Hwf H1 H2.
  apply (wf_loc s Hwf) in H1 as [_ H1]. apply (wf_loc s Hwf) in H2 as [_ H2].
  rewrite H1 in H2. by injection H2.
Qed.

Lemma affect_after s m :
  wf s → movable s m → ∃ s1 u, affect s m = Ok (s1, u) ∧ after_move s m s1 u.
Proof.
  intros Hwf (pl & pc & Hloc & Hin2 & Hne & _).
  destruct m as [[a b] [c d]]. simpl in *.
  destruct (wf_loc s Hwf _ _ _ Hloc) as [Hin1 Hcell1]. simpl in Hcell1.
  pose proof (loc_player _ _ _ _ (wf_pieces s Hwf) Hloc) as Hpl.
  destruct (board_get_ok (board s) c d (wf_shape s Hwf) Hin2) as [tgt Htgt].
  unfold affect. rewrite Hcell1. simpl. rewrite Htgt. simpl.
  destruct tgt as [[pl2 pc2]|].
  - pose proof (wf_cell s Hwf _ _ _ _ Hin2 Htgt) as Hloc2.
    destruct (pieces_del_spec _ _ _ _ (wf_pieces s Hwf) Hloc2)
      as (ps1 & -> & Hok1 & Hl1). simpl.
    destruct (pieces_set_spec ps1 pl pc (c, d) Hok1 Hpl)
      as (ps2 & -> & Hok2 & Hl2). simpl.
    destruct (board_set_spec (board s) c d (Some (pl, pc)) (wf_shape s Hwf) Hin2)
      as (b1 & -> & Hs1 & Hb1). simpl.
    destruct (board_set_spec b1 a b None Hs1 Hin1) as (b2 & -> & Hs2 & Hb2).
    simpl. eexists _, _. split; [reflexivity|].
    constructor; simpl; try done.
    + left. done.
    + intros x y Hxy. rewrite Hb2, Hb1 by done.
      decide_cases.
    + intros q r. rewrite Hl2, Hl1.
      destruct (decide (q = pl ∧ r = pc)) as [|Hn1]; [done|].
      destruct (decide (q = pl2 ∧ r = pc2)) as [[-> ->]|Hn2].
      * by rewrite decide_True.
      * rewrite decide_False; [done|]. intros Hq. apply Hn2.
        eapply wf_loc_inj; eauto.
  - simpl.
    destruct (pieces_set_spec (pieces s) pl pc (c, d) (wf_pieces s Hwf) Hpl)
      as (ps2 & -> & Hok2 & Hl2). simpl.
    destruct (board_set_spec (board s) c d (Some (pl, pc)) (wf_shape s Hwf) Hin2)
      as (b1 & -> & Hs1 & Hb1). simpl.
    destruct (board_set_spec b1 a b None Hs1 Hin1) as (b2 & -> & Hs2 & Hb2).
    simpl. eexists _, _. split; [reflexivity|].
    constructor; simpl; try done.
    + right. done.
    + intros x y Hxy. rewrite Hb2, Hb1 by done.
      decide_cases.
    + intros q r. rewrite Hl2.
      destruct (decide (q = pl ∧ r = pc)) as [|Hn1]; [done|].
      rewrite decide_False; [done|]. intros Hq.
      apply (wf_loc s Hwf) in Hq as [_ Hq]. simpl in Hq. congruence.
Qed.

Lemma after_move_wf s m s1 u :
  wf s → movable s m → after_move s m s1 u → wf s1.
Proof.
  intros Hwf (pl & pc & Hloc & Hin2 & Hne & Hswim) Ham.
  destruct m as [[a b] [c d]].
  pose proof (am_board _ _ _ _ Ham) as Hb.
  pose proof (am_loc _ _ _ _ Ham) as Hl.
  pose proof (am_mover _ _ _ _ Ham) as Hmv. simpl in *.
  destruct (wf_loc s Hwf _ _ _ Hloc) as [Hin1 Hcell1]. simpl in Hcell1.
  rewrite Hcell1 in Hmv. injection Hmv as Epl Epc.
  rewrite <- Epl, <- Epc in *. clear Epl Epc.
  constructor.
  - exact (am_shape _ _ _ _ Ham).
  - exact (am_pieces_ok _ _ _ _ Ham).
  - intros q r p. rewrite Hl. repeat case_decide; try discriminate.
    + intros _. destruct H as [-> ->]. eapply wf_rank; eauto.
    + eapply wf_rank; eauto.
  - intros q r p. rewrite Hl. repeat case_decide; try discriminate.
    + intros [= <-]. split; [done|]. destruct H as [-> ->]. simpl.
      rewrite Hb by done. decide_cases.
    + intros Hq. destruct (wf_loc s Hwf _ _ _ Hq) as [Hinp Hcp].
      split; [done|]. destruct p as [x y]. simpl in *.
      rewrite Hb by done.
      destruct (decide ((x, y) = (a, b))) as [[= -> ->]|N1].
      * destruct (wf_loc_inj s _ _ _ _ _ Hwf Hq Hloc) as [-> ->].
        exfalso. by apply H.
      * rewrite decide_False; [done|]. congruence.
  - intros x y q r Hxy. rewrite Hb by done. rewrite Hl.
    destruct (decide ((x, y) = (a, b))) as [E1|N1]; [discriminate|].
    destruct (decide ((x, y) = (c, d))) as [E2|N2].
    + intros [= <- <-]. rewrite decide_True by done. by rewrite E2.
    + intros Hc. pose proof (wf_cell s Hwf _ _ _ _ Hxy Hc) as Hq.
      rewrite decide_False.
      * rewrite decide_False; [done|]. congruence.
      * intros [-> ->]. congruence.
  - intros q r p. rewrite Hl. repeat case_decide; try discriminate.
    + intros [= <-] Hp. destruct H as [_ ->]. auto.
    + eapply wf_swim; eauto.
Qed.

(** ** The unmake block *)

Lemma pieces_ok_keys ps ps' :
  pieces_ok ps → pieces_ok ps' → dict_keys ps = dict_keys ps'.
Proof. intros [-> _] [-> _]. reflexivity. Qed.

Lemma undo_after s m s1 u s1' :
  wf s → movable s m → after_move s m s1 u →
  pieces_ok (pieces s1') → same_position s1 s1' →
  ∃ s2, undo s1' u = Ok s2 ∧ same_position s s2 ∧ pieces_ok (pieces s2) ∧
        curplayer s2 = curplayer s1' ∧ winner s2 = winner s1'.
Proof.
  intros Hwf (pl & pc & Hloc & Hin2 & Hne & _) Ham Hok' (Hbd & [_ Hlq] & Hpc).
  destruct m as [[a b] [c d]].
  pose proof (am_board _ _ _ _ Ham) as Hb.
  pose proof (am_loc _ _ _ _ Ham) as Hl.
  pose proof (am_mover _ _ _ _ Ham) as Hmv.
  pose proof (am_target _ _ _ _ Ham) as Htg.
  pose proof (am_from _ _ _ _ Ham) as Hfrom.
  pose proof (am_to _ _ _ _ Ham) as Hto.
  pose proof (am_p_c _ _ _ _ Ham) as Hp_c.
  pose proof (am_shape _ _ _ _ Ham) as Hsh1.
  destruct u as [a' b' c' d' pl' pc' pl2 pc2 p_c zb]. simpl in *.
  injection Hfrom as -> ->. injection Hto as -> ->. subst p_c.
  destruct (wf_loc s Hwf _ _ _ Hloc) as [Hin1 Hcell1]. simpl in Hcell1.
  rewrite Hcell1 in Hmv. injection Hmv as <- <-.
  pose proof (loc_player _ _ _ _ (wf_pieces s Hwf) Hloc) as Hpl.
  rewrite Hbd in Hsh1.
  destruct Htg as [(Htgt & -> & Hc0)|(Htgt & -> & Hc1)]; simpl.
  - pose proof (wf_cell s Hwf _ _ _ _ Hin2 Htgt) as Hloc2.
    pose proof (loc_player _ _ _ _ (wf_pieces s Hwf) Hloc2) as Hpl2.
    destruct (pieces_set_spec (pieces s1') pl2 pc2 (c, d) Hok' Hpl2)
      as (ps1 & -> & Hok1 & Hl1). simpl.
    destruct (board_set_spec (board s1') a b (Some (pl, pc)) Hsh1 Hin1)
      as (b1 & -> & Hs1 & Hb1). simpl.
    destruct (board_set_spec b1 c d (Some (pl2, pc2)) Hs1 Hin2)
      as (b2 & -> & Hs2 & Hb2). simpl.
    destruct (pieces_set_spec ps1 pl pc (a, b) Hok1 Hpl)
      as (ps2 & -> & Hok2 & Hl2). simpl.
    eexists. split; [reflexivity|]. simpl.
    split; [|done]. split; [|split; [|done]].
    + apply board_ext; [apply Hwf|done|].
      intros x y Hxy. rewrite Hb2, Hb1, <- Hbd, Hb by done.
      decide_cases.
    + split; [apply pieces_ok_keys; [apply Hwf|done]|].
      intros q r. rewrite Hl2, Hl1, <- Hlq, Hl.
      destruct (decide (q = pl ∧ r = pc)) as [[-> ->]|N1]; [done|].
      destruct (decide (q = pl2 ∧ r = pc2)) as [[-> ->]|N2]; [done|].
      case_decide as E; [|done].
      destruct (wf_loc_inj s _ _ _ _ _ Hwf Hloc2 E) as [-> ->].
      exfalso. by apply N2.
  - destruct (board_set_spec (board s1') a b (Some (pl, pc)) Hsh1 Hin1)
      as (b1 & -> & Hs1 & Hb1). simpl.
    destruct (board_set_spec b1 c d None Hs1 Hin2)
      as (b2 & -> & Hs2 & Hb2). simpl.
    destruct (pieces_set_spec (pieces s1') pl pc (a, b) Hok' Hpl)
      as (ps2 & -> & Hok2 & Hl2). simpl.
    eexists. split; [reflexivity|]. simpl.
    split; [|done]. split; [|split; [|simpl; lia]].
    + apply board_ext; [apply Hwf|done|].
      intros x y Hxy. rewrite Hb2, Hb1, <- Hbd, Hb by done.
      decide_cases.
    + split; [apply pieces_ok_keys; [apply Hwf|done]|].
      intros q r. rewrite Hl2, <- Hlq, Hl.
      destruct (decide (q = pl ∧ r = pc)) as [[-> ->]|N1]; [done|].
      case_decide as E; [|done].
      apply (wf_loc s Hwf) in E as [_ E]. simpl in E. congruence.
Qed.

Lemma same_position_wf s s' :
  wf s → same_position s s' → pieces_ok (pieces s') → wf s'.
Proof.
  intros Hwf (Hb & [_ Hl] & _) Hok. constructor.
  - rewrite <- Hb. apply Hwf.
  - done.
  - intros pl pc p. rewrite <- Hl. apply Hwf.
  - intros pl pc p. rewrite <- Hl, <- Hb. apply Hwf.
  - intros x y pl pc. rewrite <- Hl, <- Hb. apply Hwf.
  - intros pl pc p. rewrite <- Hl. apply Hwf.
Qed.

Lemma same_position_movable s s' m :
  same_position s s' → movable s m → movable s' m.
Proof.
  intros (_ & [_ Hl] & _) (pl & pc & H). exists pl, pc. by rewrite <- Hl.
Qed.

Lemma same_position_refl s : same_position s s.
Proof. by repeat split. Qed.

Lemma same_position_trans s1 s2 s3 :
  same_position s1 s2 → same_position s2 s3 → same_position s1 s3.
Proof.
  intros (Hb & [Hk Hl] & Hc) (Hb' & [Hk' Hl'] & Hc').
  split; [congruence|]. split; [|congruence].
  split; [congruence|]. intros pl pc. by rewrite Hl.
Qed.


(** ** Terrain facts *)

Lemma in_board_cases x y :
  in_board (x, y) →
  (x = 0 ∨ x = 1 ∨ x = 2 ∨ x = 3 ∨ x = 4 ∨ x = 5 ∨ x = 6) ∧
  (y = 0 ∨ y = 1 ∨ y = 2 ∨ y = 3 ∨ y = 4 ∨ y = 5 ∨ y = 6 ∨ y = 7 ∨ y = 8).
Proof. intros [Hx Hy]. unfold MX, MY in *. simpl in *. lia. Qed.

Lemma dirs_cases (d : Z * Z) :
  d ∈ dirs ↔ d = (0, 1) ∨ d = (1, 0) ∨ d = (-1, 0) ∨ d = (0, -1).
Proof.
  unfold dirs. rewrite !elem_of_cons, elem_of_nil. tauto.
Qed.

(** The offset [moves] leaps by when the step [(dx, dy)] enters the river. *)
Lemma leap_lands x y dx dy :
  in_board (x, y) → (dx, dy) ∈ dirs →
  pos_in (x, y) ponds = false → pos_in (x + dx, y + dy) ponds = true →
  let dx' := if negb (dx =? 0) then dx * 3 else dx in
  let dy' := if negb (dy =? 0) then dy * 4 else dy in
  in_board (x + dx', y + dy') ∧ pos_in (x + dx', y + dy') ponds = false ∧
  (x, y) ≠ (x + dx', y + dy').
Proof.
  intros Hin Hd. apply in_board_cases in Hin as [Hx Hy].
  apply dirs_cases in Hd.
  destruct Hd as [[= -> ->]|[[= -> ->]|[[= -> ->]|[= -> ->]]]];
    repeat (destruct Hx as [->|Hx]); try subst x;
    repeat (destruct Hy as [->|Hy]); try subst y;
    intros H1 H2; vm_compute in H1; vm_compute in H2; try discriminate;
    cbv zeta; simpl;
    (split; [unfold in_board, MX, MY; simpl; lia
            |split; [reflexivity|intros [=]]]).
Qed.

(** ** [rat_is_blocking] *)

#[local] Arguments pos_in : simpl never.
#[local] Arguments can_beat : simpl never.

Lemma rat_is_blocking_eq s player_unused p dx dy :
  pieces_ok (pieces s) →
  rat_is_blocking s player_unused p dx dy =
    Ok (rat_on_path s 1 p dx dy || rat_on_path s 0 p dx dy).
Proof.
  intros Hok.
  destruct (proj1 (pieces_ok_player _ 0 Hok)) as [d0 Hd0]; [by left|].
  destruct (proj1 (pieces_ok_player _ 1 Hok)) as [d1 Hd1]; [by right|].
  destruct p as [x y]. unfold rat_is_blocking, rat_on_path, loc.
  cbn [rat_is_blocking_loop fst snd].
  change (1 - 0) with 1. change (1 - 1) with 0.
  unfold dict_getitem, dict_contains. rewrite Hd1, Hd0.
  cbn [mbind result_bind].
  destruct (dict_get d1 rat) as [[rx ry]|]; cbn [negb mbind result_bind].
  - destruct (pos_in (rx, ry) ponds); cbn [negb andb orb].
    + destruct (negb (dy =? 0) && (x =? rx)); cbn [orb]; [done|].
      destruct (negb (dx =? 0) && ((y =? ry) && (Z.abs (x - rx) <=? 2)
                                   && (Z.abs (x + dx - rx) <=? 2)));
        cbn [orb]; [done|].
      destruct (dict_get d0 rat) as [[rx' ry']|]; cbn [negb mbind result_bind];
        [|done].
      destruct (pos_in (rx', ry') ponds); cbn [negb andb orb]; [|done].
      destruct (negb (dy =? 0) && (x =? rx')); cbn [orb]; [done|].
      by destruct (negb (dx =? 0) && ((y =? ry') && (Z.abs (x - rx') <=? 2)
                                      && (Z.abs (x + dx - rx') <=? 2))).
    + destruct (dict_get d0 rat) as [[rx' ry']|]; cbn [negb mbind result_bind];
        [|done].
      destruct (pos_in (rx', ry') ponds); cbn [negb andb orb]; [|done].
      destruct (negb (dy =? 0) && (x =? rx')); cbn [orb]; [done|].
      by destruct (negb (dx =? 0) && ((y =? ry') && (Z.abs (x - rx') <=? 2)
                                      && (Z.abs (x + dx - rx') <=? 2))).
  - destruct (dict_get d0 rat) as [[rx' ry']|]; cbn [negb mbind result_bind];
      [|done].
    destruct (pos_in (rx', ry') ponds); cbn [negb andb orb]; [|done].
    destruct (negb (dy =? 0) && (x =? rx')); cbn [orb]; [done|].
    by destruct (negb (dx =? 0) && ((y =? ry') && (Z.abs (x - rx') <=? 2)
                                    && (Z.abs (x + dx - rx') <=? 2))).
Qed.

(** ** [moves] *)

Lemma dens_player player :
  player = 0 ∨ player = 1 →
  ∃ den, py_index dens player = Ok den ∧
         den = (if player =? 0 then (3, 8) else (3, 0)).
Proof. intros [-> | ->]; eexists; split; reflexivity. Qed.

Lemma range_test_in_board nx ny :
  ((0 <=? nx) && (nx <? MX)) && ((0 <=? ny) && (ny <? MY)) = true ↔
  in_board (nx, ny).
Proof.
  unfold in_board. simpl.
  rewrite !andb_true_iff, !Z.leb_le, !Z.ltb_lt. tauto.
Qed.

(** The last part of the inner loop of [moves]: the test of the cell the
    piece would land on. *)
Lemma moves_landing_ok s player p pos1 (t : pos) :
  wf s → in_board t →
  ∃ r, (board_get (board s) t.1 t.2 ≫= λ c,
          match c with
          | Some (pl2, piece2) =>
              if pl2 =? player then Ok None
              else if negb (can_beat p piece2 pos1 t) then Ok None
              else Ok (Some (pos1, t))
          | None => Ok (Some (pos1, t))
          end) = Ok r ∧
       ∀ m, r = Some m → m = (pos1, t).
Proof.
  intros Hwf Hin. destruct t as [tx ty]. cbn [fst snd].
  destruct (board_get_ok (board s) tx ty (wf_shape s Hwf) Hin) as [c ->].
  cbn [mbind result_bind]. destruct c as [[pl2 piece2]|].
  - destruct (pl2 =? player); [eexists; split; [done|]; by intros ? [=]|].
    destruct (negb _); eexists; (split; [done|]); intros m [=]; done.
  - eexists; split; [done|]. by intros m [= <-].
Qed.

Lemma moves_dir_spec s player p x y dx dy :
  wf s → player = 0 ∨ player = 1 →
  loc (pieces s) player p = Some (x, y) → (dx, dy) ∈ dirs →
  ∃ r, moves_dir s player p (x, y) (dx, dy) = Ok r ∧
       ∀ m, r = Some m →
         m.1 = (x, y) ∧ in_board m.2 ∧ m.1 ≠ m.2 ∧
         (pos_in m.2 ponds = true → p = rat).
Proof.
  intros Hwf Hpl Hloc Hd.
  destruct (wf_loc s Hwf _ _ _ Hloc) as [Hin1 _].
  assert (Hstep : (x, y) ≠ (x + dx, y + dy)).
  { apply dirs_cases in Hd.
    destruct Hd as [[= -> ->]|[[= -> ->]|[[= -> ->]|[= -> ->]]]];
      intros [=]; lia. }
  unfold moves_dir.
  destruct (((0 <=? x + dx) && (x + dx <? MX)) &&
            ((0 <=? y + dy) && (y + dy <? MY))) eqn:Hrange.
  2:{ eexists. split; [done|]. by intros m [=]. }
  apply range_test_in_board in Hrange.
  destruct (dens_player player Hpl) as (den & -> & _). mred.
  destruct (pos_eqb den (x + dx, y + dy)).
  { eexists. split; [done|]. by intros m [=]. }
  unfold moves_target.
  destruct (pos_in (x + dx, y + dy) ponds) eqn:Hpond.
  - destruct (negb ((p =? rat) || (p =? tiger) || (p =? lion))) eqn:Hsw.
    { mred. eexists. split; [done|]. by intros m [=]. }
    destruct ((p =? tiger) || (p =? lion)) eqn:Htl.
    + rewrite rat_is_blocking_eq by apply Hwf. mred.
      destruct (rat_on_path s 1 _ _ _ || rat_on_path s 0 _ _ _).
      { mred. eexists. split; [done|]. by intros m [=]. }
      assert (Hland : pos_in (x, y) ponds = false).
      { destruct (pos_in (x, y) ponds) eqn:E; [|done].
        pose proof (wf_swim s Hwf _ _ _ Hloc E) as ->. discriminate. }
      destruct (leap_lands x y dx dy Hin1 Hd Hland Hpond) as (Hin2 & Hl2 & Hne).
      mred.
      destruct (moves_landing_ok s player p (x, y) _ Hwf Hin2) as (r & Hr & Hm).
      cbn [fst snd] in Hr. rewrite Hr. exists r. split; [done|].
      intros m ->%Hm. cbn [fst snd]. split; [done|]. split; [done|].
      split; [done|]. intros E. congruence.
    + mred.
      destruct (moves_landing_ok s player p (x, y) _ Hwf Hrange) as (r & Hr & Hm).
      cbn [fst snd] in Hr. rewrite Hr. exists r. split; [done|].
      intros m ->%Hm. cbn [fst snd]. split; [done|]. split; [done|].
      split; [done|].
      intros _. apply negb_false_iff in Hsw.
      apply orb_false_iff in Htl as [Ht Hl]. rewrite Ht, Hl in Hsw.
      rewrite !orb_false_r in Hsw. by apply Z.eqb_eq in Hsw.
  - mred.
    destruct (moves_landing_ok s player p (x, y) _ Hwf Hrange) as (r & Hr & Hm).
    cbn [fst snd] in Hr. rewrite Hr. exists r. split; [done|].
    intros m ->%Hm. cbn [fst snd]. split; [done|]. split; [done|].
    split; [done|]. intros E. congruence.
Qed.
Lemma moves_dirs_spec s player p x y ds :
  wf s → player = 0 ∨ player = 1 →
  loc (pieces s) player p = Some (x, y) → (∀ d, d ∈ ds → d ∈ dirs) →
  ∃ ms, moves_dirs s player p (x, y) ds = Ok ms ∧
        ∀ m, m ∈ ms ↔
             ∃ d, d ∈ ds ∧ moves_dir s player p (x, y) d = Ok (Some m).
Proof.
  intros Hwf Hpl Hloc. induction ds as [|[dx dy] ds IH]; intros Hds.
  - exists []. split; [done|]. intros m. split.
    + intros H. by apply elem_of_nil in H.
    + intros (d & H & _). by apply elem_of_nil in H.
  - destruct IH as (ms & Hms & Hiff).
    { intros d Hd. apply Hds. apply elem_of_cons. by right. }
    destruct (moves_dir_spec s player p x y dx dy Hwf Hpl Hloc) as (r & Hr & _).
    { apply Hds. apply elem_of_cons. by left. }
    exists (option_list r ++ ms). split.
    + cbn [moves_dirs]. rewrite Hr. mred. rewrite Hms. done.
    + intros m. rewrite elem_of_app, Hiff. split.
      * intros [Hm|(d & Hd & Hm)].
        -- destruct r as [m'|]; simpl in Hm; [|by apply elem_of_nil in Hm].
           apply list_elem_of_singleton in Hm as ->.
           exists (dx, dy). split; [apply elem_of_cons; by left|done].
        -- exists d. split; [apply elem_of_cons; by right|done].
      * intros (d & Hd & Hm). apply elem_of_cons in Hd as [->|Hd].
        -- left. rewrite Hm in Hr. injection Hr as <-. simpl.
           by apply list_elem_of_singleton.
        -- right. eauto.
Qed.

Lemma moves_items_spec s player items :
  wf s → player = 0 ∨ player = 1 →
  (∀ p pos1, (p, pos1) ∈ items → loc (pieces s) player p = Some pos1) →
  ∃ ms, moves_items s player items = Ok ms ∧
        ∀ m, m ∈ ms ↔
             ∃ p pos1 d, (p, pos1) ∈ items ∧ d ∈ dirs ∧
                         moves_dir s player p pos1 d = Ok (Some m).
Proof.
  intros Hwf Hpl. induction items as [|[p [x y]] items IH]; intros Hit.
  - exists []. split; [done|]. intros m. split.
    + intros H. by apply elem_of_nil in H.
    + intros (? & ? & ? & H & _). by apply elem_of_nil in H.
  - destruct IH as (ms' & Hms' & Hiff').
    { intros q pos1 Hq. apply Hit. apply elem_of_cons. by right. }
    destruct (moves_dirs_spec s player p x y dirs Hwf Hpl) as (ms & Hms & Hiff).
    { apply Hit. apply elem_of_cons. by left. }
    { done. }
    exists (ms ++ ms'). split.
    + cbn [moves_items]. rewrite Hms. mred. rewrite Hms'. done.
    + intros m. rewrite elem_of_app, Hiff, Hiff'. split.
      * intros [(d & Hd & Hm)|(q & pos1 & d & Hq & Hd & Hm)].
        -- exists p, (x, y), d. split; [apply elem_of_cons; by left|done].
        -- exists q, pos1, d. split; [apply elem_of_cons; by right|done].
      * intros (q & pos1 & d & Hq & Hd & Hm).
        apply elem_of_cons in Hq as [[= -> ->]|Hq].
        -- left. eauto.
        -- right. eauto 10.
Qed.

Lemma moves_spec s player :
  wf s → player = 0 ∨ player = 1 →
  ∃ ms, moves s player = Ok ms ∧
        ∀ m, m ∈ ms ↔
             ∃ p d, loc (pieces s) player p = Some m.1 ∧ d ∈ dirs ∧
                    moves_dir s player p m.1 d = Ok (Some m).
Proof.
  intros Hwf Hpl.
  destruct (proj1 (pieces_ok_player _ player (wf_pieces s Hwf)) Hpl) as [d Hd].
  assert (Hitems : ∀ p pos1, (p, pos1) ∈ d ↔ loc (pieces s) player p = Some pos1).
  { intros p pos1. unfold loc. rewrite Hd. split.
    - apply dict_elem_get. destruct (wf_pieces s Hwf) as [_ Hnd]. by eapply Hnd.
    - apply dict_get_Some_elem. }
  destruct (moves_items_spec s player d Hwf Hpl) as (ms & Hms & Hiff).
  { intros p pos1. apply Hitems. }
  exists ms. split.
  - unfold moves, dict_getitem. rewrite Hd. exact Hms.
  - intros m. rewrite Hiff. split.
    + intros (p & [x y] & dr & Hp & Hdr & Hm). apply Hitems in Hp.
      destruct dr as [dx dy].
      destruct (moves_dir_spec s player p x y dx dy Hwf Hpl Hp Hdr)
        as (r & Hr & Hprop).
      rewrite Hm in Hr. injection Hr as <-.
      destruct (Hprop m eq_refl) as (E1 & _).
      exists p, (dx, dy). rewrite E1. done.
    + intros (p & dr & Hp & Hdr & Hm). exists p, m.1, dr.
      split; [by apply Hitems|done].
Qed.

Lemma legal_movable s player m :
  wf s → player = 0 ∨ player = 1 → legal s player m → movable s m.
Proof.
  intros Hwf Hpl (ms & Hms & Hm).
  destruct (moves_spec s player Hwf Hpl) as (ms' & Hms' & Hiff).
  rewrite Hms in Hms'. injection Hms' as <-.
  apply Hiff in Hm as (p & [dx dy] & Hp & Hd & Hdir).
  destruct m as [[x y] m2]. cbn [fst snd] in *.
  destruct (moves_dir_spec s player p x y dx dy Hwf Hpl Hp Hd) as (r & Hr & Hprop).
  rewrite Hdir in Hr. injection Hr as <-.
  destruct (Hprop _ eq_refl) as (_ & Hin & Hne & Hsw). cbn [fst snd] in *.
  exists player, p. done.
Qed.

(** ** The invariant as a test *)

Lemma all_cells_in_board x y : in_board (x, y) → (x, y) ∈ all_cells.
Proof.
  intros Hin. apply in_board_cases in Hin as [Hx Hy].
  repeat (destruct Hx as [->|Hx]); try subst x;
    repeat (destruct Hy as [->|Hy]); try subst y;
    by apply (bool_decide_unpack _).
Qed.

Lemma wfb_wf s : wfb s = true → wf s.
Proof.
  unfold wfb. rewrite !andb_true_iff.
  intros [[[[Hlen Hrows] Hkeys] Hps] Hcells].
  apply bool_decide_eq_true_1 in Hlen, Hkeys.
  rewrite forallb_forall in Hrows, Hps, Hcells.
  assert (Hok : pieces_ok (pieces s)).
  { split; [done|]. intros pl d Hd. apply dict_get_Some_elem in Hd.
    apply list_elem_of_In, Hps in Hd. apply andb_true_iff in Hd as [Hd _].
    by apply bool_decide_eq_true_1 in Hd. }
  assert (Hitem : ∀ pl pc p, loc (pieces s) pl pc = Some p →
                             wf_item s pl (pc, p) = true).
  { intros pl pc p Hl. apply loc_Some in Hl as (d & Hd & Hp).
    apply dict_get_Some_elem in Hd, Hp.
    apply list_elem_of_In, Hps in Hd. apply andb_true_iff in Hd as [_ Hd].
    simpl in Hd. rewrite forallb_forall in Hd.
    by apply Hd, list_elem_of_In. }
  constructor.
  - split; [done|]. intros row Hrow. apply list_elem_of_In, Hrows in Hrow.
    by apply bool_decide_eq_true_1 in Hrow.
  - done.
  - intros pl pc p Hl. apply Hitem in Hl. unfold wf_item in Hl. simpl in Hl.
    rewrite !andb_true_iff, Z.leb_le, Z.leb_le in Hl. tauto.
  - intros pl pc p Hl. apply Hitem in Hl. unfold wf_item in Hl. simpl in Hl.
    rewrite !andb_true_iff in Hl. destruct Hl as [[[_ Hin] Hc] _].
    split.
    + destruct p as [x y]. by apply range_test_in_board.
    + unfold cell_is in Hc. destruct (board_get _ _ _) as [c|]; [|done].
      apply bool_decide_eq_true_1 in Hc. by subst.
  - intros x y pl pc Hin Hc. apply all_cells_in_board in Hin.
    apply list_elem_of_In, Hcells in Hin. unfold wf_cellb in Hin.
    simpl in Hin. rewrite Hc in Hin. by apply bool_decide_eq_true_1 in Hin.
  - intros pl pc p Hl Hp. apply Hitem in Hl. unfold wf_item in Hl. simpl in Hl.
    rewrite !andb_true_iff in Hl. destruct Hl as [_ Hl]. rewrite Hp in Hl.
    simpl in Hl. by apply Z.eqb_eq.
Qed.

Lemma new_Jungle_wf : wf new_Jungle.
Proof. apply wfb_wf. by vm_compute. Qed.

(** ** Writes to [curplayer] and [winner] *)

Lemma wf_set_curplayer s p : wf s → wf (set_curplayer s p).
Proof. intros Hwf. constructor; simpl; apply Hwf. Qed.

Lemma wf_set_winner s w : wf s → wf (set_winner s w).
Proof. intros Hwf. constructor; simpl; apply Hwf. Qed.

(** ** [victory] *)

Lemma victory_inv s player mes v s' :
  victory s player mes = Ok (v, s') →
  (v = false ∧ s' = s) ∨ (v = true ∧ ∃ w, s' = set_winner s (Some w)).
Proof.
  unfold victory. intros H. inv_bind H as d Hd.
  destruct (Z.of_nat (length d) =? 0).
  { injection H as <- <-. right. eauto. }
  inv_bind H as [x y] Hden. inv_bind H as c Hc.
  destruct (bool_decide (is_Some c)).
  { injection H as <- <-. right. eauto. }
  destruct (peace_counter s >=? MAXIMAL_PASSIVE).
  - inv_bind H as r Hr. destruct r as [r|]; injection H as <- <-; right; eauto.
  - injection H as <- <-. by left.
Qed.

Lemma victory_wf s player mes v s' :
  wf s → victory s player mes = Ok (v, s') → wf s'.
Proof.
  intros Hwf H. apply victory_inv in H as [[_ ->]|[_ [w ->]]]; [done|].
  by apply wf_set_winner.
Qed.

Lemma victory_same_position s player mes v s' :
  victory s player mes = Ok (v, s') →
  same_position s s' ∧ pieces s' = pieces s ∧ curplayer s' = curplayer s.
Proof.
  intros H. apply victory_inv in H as [[_ ->]|[_ [w ->]]];
    (split; [by repeat split|done]).
Qed.

(** ** [do_move] is the make block followed by the turn flip *)

Lemma do_move_affect s m :
  do_move s (Some m) =
    affect s m ≫= λ r, Ok (set_curplayer r.1 (1 - curplayer s)).
Proof.
  destruct m as [[x y] [x2 y2]]. unfold do_move, affect. simpl.
  destruct (board_get (board s) x y) as [[[pl pc]|]|]; simpl; try done.
  destruct (board_get (board s) x2 y2) as [[[pl2 pc2]|]|]; simpl; try done.
  - destruct (pieces_del (pieces s) pl2 pc2) as [ps|]; simpl; try done.
    destruct (pieces_set ps pl pc (x2, y2)) as [ps'|]; simpl; try done.
    destruct (board_set (board s) x2 y2 (Some (pl, pc))) as [b1|]; simpl; try done.
    destruct (board_set b1 x y None) as [b2|]; simpl; done.
  - destruct (pieces_set (pieces s) pl pc (x2, y2)) as [ps'|]; simpl; try done.
    destruct (board_set (board s) x2 y2 (Some (pl, pc))) as [b1|]; simpl; try done.
    destruct (board_set b1 x y None) as [b2|]; simpl; done.
Qed.

Lemma do_move_wf s player m s' :
  wf s → player = 0 ∨ player = 1 → legal s player m →
  do_move s (Some m) = Ok s' → wf s'.
Proof.
  intros Hwf Hpl Hlegal H. rewrite do_move_affect in H.
  pose proof (legal_movable s player m Hwf Hpl Hlegal) as Hmv.
  destruct (affect_after s m Hwf Hmv) as (s1 & u & Ha & Ham).
  rewrite Ha in H. simpl in H. injection H as <-.
  apply wf_set_curplayer. by eapply after_move_wf.
Qed.

(** ** [update] *)

Lemma update_decode_inv tuple ms m :
  update_decode tuple ms = Ok m →
  (m = None ∧ ms = [] ∧ tuple = [-1; -1; -1; -1]) ∨
  (∃ a b c d, m = Some ((a, b), (c, d)) ∧ ((a, b), (c, d)) ∈ ms ∧
              py_index tuple 0 = Ok a ∧ py_index tuple 1 = Ok b ∧
              py_index tuple 2 = Ok c ∧ py_index tuple 3 = Ok d).
Proof.
  unfold update_decode. destruct ms as [|m0 ms].
  - case_bool_decide as E; simpl; [|done]. intros [= <-]. by left.
  - intros H. inv_bind H as a Ha. inv_bind H as b Hb.
    inv_bind H as c Hc. inv_bind H as d Hd.
    case_bool_decide as E; simpl in H; [|done].
    injection H as <-. right. eauto 10.
Qed.

Lemma update_inv s player move_string mes s' r :
  update s player move_string mes = Ok (s', r) →
  ∃ tuple ms m s1 v,
    py_ints (split_space move_string) = Ok tuple ∧
    length tuple = 4%nat ∧
    moves (set_curplayer s player) player = Ok ms ∧
    update_decode tuple ms = Ok m ∧
    do_move (set_curplayer s player) m = Ok s1 ∧
    victory s1 player mes = Ok (v, s') ∧
    r = (if v then (λ w, 2 * w - 1) <$> winner s' else None) ∧
    (v = true → is_Some (winner s')).
Proof.
  unfold update. intros H. inv_bind H as tuple Htuple.
  destruct (Z.of_nat (length tuple) =? 4) eqn:Hlen; simpl in H; [|done].
  apply Z.eqb_eq in Hlen.
  inv_bind H as ms Hms. inv_bind H as m Hm. inv_bind H as s1 Hs1.
  inv_bind H as [v s2] Hv.
  exists tuple, ms, m, s1, v.
  destruct v.
  - destruct (winner s2) as [w|] eqn:Hw; [|done]. injection H as <- <-.
    rewrite Hw. split_and!; try done; try lia; eauto.
  - injection H as <- <-. split_and!; try done; lia.
Qed.

Lemma update_wf s player move_string mes s' r :
  wf s → player = 0 ∨ player = 1 →
  update s player move_string mes = Ok (s', r) → wf s'.
Proof.
  intros Hwf Hpl H.
  apply update_inv in H as (tuple & ms & m & s1 & v & _ & _ & Hms & Hdec & Hdo & Hv & _).
  eapply victory_wf; [|exact Hv].
  pose proof (wf_set_curplayer s player Hwf) as Hwf0.
  apply update_decode_inv in Hdec as [(-> & _)|(a & b & c & d & -> & Hin & _)].
  - injection Hdo as <-. by apply wf_set_curplayer.
  - eapply do_move_wf; [exact Hwf0|exact Hpl| |exact Hdo].
    exists ms. done.
Qed.

(** ** Every reachable state is well formed *)

Lemma affect_wf s player m s1 u :
  wf s → player = 0 ∨ player = 1 → legal s player m →
  affect s m = Ok (s1, u) → after_move s m s1 u ∧ wf s1.
Proof.
  intros Hwf Hpl Hlegal Ha.
  pose proof (legal_movable s player m Hwf Hpl Hlegal) as Hmv.
  destruct (affect_after s m Hwf Hmv) as (s1' & u' & Ha' & Ham).
  rewrite Ha in Ha'. injection Ha' as <- <-.
  split; [done|]. by eapply after_move_wf.
Qed.

Lemma reachable_wf s : reachable s → wf s.
Proof.
  induction 1 as
    [|s player str mes s' r _ IH Hpl Hup
     |s s' _ IH Hdo
     |s p _ IH
     |s player mes v s' _ IH Hpl Hv
     |s player m s' u _ IH Hpl Hlegal Ha
     |s0 player m s1 u s1' s2 _ IH0 Hpl Hlegal Ha _ IH1 Hsame Hundo].
  - apply new_Jungle_wf.
  - by eapply update_wf.
  - injection Hdo as <-. by apply wf_set_curplayer.
  - by apply wf_set_curplayer.
  - by eapply victory_wf.
  - exact (proj2 (affect_wf s player m s' u IH Hpl Hlegal Ha)).
  - destruct (affect_wf s0 player m s1 u IH0 Hpl Hlegal Ha) as [Ham _].
    pose proof (legal_movable s0 player m IH0 Hpl Hlegal) as Hmv.
    destruct (undo_after s0 m s1 u s1' IH0 Hmv Ham (wf_pieces _ IH1) Hsame)
      as (s2' & Hu & Hsp & Hok & _).
    rewrite Hundo in Hu. injection Hu as <-.
    exact (same_position_wf s0 s2 IH0 Hsp Hok).
Qed.

(** ** The two views of a well-formed state agree *)

Lemma wf_consistent s : wf s → consistent s.
Proof.
  intros Hwf. split; [|split; [|split]].
  - intros owner rank p Hl. by apply (wf_loc s Hwf).
  - intros [x y] owner rank Hin. split.
    + by apply (wf_cell s Hwf).
    + intros Hl. by apply (wf_loc s Hwf) in Hl as [_ Hl].
  - intros owner d Hd. destruct (wf_pieces s Hwf) as [_ Hnd].
    pose proof (Hnd _ _ Hd) as Hn. split; [done|].
    assert (Hsub : dict_keys d ⊆ seqZ 0 8).
    { intros k Hk. destruct (dict_get d k) as [p|] eqn:E.
      - assert (Hl : loc (pieces s) owner k = Some p)
          by (unfold loc; by rewrite Hd).
        apply (wf_rank s Hwf) in Hl. apply elem_of_seqZ. lia.
      - apply dict_get_None in E. done. }
    pose proof (submseteq_length _ _ (NoDup_submseteq _ _ Hn Hsub)) as Hlen.
    unfold dict_keys in Hlen. rewrite length_fmap, length_seqZ in Hlen. lia.
  - intros o1 r1 o2 r2 p H1 H2. by eapply wf_loc_inj.
Qed.

(** C4. After the apply of a legal move on a reachable state, in real
    play ([do_move]) and in the make block of the search, and after the
    unmake block (run on the state the nested search hands back, which has
    the placement the make block left), the board and the rank index are
    consistent: every indexed piece stands on its board cell, a board cell
    holds (owner, rank) exactly when the index sends (owner, rank) to that
    cell, each owner has at most 8 pieces with distinct ranks, and no two
    pieces share a cell. *)
Theorem apply_undo_consistent s player m :
  reachable s → player = 0 ∨ player = 1 → legal s player m →
  (∃ s', do_move s (Some m) = Ok s' ∧ consistent s') ∧
  (∃ s1 u, affect s m = Ok (s1, u) ∧ consistent s1 ∧
     ∀ s1', reachable s1' → same_position s1 s1' →
       ∃ s2, undo s1' u = Ok s2 ∧ consistent s2).
Proof.
  intros Hreach Hpl Hlegal. pose proof (reachable_wf s Hreach) as Hwf.
  pose proof (legal_movable s player m Hwf Hpl Hlegal) as Hmv.
  destruct (affect_after s m Hwf Hmv) as (s1 & u & Ha & Ham).
  pose proof (after_move_wf s m s1 u Hwf Hmv Ham) as Hwf1.
  split.
  - exists (set_curplayer s1 (1 - curplayer s)). split.
    + rewrite do_move_affect, Ha. done.
    + by apply wf_consistent, wf_set_curplayer.
  - exists s1, u. split; [done|]. split; [by apply wf_consistent|].
    intros s1' Hreach' Hsame.
    destruct (undo_after s m s1 u s1' Hwf Hmv Ham
                (wf_pieces _ (reachable_wf _ Hreach')) Hsame)
      as (s2 & Hu & Hsp & Hok & _).
    exists s2. split; [done|].
    apply wf_consistent. exact (same_position_wf s s2 Hwf Hsp Hok).
Qed.

Lemma apply_undo_consistent_witness :
  (∃ s', do_move new_Jungle (Some ((0, 6), (0, 5))) = Ok s' ∧ consistent s') ∧
  (∃ s1 u, affect new_Jungle ((0, 6), (0, 5)) = Ok (s1, u) ∧ consistent s1 ∧
     ∀ s1', reachable s1' → same_position s1 s1' →
       ∃ s2, undo s1' u = Ok s2 ∧ consistent s2).
Proof.
  apply (apply_undo_consistent new_Jungle 0 ((0, 6), (0, 5))).
  - apply reach_new.
  - by left.
  - eexists. split; [vm_compute; reflexivity|].
    by apply (bool_decide_unpack _).
Defined.

(** ** Capture on a trap *)

(** C5 (as stated) fails: an elephant on land next to a trap does not
    capture a rat standing on that trap. *)
Lemma can_beat_elephant_rat_trap_cex :
  pos_in (3, 2) ponds = false ∧ pos_in (3, 1) traps = true ∧
  can_beat elephant rat (3, 2) (3, 1) = false.
Proof. by vm_compute. Qed.

(** C5 (amended). For every attacker position outside the river and every
    trap position, [can_beat] is true for every pair of ranks except an
    elephant attacking a rat, for which it is false: the elephant-rat test
    comes before the trap test. *)
Theorem can_beat_on_trap p1 p2 pos1 pos2 :
  pos_in pos1 ponds = false → pos_in pos2 traps = true →
  can_beat p1 p2 pos1 pos2 = negb ((p1 =? elephant) && (p2 =? rat)).
Proof.
  intros H1 H2. unfold can_beat. rewrite H1, H2. cbn [andb].
  unfold rat, elephant.
  destruct (Z.eqb_spec p1 0) as [->|N1]; cbn [andb].
  - destruct (Z.eqb_spec p2 7) as [->|N2]; [done|].
    by destruct (0 >=? p2).
  - destruct (Z.eqb_spec p1 7) as [->|N3]; cbn [andb].
    + destruct (Z.eqb_spec p2 0) as [->|N4]; [done|].
      by destruct (7 >=? p2).
    + by destruct (p1 >=? p2).
Qed.

Lemma can_beat_on_trap_witness :
  can_beat cat dog (3, 2) (3, 1) = negb ((cat =? elephant) && (dog =? rat)).
Proof. apply can_beat_on_trap; reflexivity. Defined.

(** ** A pass *)

(** C10. [do_move(None)] succeeds on every state, replaces [curplayer] by
    [1 - curplayer] and leaves the board, the rank index, the passivity
    counter and the winner as they were. *)
Theorem do_move_None_flips s :
  ∃ s', do_move s None = Ok s' ∧
        curplayer s' = 1 - curplayer s ∧ board s' = board s ∧
        pieces s' = pieces s ∧ peace_counter s' = peace_counter s ∧
        winner s' = winner s.
Proof. eexists. split; [reflexivity|]. by repeat split. Qed.

(** ** The passivity rule *)

Lemma players_with_eq s i :
  pieces_ok (pieces s) →
  players_with (pieces s) i [0; 1] =
    Ok ((if has_rank s 0 i then [0] else []) ++
        (if has_rank s 1 i then [1] else [])).
Proof.
  intros Hok.
  destruct (proj1 (pieces_ok_player _ 0 Hok)) as [d0 Hd0]; [by left|].
  destruct (proj1 (pieces_ok_player _ 1 Hok)) as [d1 Hd1]; [by right|].
  unfold has_rank. cbn [players_with]. unfold dict_getitem.
  rewrite Hd0, Hd1. mred.
  by destruct (dict_contains d0 i), (dict_contains d1 i).
Qed.

Lemma pieces_comparison_loop_spec s ranks :
  pieces_ok (pieces s) →
  ∃ r, pieces_comparison_loop (pieces s) ranks = Ok r ∧
    match r with
    | Some w =>
        ∃ pre i post, ranks = pre ++ i :: post ∧ (w = 0 ∨ w = 1) ∧
          has_rank s w i = true ∧ has_rank s (1 - w) i = false ∧
          ∀ j, j ∈ pre → has_rank s 0 j = has_rank s 1 j
    | None => ∀ j, j ∈ ranks → has_rank s 0 j = has_rank s 1 j
    end.
Proof.
  intros Hok. induction ranks as [|i ranks IH].
  - exists None. split; [done|]. intros j Hj. by apply elem_of_nil in Hj.
  - cbn [pieces_comparison_loop]. rewrite players_with_eq by done. mred.
    destruct (has_rank s 0 i) eqn:E0, (has_rank s 1 i) eqn:E1; simpl.
    + destruct IH as (r & -> & Hr). exists r. split; [done|].
      destruct r as [w|].
      * destruct Hr as (pre & i' & post & -> & Hw & H1 & H2 & Hpre).
        exists (i :: pre), i', post. split_and!; try done.
        intros j Hj. apply elem_of_cons in Hj as [->|Hj]; [congruence|auto].
      * intros j Hj. apply elem_of_cons in Hj as [->|Hj]; [congruence|auto].
    + exists (Some 0). split; [done|]. exists [], i, ranks.
      split_and!; try done; [by left|].
      intros j Hj. by apply elem_of_nil in Hj.
    + exists (Some 1). split; [done|]. exists [], i, ranks.
      split_and!; try done; [by right|].
      intros j Hj. by apply elem_of_nil in Hj.
    + destruct IH as (r & -> & Hr). exists r. split; [done|].
      destruct r as [w|].
      * destruct Hr as (pre & i' & post & -> & Hw & H1 & H2 & Hpre).
        exists (i :: pre), i', post. split_and!; try done.
        intros j Hj. apply elem_of_cons in Hj as [->|Hj]; [congruence|auto].
      * intros j Hj. apply elem_of_cons in Hj as [->|Hj]; [congruence|auto].
Qed.

Lemma ranks_down_split pre i post :
  ranks_down = pre ++ i :: post →
  0 ≤ i ≤ 7 ∧ ∀ j, i < j ≤ 7 → j ∈ pre.
Proof.
  unfold ranks_down. intros H.
  do 8 (destruct pre as [|? pre];
        [injection H as <- <-; split; [lia|];
         intros j Hj; rewrite ?elem_of_cons; lia
        |injection H as <- H]).
  by destruct pre.
Qed.

Lemma pieces_comparison_spec s :
  pieces_ok (pieces s) →
  ∃ r, pieces_comparison s = Ok r ∧
       passive_winner s (default 0 r) ∧ (r = None ∨ r = Some (default 0 r)).
Proof.
  intros Hok. unfold pieces_comparison.
  destruct (pieces_comparison_loop_spec s ranks_down Hok) as (r & -> & Hr).
  exists r. split; [done|]. destruct r as [w|]; simpl.
  - split; [|by right].
    destruct Hr as (pre & i & post & Hsplit & Hw & H1 & H2 & Hpre).
    apply ranks_down_split in Hsplit as [Hi Hj].
    left. exists i. split; [done|]. split; [done|]. split; [done|].
    split; [done|]. intros j Hjr. auto.
  - split; [|by left]. right. split; [done|].
    intros j Hj. apply Hr. unfold ranks_down. rewrite !elem_of_cons. lia.
Qed.

(** C7. On a well-formed state with [peace_counter >= 30] where the
    opponent of [player] still has a piece and the opponent's den is empty,
    [victory] reports a finished game, and the winner recorded in the state
    it leaves is the holder of the highest rank (from 7 down to 0) that
    exactly one player holds, or player 0 when every rank is held by both
    players or by neither. Nothing but [winner] is written. *)
Theorem victory_passivity s player mes :
  wf s → player = 0 ∨ player = 1 →
  (∃ pc p, loc (pieces s) (1 - player) pc = Some p) →
  (∃ x y, py_index dens (1 - player) = Ok (x, y) ∧
          board_get (board s) x y = Ok None) →
  MAXIMAL_PASSIVE ≤ peace_counter s →
  ∃ w s', victory s player mes = Ok (true, s') ∧
          winner s' = Some w ∧ passive_winner s w ∧
          board s' = board s ∧ pieces s' = pieces s ∧
          peace_counter s' = peace_counter s ∧ curplayer s' = curplayer s.
Proof.
  intros Hwf Hpl (pc & p & Hloc) (x & y & Hden & Hcell) Hpc.
  apply loc_Some in Hloc as (d & Hd & Hp).
  unfold victory, dict_getitem. rewrite Hd. mred.
  destruct d as [|e d]; [done|].
  change (Z.of_nat (length (e :: d)) =? 0) with false. cbn iota.
  rewrite Hden. mred. rewrite Hcell. mred.
  rewrite bool_decide_eq_false_2 by (intros [? [=]]).
  destruct (Z.geb_spec (peace_counter s) MAXIMAL_PASSIVE) as [_|Hlt]; [|lia].
  destruct (pieces_comparison_spec s (wf_pieces s Hwf)) as (r & -> & Hw & Hr).
  mred. exists (default 0 r), (set_winner s (Some (default 0 r))).
  split; [by destruct Hr as [-> | ->]|]. done.
Qed.

Lemma victory_passivity_witness :
  ∃ w s', victory (set_peace_counter new_Jungle 30) 0 "n" = Ok (true, s') ∧
          winner s' = Some w ∧
          passive_winner (set_peace_counter new_Jungle 30) w ∧
          board s' = board (set_peace_counter new_Jungle 30) ∧
          pieces s' = pieces (set_peace_counter new_Jungle 30) ∧
          peace_counter s' = peace_counter (set_peace_counter new_Jungle 30) ∧
          curplayer s' = curplayer (set_peace_counter new_Jungle 30).
Proof.
  apply (victory_passivity (set_peace_counter new_Jungle 30) 0 "n").
  - apply wfb_wf. by vm_compute.
  - by left.
  - exists 6, (0, 0). reflexivity.
  - exists 3, 0. split; reflexivity.
  - vm_compute. discriminate.
Defined.

(** ** Terminal nodes of the search *)

(** [victory] does not read [winner]: asked again after it said yes, it
    says yes again and records the same winner. *)
Lemma victory_again s p mes s1 :
  victory s p mes = Ok (true, s1) → victory s1 p mes = Ok (true, s1).
Proof.
  intros H.
  destruct (victory_inv _ _ _ _ _ H) as [[? _]|[_ [w ->]]]; [done|].
  revert H. unfold victory. cbn [pieces board peace_counter set_winner].
  destruct (dict_getitem (pieces s) (1 - p)) as [d|]; mred; [|done].
  destruct (Z.of_nat (length d) =? 0).
  { by intros [= <-]. }
  destruct (py_index dens (1 - p)) as [[x y]|]; mred; [|done].
  destruct (board_get (board s) x y) as [c|]; mred; [|done].
  destruct (bool_decide (is_Some c)).
  { by intros [= <-]. }
  destruct (peace_counter s >=? MAXIMAL_PASSIVE); [|done].
  unfold pieces_comparison. cbn [pieces set_winner].
  destruct (pieces_comparison_loop (pieces s) ranks_down) as [[r|]|]; mred;
    [| |done]; by intros [= <-].
Qed.

Lemma utility_terminal s p s1 :
  victory s p "n" = Ok (true, s1) →
  utility s p = Ok (s1, Some (NegInf, Some 0, Some 0, Some 0, Some 0)).
Proof.
  intros H. pose proof (victory_again _ _ _ _ H) as H1.
  unfold utility. rewrite H. mred. cbn [bool_int].
  change (1 <? 0) with false. cbn iota.
  rewrite H1. mred. cbn [bool_int]. change (1 =? 0) with false. cbn iota.
  rewrite H1. mred. reflexivity.
Qed.

Lemma not_the_none_list_true mov : not_the_none_list mov = true.
Proof.
  unfold not_the_none_list. apply negb_true_iff, bool_decide_eq_false_2.
  destruct mov as [|m [|m' mov]]; discriminate.
Qed.

Lemma max_alpha_beta_terminal fuel s alpha beta depth start ms s1 :
  moves s 0 = Ok ms → victory s 0 "n" = Ok (true, s1) →
  max_alpha_beta (S fuel) s alpha beta depth start
  = Ok (s1, Some (NegInf, Some 0, Some 0, Some 0, Some 0)).
Proof.
  intros Hms Hv. cbn [max_alpha_beta]. rewrite Hms. mred. rewrite Hv. mred.
  apply utility_terminal. exact (victory_again _ _ _ _ Hv).
Qed.

Lemma min_alpha_beta_terminal fuel s alpha beta depth start ms s1 :
  moves s 1 = Ok ms → victory s 1 "n" = Ok (true, s1) →
  min_alpha_beta (S fuel) s alpha beta depth start
  = Ok (s1, Some (NegInf, Some 0, Some 0, Some 0, Some 0)).
Proof.
  intros Hms Hv. cbn [min_alpha_beta]. rewrite Hms. mred. rewrite Hv. mred.
  apply utility_terminal. exact (victory_again _ _ _ _ Hv).
Qed.

(** C2 (the code at the failing input). On [den_taken] player 0 has won:
    [victory] records winner 0. The search for player 0 returns minus
    infinity there, not plus infinity. *)
Theorem search_value_when_player0_won :
  wfb den_taken = true ∧
  victory den_taken 0 "n" = Ok (true, set_winner den_taken (Some 0)) ∧
  max_alpha_beta 5 den_taken NegInf PosInf 0 true
  = Ok (set_winner den_taken (Some 0),
        Some (NegInf, Some 0, Some 0, Some 0, Some 0)).
Proof. by vm_compute. Qed.

(** ** A side without moves *)

Lemma max_alpha_beta_no_moves fuel s alpha beta depth start :
  moves s 0 = Ok [] → victory s 0 "n" = Ok (false, s) →
  depth ≤ MAX_DEPTH →
  max_alpha_beta (S fuel) s alpha beta depth start
  = Ok (s, Some (NegInf, None, None, None, None)).
Proof.
  intros Hms Hv Hd. cbn [max_alpha_beta]. rewrite Hms. mred. rewrite Hv. mred.
  unfold cut_off_tests.
  destruct (Z.gtb_spec depth MAX_DEPTH) as [Hgt|_]; [lia|].
  rewrite not_the_none_list_true. reflexivity.
Qed.

Lemma min_alpha_beta_no_moves fuel s alpha beta depth start :
  moves s 1 = Ok [] → victory s 1 "n" = Ok (false, s) →
  depth ≤ MAX_DEPTH →
  min_alpha_beta (S fuel) s alpha beta depth start
  = Ok (s, Some (PosInf, None, None, None, None)).
Proof.
  intros Hms Hv Hd. cbn [min_alpha_beta]. rewrite Hms. mred. rewrite Hv. mred.
  unfold cut_off_tests.
  destruct (Z.gtb_spec depth MAX_DEPTH) as [Hgt|_]; [lia|].
  rewrite not_the_none_list_true. reflexivity.
Qed.

(** C3 (the code at the failing input). On [stuck] player 0 has no move
    and the game is not over. At depth 3, which is within the cutoff, the
    search for player 0 returns minus infinity with no coordinates and
    calls nothing; the pass branch, had it run, would have returned the
    value of player 1's search one ply deeper, which is finite. *)
Theorem search_without_moves_does_not_pass :
  wfb stuck = true ∧ moves stuck 0 = Ok [] ∧
  victory stuck 0 "n" = Ok (false, stuck) ∧
  cut_off_tests 3 = false ∧
  max_alpha_beta 6 stuck NegInf PosInf 3 true
  = Ok (stuck, Some (NegInf, None, None, None, None)) ∧
  ∃ s' v, max_pass (min_alpha_beta 5) stuck NegInf PosInf 3
            NegInf None None None None
          = Ok (s', Some (Fin v, None, None, None, None)).
Proof.
  split; [by vm_compute|]. split; [by vm_compute|].
  split; [by vm_compute|]. split; [by vm_compute|].
  split; [by vm_compute|].
  eexists _, _. vm_compute. reflexivity.
Qed.

(** ** The choice among the scored candidates *)

(** C9 (the code at the failing input). From the starting position, with
    rollouts that give the first candidate 1 win, the second 3 wins and
    the others none, the list [random.choice] draws from holds the first
    candidate as well as the second, and a draw of index 0 plays the first
    candidate, whose score 1 is below the maximum 3. *)
Theorem loop_keeps_earlier_lower_score :
  ∃ mov,
    moves new_Jungle 1 = Ok mov ∧
    score rollouts_1_3 0 = 1 ∧ score rollouts_1_3 1 = 3 ∧
    loop_max_move rollouts_1_3 mov = [((0, 0), (0, 1)); ((0, 0), (1, 0))] ∧
    mov !! 0%nat = Some ((0, 0), (0, 1)) ∧
    random_choice (loop_max_move rollouts_1_3 mov) 0 = Ok ((0, 0), (0, 1)).
Proof. eexists. split; [by vm_compute|]. by vm_compute. Qed.

(** ** Leaps over the river *)

Lemma ponds_in_board x y : pos_in (x, y) ponds = true → in_board (x, y).
Proof.
  unfold pos_in, ponds. cbn. unfold pos_eqb. cbn [fst snd].
  rewrite !orb_true_iff, !andb_true_iff, !Z.eqb_eq.
  unfold in_board, MX, MY. cbn [fst snd]. lia.
Qed.

Lemma leap_dirs dx dy :
  (dx, dy) ∈ dirs → leap (dx, dy) = (dx * 3, dy * 4).
Proof.
  intros Hd. apply dirs_cases in Hd.
  by destruct Hd as [[= -> ->]|[[= -> ->]|[[= -> ->]|[= -> ->]]]].
Qed.

(** What the inner loop of [moves] does with a tiger or lion whose step
    enters the river. *)
Lemma moves_dir_leap s player p x y dx dy :
  wf s → player = 0 ∨ player = 1 → p = tiger ∨ p = lion →
  pos_in (x + dx, y + dy) ponds = true →
  moves_dir s player p (x, y) (dx, dy) =
    if rat_on_path s 1 (x, y) (leap (dx, dy)).1 (leap (dx, dy)).2
       || rat_on_path s 0 (x, y) (leap (dx, dy)).1 (leap (dx, dy)).2
    then Ok None
    else
      board_get (board s) (x + (leap (dx, dy)).1) (y + (leap (dx, dy)).2) ≫=
      λ c, match c with
           | Some (pl2, piece2) =>
               if pl2 =? player then Ok None
               else if negb (can_beat p piece2 (x, y)
                               (x + (leap (dx, dy)).1, y + (leap (dx, dy)).2))
                    then Ok None
                    else Ok (Some ((x, y), (x + (leap (dx, dy)).1,
                                            y + (leap (dx, dy)).2)))
           | None => Ok (Some ((x, y), (x + (leap (dx, dy)).1,
                                        y + (leap (dx, dy)).2)))
           end.
Proof.
  intros Hwf Hpl Hp Hpond. pose proof (ponds_in_board _ _ Hpond) as Hin.
  unfold moves_dir. rewrite (proj2 (range_test_in_board _ _) Hin).
  destruct (dens_player player Hpl) as (den & -> & Hden). mred.
  assert (pos_eqb den (x + dx, y + dy) = false) as ->.
  { destruct (pos_eqb den (x + dx, y + dy)) eqn:E; [|done].
    unfold pos_eqb in E. apply andb_true_iff in E as [E1 E2].
    apply Z.eqb_eq in E1, E2. subst den.
    destruct (player =? 0); cbn [fst snd] in E1, E2; rewrite <- E1, <- E2 in Hpond;
      by vm_compute in Hpond. }
  unfold moves_target. rewrite Hpond.
  assert ((p =? rat) || (p =? tiger) || (p =? lion) = true) as ->
    by (by destruct Hp as [-> | ->]).
  assert ((p =? tiger) || (p =? lion) = true) as ->
    by (by destruct Hp as [-> | ->]).
  cbn [negb]. rewrite rat_is_blocking_eq by apply Hwf. mred.
  unfold leap. cbn [fst snd].
  destruct (rat_on_path s 1 _ _ _ || rat_on_path s 0 _ _ _); reflexivity.
Qed.

Lemma moves_dir_target s player p x y dx dy m :
  moves_dir s player p (x, y) (dx, dy) = Ok (Some m) →
  m.1 = (x, y) ∧
  (m.2 = (x + dx, y + dy) ∨
   m.2 = (x + (leap (dx, dy)).1, y + (leap (dx, dy)).2)).
Proof.
  unfold moves_dir. intros H.
  destruct (((0 <=? x + dx) && (x + dx <? MX)) &&
            ((0 <=? y + dy) && (y + dy <? MY))); [|done].
  inv_bind H as den Hden.
  destruct (pos_eqb den (x + dx, y + dy)); [done|].
  inv_bind H as tgt Htgt. destruct tgt as [[tx ty]|]; [|done].
  inv_bind H as c Hc.
  assert (Hm : m = ((x, y), (tx, ty))).
  { destruct c as [[pl2 pc2]|]; [|by injection H].
    destruct (pl2 =? player); [done|].
    destruct (negb _); [done|]. by injection H. }
  subst m. cbn [fst snd]. split; [done|].
  unfold moves_target in Htgt.
  destruct (pos_in (x + dx, y + dy) ponds); [|left; injection Htgt as <- <-; done].
  destruct (negb ((p =? rat) || (p =? tiger) || (p =? lion))); [done|].
  destruct ((p =? tiger) || (p =? lion)); [|left; injection Htgt as <- <-; done].
  inv_bind Htgt as b Hb. destruct b; [done|].
  right. unfold leap. cbn [fst snd]. injection Htgt as <- <-. done.
Qed.

(** C6 (as stated) fails: the leap of player 0's tiger from (0, 3) to
    (3, 3) is rejected although no rat of player 1 is in the river; the rat
    on its path is player 0's own. *)
Lemma leap_blocked_by_own_rat_cex :
  wfb own_rat_in_river = true ∧
  loc (pieces own_rat_in_river) 0 tiger = Some (0, 3) ∧
  pos_in (0 + 1, 3 + 0) ponds = true ∧
  moves_dir own_rat_in_river 0 tiger (0, 3) (1, 0) = Ok None ∧
  moves own_rat_in_river 0
  = Ok [((0, 3), (0, 4)); ((0, 3), (0, 2)); ((1, 3), (1, 4)); ((1, 3), (2, 3));
        ((1, 3), (1, 2))] ∧
  rat_on_path own_rat_in_river 1 (0, 3) 3 0 = false ∧
  has_rank own_rat_in_river 1 rat = false.
Proof. by vm_compute. Qed.

(** C6 (amended). For a tiger or lion of [player] whose single step enters
    the river, the leap (3 cells sideways, 4 cells up or down) is left out
    of the list [moves] returns if and only if a rat of either player sits
    on a river cell of the leap's path (same x for a vertical leap; same y
    and at most 2 away in x from both ends for a horizontal one), or the
    landing cell holds a piece of [player], or it holds an opposing piece
    that [can_beat] does not let the leaper take. *)
Theorem leap_rejected_iff s player p x y dx dy ms :
  wf s → player = 0 ∨ player = 1 → p = tiger ∨ p = lion →
  loc (pieces s) player p = Some (x, y) → (dx, dy) ∈ dirs →
  pos_in (x + dx, y + dy) ponds = true →
  moves s player = Ok ms →
  ((x, y), (x + (leap (dx, dy)).1, y + (leap (dx, dy)).2)) ∉ ms ↔
    rat_on_path s 0 (x, y) (leap (dx, dy)).1 (leap (dx, dy)).2 = true ∨
    rat_on_path s 1 (x, y) (leap (dx, dy)).1 (leap (dx, dy)).2 = true ∨
    ∃ pl2 pc2,
      board_get (board s) (x + (leap (dx, dy)).1) (y + (leap (dx, dy)).2)
      = Ok (Some (pl2, pc2)) ∧
      (pl2 = player ∨
       can_beat p pc2 (x, y)
         (x + (leap (dx, dy)).1, y + (leap (dx, dy)).2) = false).
Proof.
  intros Hwf Hpl Hp Hloc Hd Hpond Hms.
  destruct (moves_spec s player Hwf Hpl) as (ms' & Hms' & Hiff).
  rewrite Hms in Hms'. injection Hms' as <-.
  pose proof (moves_dir_leap s player p x y dx dy Hwf Hpl Hp Hpond) as Heq.
  set (lx := (leap (dx, dy)).1) in *. set (ly := (leap (dx, dy)).2) in *.
  assert (Hmem : ((x, y), (x + lx, y + ly)) ∈ ms ↔
                 moves_dir s player p (x, y) (dx, dy)
                 = Ok (Some ((x, y), (x + lx, y + ly)))).
  { rewrite Hiff. cbn [fst snd]. split.
    - intros (p' & [dx' dy'] & Hloc' & Hd' & Hdir).
      destruct (wf_loc_inj s _ _ _ _ _ Hwf Hloc Hloc') as [_ <-].
      destruct (moves_dir_target _ _ _ _ _ _ _ _ Hdir) as [_ Ht].
      cbn [fst snd] in Ht. unfold lx, ly in Ht.
      rewrite (leap_dirs dx dy Hd), (leap_dirs dx' dy' Hd') in Ht.
      cbn [fst snd] in Ht.
      apply dirs_cases in Hd, Hd'.
      assert (dx' = dx ∧ dy' = dy) as [-> ->]; [|done].
      destruct Hd as [[= -> ->]|[[= -> ->]|[[= -> ->]|[= -> ->]]]];
        destruct Hd' as [[= -> ->]|[[= -> ->]|[[= -> ->]|[= -> ->]]]];
        destruct Ht as [Ht|Ht]; apply pair_eq_dec_iff in Ht as [? ?]; lia.
    - intros Hdir. exists p, (dx, dy). done. }
  rewrite Hmem, Heq. clear Hmem Heq.
  assert (Hland : pos_in (x, y) ponds = false).
  { destruct (pos_in (x, y) ponds) eqn:E; [|done].
    pose proof (wf_swim s Hwf _ _ _ Hloc E) as ->.
    by destruct Hp. }
  destruct (wf_loc s Hwf _ _ _ Hloc) as [Hin1 _].
  destruct (leap_lands x y dx dy Hin1 Hd Hland Hpond) as (Hin2 & _ & _).
  change (if negb (dx =? 0) then dx * 3 else dx) with lx in Hin2.
  change (if negb (dy =? 0) then dy * 4 else dy) with ly in Hin2.
  destruct (board_get_ok (board s) _ _ (wf_shape s Hwf) Hin2) as [c Hc].
  rewrite Hc. mred.
  destruct (rat_on_path s 1 (x, y) lx ly) eqn:R1; cbn [orb].
  { split; [intros _; right; by left|done]. }
  destruct (rat_on_path s 0 (x, y) lx ly) eqn:R0; cbn [orb].
  { split; [intros _; by left|done]. }
  destruct c as [[pl2 pc2]|].
  - destruct (Z.eqb_spec pl2 player) as [->|Hne].
    { split; [|done]. intros _. right. right. eauto. }
    destruct (can_beat p pc2 (x, y) (x + lx, y + ly)) eqn:Hcb; cbn [negb].
    + split; [done|]. intros [?|[?|(q & r & [= -> ->] & [?|?])]]; congruence.
    + split; [|done]. intros _. right. right. eauto.
  - split; [done|]. intros [?|[?|(q & r & [=] & _)]]; congruence.
Qed.

Lemma leap_rejected_iff_witness :
  ((0, 3), (0 + (leap (1, 0)).1, 3 + (leap (1, 0)).2))
    ∉ [((0, 3), (0, 4)); ((0, 3), (0, 2)); ((1, 3), (1, 4));
       ((1, 3), (2, 3)); ((1, 3), (1, 2))] ↔
    rat_on_path own_rat_in_river 0 (0, 3) (leap (1, 0)).1 (leap (1, 0)).2 = true ∨
    rat_on_path own_rat_in_river 1 (0, 3) (leap (1, 0)).1 (leap (1, 0)).2 = true ∨
    ∃ pl2 pc2,
      board_get (board own_rat_in_river)
        (0 + (leap (1, 0)).1) (3 + (leap (1, 0)).2)
      = Ok (Some (pl2, pc2)) ∧
      (pl2 = 0 ∨
       can_beat tiger pc2 (0, 3)
         (0 + (leap (1, 0)).1, 3 + (leap (1, 0)).2) = false).
Proof.
  apply (leap_rejected_iff own_rat_in_river 0 tiger 0 3 1 0).
  - apply wfb_wf. by vm_compute.
  - by left.
  - by left.
  - reflexivity.
  - apply dirs_cases. tauto.
  - reflexivity.
  - by vm_compute.
Defined.

(** ** [update]: which error, which result *)

(** [int] at the edges of what it accepts: the separator U+001C is not
    dropped, the no-break space is; digits of other scripts count; 4300
    digits are read and 4301 are not. *)
Example py_int_edges :
  py_int [0x1C; 53] = Raise ValueError ∧
  py_int [0xA0; 53; 0x3000] = Ok 5 ∧
  py_int [45; 0x665; 95; 0x37] = Ok (-57) ∧
  py_int (str_lit " +1_0 ") = Ok 10 ∧
  py_int (str_lit "1__0") = Raise ValueError ∧
  py_int (replicate 4300 48) = Ok 0 ∧
  py_int (replicate 4301 48) = Raise ValueError.
Proof. repeat split; by vm_compute. Qed.

Lemma py_int_error m e : py_int m = Raise e → e = ValueError.
Proof.
  unfold py_int.
  destruct (match strip m with
            | [] => _ | c :: l' => _ end) as [sign l].
  destruct (int_digits 0 0 false l) as [[n digits]|]; [|by intros [= <-]].
  destruct (MAX_STR_DIGITS <? digits); [by intros [= <-]|done].
Qed.

Lemma py_ints_error tokens e : py_ints tokens = Raise e → e = ValueError.
Proof.
  induction tokens as [|m rest IH]; [done|]. cbn [py_ints].
  destruct (py_int m) as [z|e'] eqn:E; mred.
  - destruct (py_ints rest) as [zs|e'']; mred; [done|].
    intros [= <-]. by apply IH.
  - intros [= <-]. by eapply py_int_error.
Qed.

Lemma moves_dir_set_curplayer s c player p pos1 d :
  moves_dir (set_curplayer s c) player p pos1 d = moves_dir s player p pos1 d.
Proof. destruct pos1 as [x y], d as [dx dy]. reflexivity. Qed.

Lemma moves_dirs_set_curplayer s c player p pos1 ds :
  moves_dirs (set_curplayer s c) player p pos1 ds = moves_dirs s player p pos1 ds.
Proof.
  induction ds as [|d ds IH]; [done|].
  cbn [moves_dirs]. by rewrite IH, moves_dir_set_curplayer.
Qed.

Lemma moves_set_curplayer s c player :
  moves (set_curplayer s c) player = moves s player.
Proof.
  unfold moves. cbn [pieces set_curplayer].
  destruct (dict_getitem (pieces s) player) as [items|]; mred; [|done].
  induction items as [|[p pos1] items IH]; [done|].
  cbn [moves_items]. by rewrite IH, moves_dirs_set_curplayer.
Qed.

Lemma update_decode_eq tuple ms :
  length tuple = 4%nat →
  update_decode tuple ms =
    if is_wrong_move tuple ms then Raise WrongMove
    else match ms, tuple with
         | _ :: _, [a; b; c; d] => Ok (Some ((a, b), (c, d)))
         | _, _ => Ok None
         end.
Proof.
  intros Hlen.
  destruct tuple as [|a [|b [|c [|d [|? ?]]]]]; try done.
  unfold update_decode, is_wrong_move. destruct ms as [|m0 ms].
  - by destruct (negb _).
  - change (py_index [a; b; c; d] 0) with (Ok a).
    change (py_index [a; b; c; d] 1) with (Ok b).
    change (py_index [a; b; c; d] 2) with (Ok c).
    change (py_index [a; b; c; d] 3) with (Ok d). mred.
    by destruct (negb _).
Qed.

Lemma victory_total s player mes :
  wf s → player = 0 ∨ player = 1 →
  ∃ v s', victory s player mes = Ok (v, s') ∧
          (v = true → ∃ w, (w = 0 ∨ w = 1) ∧ winner s' = Some w).
Proof.
  intros Hwf Hpl.
  assert (Hop : 1 - player = 0 ∨ 1 - player = 1) by lia.
  destruct (proj1 (pieces_ok_player _ _ (wf_pieces s Hwf)) Hop) as [d Hd].
  unfold victory, dict_getitem. rewrite Hd. mred.
  destruct (Z.of_nat (length d) =? 0).
  { eexists _, _. split; [done|]. intros _. exists player. done. }
  destruct (dens_player _ Hop) as ([x y] & -> & Hden). mred.
  assert (Hin : in_board (x, y)).
  { destruct (1 - player =? 0); injection Hden as -> ->;
      split; unfold MX, MY; cbn [fst snd]; lia. }
  destruct (board_get_ok _ _ _ (wf_shape s Hwf) Hin) as [c ->]. mred.
  destruct (bool_decide (is_Some c)).
  { eexists _, _. split; [done|]. intros _. exists player. done. }
  destruct (peace_counter s >=? MAXIMAL_PASSIVE).
  - destruct (pieces_comparison_spec s (wf_pieces s Hwf)) as (r & -> & Hw & Hr).
    mred. destruct r as [w|].
    + eexists _, _. split; [done|]. intros _. exists w. split; [|done].
      simpl in Hw. destruct Hw as [(i & _ & Hw & _)|[Hw _]]; [done|by left].
    + eexists _, _. split; [done|]. intros _. exists 0. split; [by left|done].
  - eexists _, _. split; [done|]. done.
Qed.

Lemma is_wrong_move_length tuple ms :
  length tuple ≠ 4%nat → is_wrong_move tuple ms = true.
Proof. by destruct tuple as [|a [|b [|c [|d [|? ?]]]]]. Qed.

(** The end of [update]: the victory test and the returned code. *)
Lemma update_finish s1 player mes :
  wf s1 → player = 0 ∨ player = 1 →
  ∃ v s' r,
    victory s1 player mes = Ok (v, s') ∧
    (victory s1 player mes ≫= λ '(v, s),
       if (v : bool) then
         match winner s with
         | None => Raise AssertionError
         | Some w => Ok (s, Some (2 * w - 1))
         end
       else Ok (s, None)) = Ok (s', r) ∧
    (v = false ∧ r = None ∨
     v = true ∧ winner s' = Some 1 ∧ r = Some 1 ∨
     v = true ∧ winner s' = Some 0 ∧ r = Some (-1)).
Proof.
  intros Hwf Hpl.
  destruct (victory_total s1 player mes Hwf Hpl) as (v & s' & Hv & Hw).
  rewrite Hv. mred. destruct v.
  - destruct (Hw eq_refl) as (w & Hw01 & Hws). rewrite Hws.
    eexists true, s', _. split; [done|]. split; [done|].
    destruct Hw01 as [-> | ->]; [right; right|right; left]; done.
  - eexists false, s', _. split; [done|]. split; [done|]. by left.
Qed.

(** C8 (amended). On a well-formed state, for player 0 or 1 and any move
    string: if [int] rejects some token of [move_string.split(' ')] (it is
    not an integer literal, or has more than 4300 digits), [update] raises
    [ValueError] (not the invalid-move error);
    otherwise it raises the invalid-move error exactly when the tokens are
    not 4 integers, or no legal move exists and they are not
    [-1 -1 -1 -1], or legal moves exist and the move they spell is not
    among them; otherwise it applies the move (a pass when there is no
    legal move), runs [victory], and returns [None] if the game goes on,
    [+1] if the recorded winner is player 1 and [-1] if it is player 0. *)
Theorem update_outcome s player move_string mes :
  wf s → player = 0 ∨ player = 1 →
  ∃ ms, moves s player = Ok ms ∧
    match py_ints (split_space move_string) with
    | Raise e =>
        e = ValueError ∧ update s player move_string mes = Raise ValueError
    | Ok tuple =>
        if is_wrong_move tuple ms
        then update s player move_string mes = Raise WrongMove
        else ∃ m s1 v s' r,
          (m = None ∧ ms = [] ∧ tuple = [-1; -1; -1; -1] ∨
           ∃ a b c d, m = Some ((a, b), (c, d)) ∧ tuple = [a; b; c; d] ∧
                      ((a, b), (c, d)) ∈ ms) ∧
          do_move (set_curplayer s player) m = Ok s1 ∧
          victory s1 player mes = Ok (v, s') ∧
          update s player move_string mes = Ok (s', r) ∧
          (v = false ∧ r = None ∨
           v = true ∧ winner s' = Some 1 ∧ r = Some 1 ∨
           v = true ∧ winner s' = Some 0 ∧ r = Some (-1))
    end.
Proof.
  intros Hwf Hpl.
  destruct (moves_spec s player Hwf Hpl) as (ms & Hms & _).
  exists ms. split; [done|]. unfold update.
  destruct (py_ints (split_space move_string)) as [tuple|e] eqn:E; mred.
  2:{ by rewrite (py_ints_error _ _ E). }
  destruct (Z.eqb_spec (Z.of_nat (length tuple)) 4) as [Hlen|Hlen]; cbn [negb].
  2:{ rewrite is_wrong_move_length by lia. done. }
  rewrite moves_set_curplayer, Hms. mred.
  rewrite update_decode_eq by lia.
  destruct (is_wrong_move tuple ms) eqn:W; [done|].
  destruct tuple as [|a [|b [|c [|d [|? ?]]]]]; try done.
  pose proof (wf_set_curplayer s player Hwf) as Hwf0.
  cbn [is_wrong_move] in W. destruct ms as [|m0 ms'].
  - apply negb_false_iff, bool_decide_eq_true_1 in W.
    set (s1 := set_curplayer (set_curplayer s player)
                 (1 - curplayer (set_curplayer s player))).
    assert (Hwf1 : wf s1) by (by apply wf_set_curplayer).
    destruct (update_finish s1 player mes Hwf1 Hpl) as (v & s' & r & Hv & Hr & Hcode).
    exists None, s1, v, s', r. split; [left; done|].
    split; [done|]. split; [done|]. split; [|done].
    mred. exact Hr.
  - apply negb_false_iff, bool_decide_eq_true_1 in W.
    assert (Hlegal : legal (set_curplayer s player) player ((a, b), (c, d))).
    { exists (m0 :: ms'). by rewrite moves_set_curplayer. }
    pose proof (legal_movable _ _ _ Hwf0 Hpl Hlegal) as Hmv.
    destruct (affect_after _ _ Hwf0 Hmv) as (s1' & u & Ha & Ham).
    pose proof (after_move_wf _ _ _ _ Hwf0 Hmv Ham) as Hwf1'.
    set (s1 := set_curplayer s1' (1 - curplayer (set_curplayer s player))).
    assert (Hdo : do_move (set_curplayer s player) (Some ((a, b), (c, d))) = Ok s1).
    { rewrite do_move_affect, Ha. done. }
    assert (Hwf1 : wf s1) by (by apply wf_set_curplayer).
    destruct (update_finish s1 player mes Hwf1 Hpl) as (v & s' & r & Hv & Hr & Hcode).
    exists (Some ((a, b), (c, d))), s1, v, s', r.
    split; [right; by exists a, b, c, d|].
    split; [done|]. split; [done|]. split; [|done].
    mred. rewrite Hdo. mred. exact Hr.
Qed.

Lemma update_outcome_witness :
  ∃ ms, moves new_Jungle 0 = Ok ms ∧
    match py_ints (split_space (str_lit "0 6 0 5")) with
    | Raise e =>
        e = ValueError ∧ update new_Jungle 0 (str_lit "0 6 0 5") "n" = Raise ValueError
    | Ok tuple =>
        if is_wrong_move tuple ms
        then update new_Jungle 0 (str_lit "0 6 0 5") "n" = Raise WrongMove
        else ∃ m s1 v s' r,
          (m = None ∧ ms = [] ∧ tuple = [-1; -1; -1; -1] ∨
           ∃ a b c d, m = Some ((a, b), (c, d)) ∧ tuple = [a; b; c; d] ∧
                      ((a, b), (c, d)) ∈ ms) ∧
          do_move (set_curplayer new_Jungle 0) m = Ok s1 ∧
          victory s1 0 "n" = Ok (v, s') ∧
          update new_Jungle 0 (str_lit "0 6 0 5") "n" = Ok (s', r) ∧
          (v = false ∧ r = None ∨
           v = true ∧ winner s' = Some 1 ∧ r = Some 1 ∨
           v = true ∧ winner s' = Some 0 ∧ r = Some (-1))
    end.
Proof.
  apply (update_outcome new_Jungle 0 (str_lit "0 6 0 5") "n").
  - apply wfb_wf. by vm_compute.
  - by left.
Defined.

(** C8 (as stated) fails: a move string with a token that is not an
    integer does not parse into 4 integers, and [update] raises
    [ValueError], not the invalid-move error. *)
Lemma update_not_integers_cex :
  py_ints (split_space (str_lit "0 0 0 x")) = Raise ValueError ∧
  update new_Jungle 1 (str_lit "0 0 0 x") "gl1" = Raise ValueError ∧
  update new_Jungle 1 (str_lit "0 0 0 x") "gl1" ≠ Raise WrongMove.
Proof. split; [by vm_compute|]. split; [by vm_compute|]. by vm_compute. Qed.

(** * Further properties of the rules engine *)

(** ** Every legal move is a sound move *)

Lemma leap_row x y dx dy :
  in_board (x, y) → (dx, dy) ∈ dirs →
  pos_in (x, y) ponds = false → pos_in (x + dx, y + dy) ponds = true →
  2 ≤ y + (leap (dx, dy)).2 ≤ 6.
Proof.
  intros Hin Hd. apply in_board_cases in Hin as [Hx Hy].
  apply dirs_cases in Hd.
  destruct Hd as [[= -> ->]|[[= -> ->]|[[= -> ->]|[= -> ->]]]];
    repeat (destruct Hx as [->|Hx]); try subst x;
    repeat (destruct Hy as [->|Hy]); try subst y;
    intros H1 H2; vm_compute in H1; vm_compute in H2; try discriminate;
    vm_compute; split; discriminate.
Qed.

Lemma pos_eqb_eq (a b : Z * Z) : pos_eqb a b = true ↔ a = b.
Proof.
  destruct a as [a1 a2], b as [b1 b2]. unfold pos_eqb. cbn [fst snd].
  rewrite andb_true_iff, !Z.eqb_eq. split; [by intros [-> ->]|by intros [= -> ->]].
Qed.

(** What [moves] tested before it kept a move: the step does not enter the
    mover's den, and the landing cell is empty or holds an opposing piece
    that [can_beat] lets the mover take. *)
Lemma moves_dir_landing s player p x y dx dy m :
  moves_dir s player p (x, y) (dx, dy) = Ok (Some m) →
  (∀ den, py_index dens player = Ok den → den ≠ (x + dx, y + dy)) ∧
  (board_get (board s) m.2.1 m.2.2 = Ok None ∨
   ∃ pl2 pc2, board_get (board s) m.2.1 m.2.2 = Ok (Some (pl2, pc2)) ∧
              pl2 ≠ player ∧ can_beat p pc2 (x, y) m.2 = true).
Proof.
  unfold moves_dir. intros H.
  destruct (((0 <=? x + dx) && (x + dx <? MX)) &&
            ((0 <=? y + dy) && (y + dy <? MY))); [|done].
  inv_bind H as den Hden.
  destruct (pos_eqb den (x + dx, y + dy)) eqn:Eden; [done|].
  inv_bind H as tgt Htgt. destruct tgt as [[tx ty]|]; [|done].
  inv_bind H as c Hc. split.
  - intros den' Hden'. rewrite Hden in Hden'. injection Hden' as <-.
    intros E. apply pos_eqb_eq in E. congruence.
  - destruct c as [[pl2 pc2]|].
    + destruct (Z.eqb_spec pl2 player) as [|Hne]; [done|].
      destruct (can_beat p pc2 (x, y) (tx, ty)) eqn:Hcb; [|done].
      injection H as <-. cbn [fst snd]. right. eauto.
    + injection H as <-. cbn [fst snd]. by left.
Qed.

Lemma moves_landing_inv s player p pos1 (t : Z * Z) m :
  (board_get (board s) t.1 t.2 ≫= λ c,
     match c with
     | Some (pl2, piece2) =>
         if pl2 =? player then Ok None
         else if negb (can_beat p piece2 pos1 t) then Ok None
         else Ok (Some (pos1, t))
     | None => Ok (Some (pos1, t))
     end) = Ok (Some m) → m = (pos1, t).
Proof.
  intros H. inv_bind H as c Hc. destruct c as [[pl2 pc2]|].
  - destruct (pl2 =? player); [done|]. destruct (negb _); [done|].
    by injection H.
  - by injection H.
Qed.

Lemma moves_dir_den s player p x y dx dy m :
  wf s → player = 0 ∨ player = 1 →
  loc (pieces s) player p = Some (x, y) → (dx, dy) ∈ dirs →
  moves_dir s player p (x, y) (dx, dy) = Ok (Some m) →
  py_index dens player ≠ Ok m.2.
Proof.
  intros Hwf Hpl Hloc Hd. unfold moves_dir.
  destruct (((0 <=? x + dx) && (x + dx <? MX)) &&
            ((0 <=? y + dy) && (y + dy <? MY))); [|done].
  destruct (dens_player player Hpl) as (den & -> & Hden). mred.
  destruct (pos_eqb den (x + dx, y + dy)) eqn:Eden; [done|].
  assert (Hstep : den ≠ (x + dx, y + dy)).
  { intros E. apply pos_eqb_eq in E. congruence. }
  unfold moves_target.
  destruct (pos_in (x + dx, y + dy) ponds) eqn:Hpond.
  - destruct (negb ((p =? rat) || (p =? tiger) || (p =? lion))); [done|].
    destruct ((p =? tiger) || (p =? lion)) eqn:Htl.
    + rewrite rat_is_blocking_eq by apply Hwf. mred.
      destruct (rat_on_path s 1 _ _ _ || rat_on_path s 0 _ _ _); [done|].
      mred. intros H.
      apply (moves_landing_inv s player p (x, y) (_, _)) in H. subst m.
      cbn [fst snd].
      assert (Hland : pos_in (x, y) ponds = false).
      { destruct (pos_in (x, y) ponds) eqn:E; [|done].
        pose proof (wf_swim s Hwf _ _ _ Hloc E) as ->. discriminate. }
      destruct (wf_loc s Hwf _ _ _ Hloc) as [Hin1 _].
      pose proof (leap_row x y dx dy Hin1 Hd Hland Hpond) as Hrow.
      unfold leap in Hrow. cbn [fst snd] in Hrow.
      intros [= E]. rewrite Hden in E.
      destruct (player =? 0); injection E as E1 E2; lia.
    + mred. intros H.
      apply (moves_landing_inv s player p (x, y) (_, _)) in H. subst m.
      cbn [fst snd]. congruence.
  - mred. intros H.
    apply (moves_landing_inv s player p (x, y) (_, _)) in H. subst m.
    cbn [fst snd]. congruence.
Qed.

Lemma moves_facts s player :
  wf s → player = 0 ∨ player = 1 →
  ∃ ms, moves s player = Ok ms ∧
    ∀ m, m ∈ ms →
      ∃ p, loc (pieces s) player p = Some m.1 ∧ in_board m.2 ∧ m.1 ≠ m.2 ∧
           py_index dens player ≠ Ok m.2 ∧
           (board_get (board s) m.2.1 m.2.2 = Ok None ∨
            ∃ pl2 pc2,
              board_get (board s) m.2.1 m.2.2 = Ok (Some (pl2, pc2)) ∧
              pl2 ≠ player ∧ can_beat p pc2 m.1 m.2 = true) ∧
           (pos_in m.2 ponds = true → p = rat).
Proof.
  intros Hwf Hpl.
  destruct (moves_spec s player Hwf Hpl) as (ms & Hms & Hiff).
  exists ms. split; [done|]. intros [[x y] m2] Hm.
  apply Hiff in Hm as (p & [dx dy] & Hloc & Hd & Hdir). cbn [fst snd] in *.
  exists p. split; [done|].
  destruct (moves_dir_spec s player p x y dx dy Hwf Hpl Hloc Hd) as (r & Hr & Hprop).
  rewrite Hdir in Hr. injection Hr as <-.
  destruct (Hprop _ eq_refl) as (_ & Hin & Hne & Hsw). cbn [fst snd] in *.
  destruct (moves_dir_landing _ _ _ _ _ _ _ _ Hdir) as [_ Hland].
  cbn [fst snd] in Hland.
  pose proof (moves_dir_den s player p x y dx dy _ Hwf Hpl Hloc Hd Hdir) as Hden.
  done.
Qed.

(** X. On a well-formed state [moves] raises nothing, and every move it
    returns starts on a piece of the player, ends on another cell of the
    board that is not the player's own den, lands on an empty cell or on an
    opposing piece that [can_beat] allows it to capture, and enters the
    river only if the piece is a rat. *)
Theorem moves_sound s player :
  wf s → player = 0 ∨ player = 1 →
  ∃ ms, moves s player = Ok ms ∧
    ∀ m, m ∈ ms →
      ∃ p, loc (pieces s) player p = Some m.1 ∧ in_board m.2 ∧ m.1 ≠ m.2 ∧
           py_index dens player ≠ Ok m.2 ∧
           (board_get (board s) m.2.1 m.2.2 = Ok None ∨
            ∃ pl2 pc2,
              board_get (board s) m.2.1 m.2.2 = Ok (Some (pl2, pc2)) ∧
              pl2 ≠ player ∧ can_beat p pc2 m.1 m.2 = true) ∧
           (pos_in m.2 ponds = true → p = rat).
Proof. intros Hwf Hpl. by apply moves_facts. Qed.

Lemma moves_sound_witness :
  ∃ ms, moves new_Jungle 0 = Ok ms ∧
    ∀ m, m ∈ ms →
      ∃ p, loc (pieces new_Jungle) 0 p = Some m.1 ∧ in_board m.2 ∧ m.1 ≠ m.2 ∧
           py_index dens 0 ≠ Ok m.2 ∧
           (board_get (board new_Jungle) m.2.1 m.2.2 = Ok None ∨
            ∃ pl2 pc2,
              board_get (board new_Jungle) m.2.1 m.2.2 = Ok (Some (pl2, pc2)) ∧
              pl2 ≠ 0 ∧ can_beat p pc2 m.1 m.2 = true) ∧
           (pos_in m.2 ponds = true → p = rat).
Proof.
  apply (moves_sound new_Jungle 0); [apply wfb_wf; by vm_compute|by left].
Defined.

(** ** The invariant of reachable states *)

(** X. Every reachable state keeps the board 9 rows by 7 cells and the two
    views consistent; every indexed piece has a rank 0..7 and stands on a
    cell of the board; and only a rat ever stands in the river. *)
Theorem reachable_invariant s :
  reachable s →
  board_shape (board s) ∧ consistent s ∧
  ∀ pl pc p, loc (pieces s) pl pc = Some p →
    (pl = 0 ∨ pl = 1) ∧ 0 ≤ pc ≤ 7 ∧ in_board p ∧
    (pos_in p ponds = true → pc = rat).
Proof.
  intros Hreach. pose proof (reachable_wf s Hreach) as Hwf.
  split; [apply Hwf|]. split; [by apply wf_consistent|].
  intros pl pc p Hl. split; [by eapply loc_player, Hl; apply Hwf|].
  split; [by eapply wf_rank|]. split; [by eapply wf_loc|].
  by eapply wf_swim.
Qed.

Lemma reachable_invariant_witness :
  board_shape (board new_Jungle) ∧ consistent new_Jungle ∧
  ∀ pl pc p, loc (pieces new_Jungle) pl pc = Some p →
    (pl = 0 ∨ pl = 1) ∧ 0 ≤ pc ≤ 7 ∧ in_board p ∧
    (pos_in p ponds = true → pc = rat).
Proof. apply (reachable_invariant new_Jungle). apply reach_new. Defined.

(** ** The immediate wins *)

(** X. [victory(player)] reports a win of [player] as soon as the opponent
    has no piece left or any piece at all stands on the opponent's den: it
    does not look at who owns the piece on the den, nor at the passivity
    counter. The state it leaves has [winner = player] and is otherwise the
    state it was given. *)
Theorem victory_immediate s player mes :
  wf s → player = 0 ∨ player = 1 →
  (dict_get (pieces s) (1 - player) = Some [] ∨
   ∃ x y c, py_index dens (1 - player) = Ok (x, y) ∧
            board_get (board s) x y = Ok (Some c)) →
  ∃ s', victory s player mes = Ok (true, s') ∧
        s' = set_winner s (Some player) ∧ winner s' = Some player ∧
        board s' = board s ∧ pieces s' = pieces s ∧
        peace_counter s' = peace_counter s ∧ curplayer s' = curplayer s.
Proof.
  intros Hwf Hpl Hcond.
  assert (Hop : 1 - player = 0 ∨ 1 - player = 1) by lia.
  destruct (proj1 (pieces_ok_player _ _ (wf_pieces s Hwf)) Hop) as [d Hd].
  exists (set_winner s (Some player)). split; [|done].
  unfold victory, dict_getitem. rewrite Hd. mred.
  destruct (Z.of_nat (length d) =? 0) eqn:Hlen; [done|].
  destruct Hcond as [He|(x & y & c & Hden & Hc)].
  - rewrite Hd in He. injection He as ->. done.
  - rewrite Hden. mred. rewrite Hc. mred.
    by rewrite bool_decide_eq_true_2 by eauto.
Qed.

Lemma victory_immediate_witness :
  ∃ s', victory den_taken 0 "n" = Ok (true, s') ∧
        s' = set_winner den_taken (Some 0) ∧ winner s' = Some 0 ∧
        board s' = board den_taken ∧ pieces s' = pieces den_taken ∧
        peace_counter s' = peace_counter den_taken ∧
        curplayer s' = curplayer den_taken.
Proof.
  apply (victory_immediate den_taken 0 "n").
  - apply wfb_wf. by vm_compute.
  - by left.
  - right. exists 3, 0, (0, 0). split; reflexivity.
Defined.

(** X. When the opponent of [player] still has a piece, the opponent's den
    is empty and fewer than 30 half-moves have passed without a capture,
    [victory(player)] answers no and leaves the state, [winner] included,
    untouched. It does not test whether the opponent has already won. *)
Theorem victory_not_over s player mes :
  wf s → player = 0 ∨ player = 1 →
  (∃ pc p, loc (pieces s) (1 - player) pc = Some p) →
  (∃ x y, py_index dens (1 - player) = Ok (x, y) ∧
          board_get (board s) x y = Ok None) →
  peace_counter s < MAXIMAL_PASSIVE →
  victory s player mes = Ok (false, s).
Proof.
  intros Hwf Hpl (pc & p & Hloc) (x & y & Hden & Hcell) Hpc.
  apply loc_Some in Hloc as (d & Hd & Hp).
  unfold victory, dict_getitem. rewrite Hd. mred.
  destruct d as [|e d]; [done|].
  change (Z.of_nat (length (e :: d)) =? 0) with false. cbn iota.
  rewrite Hden. mred. rewrite Hcell. mred.
  rewrite bool_decide_eq_false_2 by (intros [? [=]]).
  destruct (Z.geb_spec (peace_counter s) MAXIMAL_PASSIVE) as [Hge|_]; [lia|].
  done.
Qed.

Lemma victory_not_over_witness :
  victory new_Jungle 1 "n" = Ok (false, new_Jungle).
Proof.
  apply (victory_not_over new_Jungle 1 "n").
  - apply wfb_wf. by vm_compute.
  - by right.
  - exists 7, (0, 6). reflexivity.
  - exists 3, 8. split; reflexivity.
  - reflexivity.
Defined.

(** ** The value of a finished game in the search *)

(** X. At a node where [victory] says the game is over, both search
    methods return minus infinity with coordinates 0, whoever the recorded
    winner is, and for every alpha, beta and depth. *)
Theorem search_terminal_value fuel s alpha beta depth start :
  wf s →
  (∀ s1, victory s 0 "n" = Ok (true, s1) →
     max_alpha_beta (S fuel) s alpha beta depth start
     = Ok (s1, Some (NegInf, Some 0, Some 0, Some 0, Some 0))) ∧
  (∀ s1, victory s 1 "n" = Ok (true, s1) →
     min_alpha_beta (S fuel) s alpha beta depth start
     = Ok (s1, Some (NegInf, Some 0, Some 0, Some 0, Some 0))).
Proof.
  intros Hwf. split; intros s1 Hv.
  - destruct (moves_spec s 0 Hwf) as (ms & Hms & _); [by left|].
    by eapply max_alpha_beta_terminal.
  - destruct (moves_spec s 1 Hwf) as (ms & Hms & _); [by right|].
    by eapply min_alpha_beta_terminal.
Qed.

Lemma search_terminal_value_witness :
  max_alpha_beta 1 den_taken PosInf NegInf 7 false
  = Ok (set_winner den_taken (Some 0),
        Some (NegInf, Some 0, Some 0, Some 0, Some 0)).
Proof.
  apply (search_terminal_value 0 den_taken PosInf NegInf 7 false).
  - apply wfb_wf. by vm_compute.
  - by vm_compute.
Defined.

(** X. At a node within the depth cutoff where the game is not over and
    the side to move has no legal move, the search calls nothing and
    leaves the state as it is: player 0's search returns minus infinity,
    player 1's search plus infinity, both with [None] coordinates. The
    [else] branch that would pass is never taken, for [mov != [None]]
    holds of every list [moves] can return. *)
Theorem search_no_moves fuel s alpha beta depth start :
  depth ≤ MAX_DEPTH →
  (moves s 0 = Ok [] → victory s 0 "n" = Ok (false, s) →
     max_alpha_beta (S fuel) s alpha beta depth start
     = Ok (s, Some (NegInf, None, None, None, None))) ∧
  (moves s 1 = Ok [] → victory s 1 "n" = Ok (false, s) →
     min_alpha_beta (S fuel) s alpha beta depth start
     = Ok (s, Some (PosInf, None, None, None, None))) ∧
  ∀ mov, not_the_none_list mov = true.
Proof.
  intros Hd. split; [|split].
  - intros Hms Hv. by apply max_alpha_beta_no_moves.
  - intros Hms Hv. by apply min_alpha_beta_no_moves.
  - apply not_the_none_list_true.
Qed.

Lemma search_no_moves_witness :
  max_alpha_beta 1 stuck NegInf PosInf 0 true
  = Ok (stuck, Some (NegInf, None, None, None, None)).
Proof.
  apply (search_no_moves 0 stuck NegInf PosInf 0 true); by vm_compute.
Defined.

(** ** The list [random.choice] draws from *)

Lemma count_wins_bounds sym i js licz :
  licz ≤ count_wins sym i js licz ≤ licz + Z.of_nat (length js).
Proof.
  revert licz. induction js as [|j js IH]; intros licz; cbn [count_wins length].
  - lia.
  - destruct (sym i j); [specialize (IH (licz + 1))|specialize (IH licz)]; lia.
Qed.

Lemma score_bounds sym i : 0 ≤ score sym i ≤ 4.
Proof.
  unfold score. pose proof (count_wins_bounds sym i (seq 0 LICZ_ROZGR) 0) as H.
  rewrite length_seq in H. unfold LICZ_ROZGR in *. cbn [Z.of_nat Pos.of_succ_nat Pos.succ] in H. lia.
Qed.

Lemma loop_scores_spec sym mov :
  ∀ idx max_wygr max_move,
    ∃ kept,
      (loop_scores sym idx mov max_wygr max_move).2 = max_move ++ kept ∧
      (∀ m, m ∈ kept → m ∈ mov) ∧
      (∀ k m, mov !! k = Some m → max_wygr ≤ score sym (idx + k) →
              (∀ j, (j < k)%nat → score sym (idx + j) ≤ score sym (idx + k)) →
              m ∈ kept).
Proof.
  induction mov as [|i rest IH]; intros idx mw mm.
  - exists []. cbn [loop_scores snd]. rewrite app_nil_r. split; [done|].
    split; [done|]. intros k m Hk. by rewrite lookup_nil in Hk.
  - cbn [loop_scores]. fold (score sym idx).
    destruct (Z.leb_spec mw (score sym idx)) as [Hle|Hgt].
    + destruct (IH (S idx) (score sym idx) (mm ++ [i])) as (kept & -> & Hsub & Hbest).
      exists (i :: kept). split; [by rewrite <- app_assoc|]. split.
      * intros m Hm. apply elem_of_cons in Hm as [->|Hm]; apply elem_of_cons;
          [by left|right; auto].
      * intros [|k] m Hk Hmw Hprev.
        -- injection Hk as <-. apply elem_of_cons. by left.
        -- apply elem_of_cons. right. apply (Hbest k m Hk).
           ++ replace (S idx + k)%nat with (idx + S k)%nat by lia.
              specialize (Hprev 0%nat). rewrite Nat.add_0_r in Hprev.
              apply Hprev. lia.
           ++ intros j Hj.
              replace (S idx + k)%nat with (idx + S k)%nat by lia.
              replace (S idx + j)%nat with (idx + S j)%nat by lia.
              apply Hprev. lia.
    + destruct (IH (S idx) mw mm) as (kept & -> & Hsub & Hbest).
      exists kept. split; [done|]. split.
      * intros m Hm. apply elem_of_cons. right. auto.
      * intros [|k] m Hk Hmw Hprev.
        -- rewrite Nat.add_0_r in Hmw. lia.
        -- apply (Hbest k m Hk).
           ++ by replace (S idx + k)%nat with (idx + S k)%nat by lia.
           ++ intros j Hj.
              replace (S idx + k)%nat with (idx + S k)%nat by lia.
              replace (S idx + j)%nat with (idx + S j)%nat by lia.
              apply Hprev. lia.
Qed.

(** X. Whatever the rollouts give, the list [max_move] built by
    [Player.loop] holds only candidates, and it holds every candidate
    whose score is at least the score of each earlier candidate; so every
    candidate of maximal score is in it, and the first candidate always
    is. *)
Theorem loop_max_move_keeps_best sym mov :
  (∀ m, m ∈ loop_max_move sym mov → m ∈ mov) ∧
  (∀ k m, mov !! k = Some m →
          (∀ j, (j < k)%nat → score sym j ≤ score sym k) →
          m ∈ loop_max_move sym mov).
Proof.
  unfold loop_max_move.
  destruct (loop_scores_spec sym mov 0 (-1) []) as (kept & -> & Hsub & Hbest).
  rewrite app_nil_l. split; [done|].
  intros k m Hk Hprev. apply (Hbest k m Hk).
  - pose proof (score_bounds sym (0 + k)). lia.
  - intros j Hj. cbn [Nat.add]. by apply Hprev.
Qed.

(** X. [random.choice(max_move)] returns one of the candidates when there
    is at least one, and raises [IndexError] when [moves] returned no
    candidate: [Player.loop] has no pass for player 1. *)
Theorem loop_choice sym mov r :
  match mov with
  | [] => random_choice (loop_max_move sym mov) r = Raise IndexError
  | _ :: _ => ∃ m, random_choice (loop_max_move sym mov) r = Ok m ∧ m ∈ mov
  end.
Proof.
  destruct mov as [|m0 rest]; [done|].
  destruct (loop_max_move_keeps_best sym (m0 :: rest)) as [Hsub Hbest].
  assert (Hin : m0 ∈ loop_max_move sym (m0 :: rest)).
  { apply (Hbest 0%nat m0); [done|]. intros j Hj. lia. }
  unfold random_choice.
  destruct (loop_max_move sym (m0 :: rest)) as [|x l] eqn:E.
  { by apply elem_of_nil in Hin. }
  assert (Hlt : (r `mod` length (x :: l) < length (x :: l))%nat)
    by (apply Nat.mod_upper_bound; done).
  destruct (lookup_lt_is_Some_2 _ _ Hlt) as [m Hm]. rewrite Hm.
  exists m. split; [done|]. apply Hsub. by eapply list_elem_of_lookup_2.
Qed.

(** ** The search hands the position back *)

Lemma heur_loop_total ps ranks licz_1 licz_2 :
  pieces_ok ps →
  (∀ i, i ∈ ranks → ∃ v, dict_get PIECE_VALUES i = Some v) →
  ∃ r, heur_loop ps ranks licz_1 licz_2 = Ok r.
Proof.
  intros Hok.
  destruct (proj1 (pieces_ok_player _ 0 Hok)) as [d0 Hd0]; [by left|].
  destruct (proj1 (pieces_ok_player _ 1 Hok)) as [d1 Hd1]; [by right|].
  revert licz_1 licz_2. induction ranks as [|i ranks IH]; intros l1 l2 Hv.
  - by eexists.
  - destruct (Hv i) as [v Hvi]; [apply elem_of_cons; by left|].
    assert (Hrest : ∀ j, j ∈ ranks → ∃ v, dict_get PIECE_VALUES j = Some v).
    { intros j Hj. apply Hv. apply elem_of_cons. by right. }
    cbn [heur_loop]. unfold dict_getitem. rewrite Hd1. mred.
    destruct (dict_contains d1 i); rewrite ?Hvi; mred; rewrite Hd0; mred;
      destruct (dict_contains d0 i); rewrite ?Hvi; mred; by apply IH.
Qed.

Lemma heur_total s : wf s → ∃ h, heur s = Ok h.
Proof.
  intros Hwf. unfold heur.
  destruct (heur_loop_total (pieces s) ranks_down 0 0 (wf_pieces s Hwf))
    as [[l1 l2] ->].
  { intros i Hi. unfold ranks_down in Hi. rewrite !elem_of_cons, elem_of_nil in Hi.
    destruct Hi as [->|[->|[->|[->|[->|[->|[->|[->|[]]]]]]]]]; by eexists. }
  mred.
  destruct (moves_spec s 1 Hwf) as (m1 & -> & _); [by right|]. mred.
  destruct (moves_spec s 0 Hwf) as (m0 & -> & _); [by left|]. mred.
  by eexists.
Qed.

Lemma max_loop_ok rec depth its s0 :
  search_ok rec (depth + 1) → wf s0 → (∀ m, m ∈ its → movable s0 m) →
  ∀ s alpha beta value px py px_2 py_2,
    same_position s0 s → wf s →
    ∃ s' a, max_loop rec its s alpha beta depth value px py px_2 py_2
            = Ok (s', Some a) ∧
            same_position s0 s' ∧ wf s'.
Proof.
  intros Hrec Hwf0. induction its as [|[[a b] [c d]] rest IH]; intros Hmv.
  - intros s alpha beta value px py px_2 py_2 Hsp Hwf. by eexists _, _.
  - intros s alpha beta value px py px_2 py_2 Hsp Hwf. cbn [max_loop].
    assert (Hm : movable s ((a, b), (c, d))).
    { eapply same_position_movable; [exact Hsp|].
      apply Hmv. apply elem_of_cons. by left. }
    destruct (affect_after s _ Hwf Hm) as (s1 & u & -> & Ham). mred.
    pose proof (after_move_wf _ _ _ _ Hwf Hm Ham) as Hwf1.
    destruct (Hrec s1 alpha beta false Hwf1) as (s2 & ans & -> & Hsp12 & Hwf2).
    mred. destruct ans as [[[[m mi] mj] c1] c2].
    destruct (undo_after s _ s1 u s2 Hwf Hm Ham (wf_pieces _ Hwf2) Hsp12)
      as (s3 & Hu & Hsp3 & Hok3 & _).
    pose proof (same_position_wf _ _ Hwf Hsp3 Hok3) as Hwf3.
    pose proof (same_position_trans _ _ _ Hsp Hsp3) as Hsp03.
    assert (Hrest : ∀ m', m' ∈ rest → movable s0 m').
    { intros m' Hm'. apply Hmv. apply elem_of_cons. by right. }
    destruct (num_gtb m value); cbn iota beta zeta; rewrite Hu; mred.
    + destruct (num_geb m beta); [by eexists _, _|]. by apply IH.
    + destruct (num_geb value beta); [by eexists _, _|]. by apply IH.
Qed.

Lemma min_loop_ok rec depth its s0 :
  search_ok rec (depth + 1) → wf s0 → (∀ m, m ∈ its → movable s0 m) →
  ∀ s alpha beta minv qx qy qx1 qy1,
    same_position s0 s → wf s →
    ∃ s' a, min_loop rec its s alpha beta depth minv qx qy qx1 qy1
            = Ok (s', Some a) ∧
            same_position s0 s' ∧ wf s'.
Proof.
  intros Hrec Hwf0. induction its as [|[[a b] [c d]] rest IH]; intros Hmv.
  - intros s alpha beta minv qx qy qx1 qy1 Hsp Hwf. by eexists _, _.
  - intros s alpha beta minv qx qy qx1 qy1 Hsp Hwf. cbn [min_loop].
    assert (Hm : movable s ((a, b), (c, d))).
    { eapply same_position_movable; [exact Hsp|].
      apply Hmv. apply elem_of_cons. by left. }
    destruct (affect_after s _ Hwf Hm) as (s1 & u & -> & Ham). mred.
    pose proof (after_move_wf _ _ _ _ Hwf Hm Ham) as Hwf1.
    destruct (Hrec s1 alpha beta false Hwf1) as (s2 & ans & -> & Hsp12 & Hwf2).
    mred. destruct ans as [[[[m mi] mj] c1] c2].
    destruct (undo_after s _ s1 u s2 Hwf Hm Ham (wf_pieces _ Hwf2) Hsp12)
      as (s3 & Hu & Hsp3 & Hok3 & _).
    pose proof (same_position_wf _ _ Hwf Hsp3 Hok3) as Hwf3.
    pose proof (same_position_trans _ _ _ Hsp Hsp3) as Hsp03.
    assert (Hrest : ∀ m', m' ∈ rest → movable s0 m').
    { intros m' Hm'. apply Hmv. apply elem_of_cons. by right. }
    destruct (num_ltb m minv); cbn iota beta zeta; rewrite Hu; mred.
    + destruct (num_leb m alpha); [by eexists _, _|]. by apply IH.
    + destruct (num_leb minv alpha); [by eexists _, _|]. by apply IH.
Qed.

Lemma search_fuel_ok fuel :
  ∀ depth, (1 ≤ fuel)%nat → MAX_DEPTH + 2 - depth ≤ Z.of_nat fuel →
    search_ok (max_alpha_beta fuel) depth ∧ search_ok (min_alpha_beta fuel) depth.
Proof.
  induction fuel as [|fuel IH]; intros depth H1 H2; [lia|].
  assert (Hdeeper : depth ≤ MAX_DEPTH →
            search_ok (max_alpha_beta fuel) (depth + 1) ∧
            search_ok (min_alpha_beta fuel) (depth + 1)).
  { intros Hd. unfold MAX_DEPTH in *. apply IH; lia. }
  split; intros s alpha beta start Hwf.
  - cbn [max_alpha_beta].
    destruct (moves_spec s 0 Hwf) as (ms & Hms & _); [by left|].
    rewrite Hms. mred.
    destruct (victory_total s 0 "n" Hwf) as (v & s1 & Hv & _); [by left|].
    rewrite Hv. mred.
    destruct (victory_same_position _ _ _ _ _ Hv) as (Hsp & _).
    pose proof (victory_wf _ _ _ _ _ Hwf Hv) as Hwf1.
    destruct v.
    + rewrite (utility_terminal _ _ _ (victory_again _ _ _ _ Hv)).
      by eexists _, _.
    + destruct (victory_inv _ _ _ _ _ Hv) as [[_ ->]|[? _]]; [|done].
      unfold cut_off_tests.
      destruct (Z.gtb_spec depth MAX_DEPTH) as [Hgt|Hle].
      * destruct (heur_total s Hwf) as [h ->]. mred. by eexists _, _.
      * rewrite not_the_none_list_true.
        apply (max_loop_ok _ depth ms s); try done.
        -- by apply Hdeeper.
        -- intros m Hm. apply (legal_movable s 0 m Hwf); [by left|].
           by exists ms.
  - cbn [min_alpha_beta].
    destruct (moves_spec s 1 Hwf) as (ms & Hms & _); [by right|].
    rewrite Hms. mred.
    destruct (victory_total s 1 "n" Hwf) as (v & s1 & Hv & _); [by right|].
    rewrite Hv. mred.
    destruct (victory_same_position _ _ _ _ _ Hv) as (Hsp & _).
    pose proof (victory_wf _ _ _ _ _ Hwf Hv) as Hwf1.
    destruct v.
    + rewrite (utility_terminal _ _ _ (victory_again _ _ _ _ Hv)).
      by eexists _, _.
    + destruct (victory_inv _ _ _ _ _ Hv) as [[_ ->]|[? _]]; [|done].
      unfold cut_off_tests.
      destruct (Z.gtb_spec depth MAX_DEPTH) as [Hgt|Hle].
      * destruct (heur_total s Hwf) as [h ->]. mred. by eexists _, _.
      * rewrite not_the_none_list_true.
        apply (min_loop_ok _ depth ms s); try done.
        -- by apply Hdeeper.
        -- intros m Hm. apply (legal_movable s 1 m Hwf); [by right|].
           by exists ms.
Qed.

(** The search never writes [curplayer]. *)
Lemma affect_curplayer s m s1 u :
  affect s m = Ok (s1, u) → curplayer s1 = curplayer s.
Proof.
  destruct m as [[a b] [c d]]. unfold affect. intros H.
  inv_bind H as cell Hcell. destruct cell as [[pl pc]|]; [|done].
  inv_bind H as target Ht. inv_bind H as [[[s' pl2] pc2] z] Hs.
  inv_bind H as ps Hps. inv_bind H as bd Hbd. inv_bind H as bd' Hbd'.
  injection H as <- _. cbn [curplayer set_board set_pieces].
  destruct target as [[q r]|].
  - inv_bind Hs as ps' Hps'. by injection Hs as <- _ _ _.
  - by injection Hs as <- _ _ _.
Qed.

Lemma undo_curplayer s u s2 :
  undo s u = Ok s2 → curplayer s2 = curplayer s.
Proof.
  destruct u as [a b c d pl pc pl2 pc2 p_c z]. unfold undo. intros H.
  destruct (z =? 1).
  - inv_bind H as ps Hps. inv_bind H as bd Hbd. inv_bind H as bd' Hbd'.
    inv_bind H as ps' Hps'. by injection H as <-.
  - inv_bind H as bd Hbd. inv_bind H as bd' Hbd'.
    inv_bind H as ps' Hps'. by injection H as <-.
Qed.

Lemma victory_curplayer s player mes v s' :
  victory s player mes = Ok (v, s') → curplayer s' = curplayer s.
Proof. intros H. by apply victory_same_position in H as (_ & _ & ?). Qed.

Lemma utility_curplayer s p s' r :
  utility s p = Ok (s', r) → curplayer s' = curplayer s.
Proof.
  unfold utility. intros H.
  inv_bind H as [v1 s1] H1. apply victory_curplayer in H1.
  destruct (bool_int v1 <? 0); [injection H as <- _; done|].
  inv_bind H as [v2 s2] H2. apply victory_curplayer in H2.
  destruct (bool_int v2 =? 0); [injection H as <- _; congruence|].
  inv_bind H as [v3 s3] H3. apply victory_curplayer in H3.
  destruct (bool_int v3 >? 0); injection H as <- _; congruence.
Qed.

Lemma max_loop_curplayer rec its :
  (∀ s alpha beta depth start s' r,
     rec s alpha beta depth start = Ok (s', r) → curplayer s' = curplayer s) →
  ∀ s alpha beta depth value px py px_2 py_2 s' r,
    max_loop rec its s alpha beta depth value px py px_2 py_2 = Ok (s', r) →
    curplayer s' = curplayer s.
Proof.
  intros Hrec. induction its as [|[[a b] [c d]] rest IH];
    intros s alpha beta depth value px py px_2 py_2 s' r H.
  - cbn [max_loop] in H. by injection H as <- _.
  - cbn [max_loop] in H. inv_bind H as [s1 u] Ha. inv_bind H as [s2 r2] Hr.
    destruct r2 as [[[[[m mi] mj] c1] c2]|]; [|done].
    apply affect_curplayer in Ha. apply Hrec in Hr.
    destruct (num_gtb m value); cbn iota beta zeta in H; inv_bind H as s3 Hu;
      apply undo_curplayer in Hu.
    + destruct (num_geb m beta); [injection H as <- _; congruence|].
      apply IH in H. congruence.
    + destruct (num_geb value beta); [injection H as <- _; congruence|].
      apply IH in H. congruence.
Qed.

Lemma min_loop_curplayer rec its :
  (∀ s alpha beta depth start s' r,
     rec s alpha beta depth start = Ok (s', r) → curplayer s' = curplayer s) →
  ∀ s alpha beta depth minv qx qy qx1 qy1 s' r,
    min_loop rec its s alpha beta depth minv qx qy qx1 qy1 = Ok (s', r) →
    curplayer s' = curplayer s.
Proof.
  intros Hrec. induction its as [|[[a b] [c d]] rest IH];
    intros s alpha beta depth minv qx qy qx1 qy1 s' r H.
  - cbn [min_loop] in H. by injection H as <- _.
  - cbn [min_loop] in H. inv_bind H as [s1 u] Ha. inv_bind H as [s2 r2] Hr.
    destruct r2 as [[[[[m mi] mj] c1] c2]|]; [|done].
    apply affect_curplayer in Ha. apply Hrec in Hr.
    destruct (num_ltb m minv); cbn iota beta zeta in H; inv_bind H as s3 Hu;
      apply undo_curplayer in Hu.
    + destruct (num_leb m alpha); [injection H as <- _; congruence|].
      apply IH in H. congruence.
    + destruct (num_leb minv alpha); [injection H as <- _; congruence|].
      apply IH in H. congruence.
Qed.

Lemma search_curplayer fuel :
  (∀ s alpha beta depth start s' r,
     max_alpha_beta fuel s alpha beta depth start = Ok (s', r) →
     curplayer s' = curplayer s) ∧
  (∀ s alpha beta depth start s' r,
     min_alpha_beta fuel s alpha beta depth start = Ok (s', r) →
     curplayer s' = curplayer s).
Proof.
  induction fuel as [|fuel [IHmax IHmin]]; [by split|].
  split; intros s alpha beta depth start s' r H.
  - cbn [max_alpha_beta] in H. inv_bind H as mov Hmov.
    inv_bind H as [v s1] Hv. apply victory_curplayer in Hv.
    destruct v; [apply utility_curplayer in H; congruence|].
    destruct (cut_off_tests depth).
    { inv_bind H as h Hh. injection H as <- _. done. }
    rewrite not_the_none_list_true in H.
    apply (max_loop_curplayer _ _ IHmin) in H. congruence.
  - cbn [min_alpha_beta] in H. inv_bind H as mov Hmov.
    inv_bind H as [v s1] Hv. apply victory_curplayer in Hv.
    destruct v; [apply utility_curplayer in H; congruence|].
    destruct (cut_off_tests depth).
    { inv_bind H as h Hh. injection H as <- _. done. }
    rewrite not_the_none_list_true in H.
    apply (min_loop_curplayer _ _ IHmax) in H. congruence.
Qed.

(** X. Called on a well-formed state at a depth [depth >= 0] with the
    nesting the depth test allows, [max_alpha_beta] and [min_alpha_beta]
    raise nothing, return a tuple, and hand the state back with the
    placement they were given: the same board, the same rank index (as
    dicts), the same passivity counter and the same [curplayer], still
    well formed. Only [winner] and the order of the entries of [pieces]
    can have changed. *)
Theorem search_restores_position fuel s alpha beta depth start :
  wf s → (1 ≤ fuel)%nat → MAX_DEPTH + 2 - depth ≤ Z.of_nat fuel →
  (∃ s' a, max_alpha_beta fuel s alpha beta depth start = Ok (s', Some a) ∧
           same_position s s' ∧ wf s' ∧ curplayer s' = curplayer s) ∧
  (∃ s' a, min_alpha_beta fuel s alpha beta depth start = Ok (s', Some a) ∧
           same_position s s' ∧ wf s' ∧ curplayer s' = curplayer s).
Proof.
  intros Hwf H1 H2. destruct (search_fuel_ok fuel depth H1 H2) as [Hmax Hmin].
  destruct (search_curplayer fuel) as [Cmax Cmin].
  split.
  - destruct (Hmax s alpha beta start Hwf) as (s' & a & H & Hsp & Hwf').
    exists s', a. by rewrite (Cmax _ _ _ _ _ _ _ H).
  - destruct (Hmin s alpha beta start Hwf) as (s' & a & H & Hsp & Hwf').
    exists s', a. by rewrite (Cmin _ _ _ _ _ _ _ H).
Qed.

Lemma search_restores_position_witness :
  (∃ s' a, max_alpha_beta 5 new_Jungle NegInf PosInf 0 true = Ok (s', Some a) ∧
           same_position new_Jungle s' ∧ wf s' ∧
           curplayer s' = curplayer new_Jungle) ∧
  (∃ s' a, min_alpha_beta 5 new_Jungle NegInf PosInf 0 true = Ok (s', Some a) ∧
           same_position new_Jungle s' ∧ wf s' ∧
           curplayer s' = curplayer new_Jungle).
Proof.
  apply (search_restores_position 5 new_Jungle NegInf PosInf 0 true).
  - apply wfb_wf. by vm_compute.
  - lia.
  - by vm_compute.
Defined.

(** ** What a real move changes *)

(** X. [do_move] on a legal move of [player], on a well-formed state,
    raises nothing and: flips [curplayer]; leaves [winner] alone; empties
    the origin cell and puts the mover on the destination, in the board and
    in the index; if the destination was empty it adds 1 to the passivity
    counter and changes no other index entry; if it held a piece, that
    piece was the opponent's, its index entry is deleted, the counter
    becomes 0, and no other entry changes. *)
Theorem do_move_effect s player m :
  wf s → player = 0 ∨ player = 1 → legal s player m →
  ∃ s' pc,
    do_move s (Some m) = Ok s' ∧
    loc (pieces s) player pc = Some m.1 ∧
    curplayer s' = 1 - curplayer s ∧ winner s' = winner s ∧
    loc (pieces s') player pc = Some m.2 ∧
    board_get (board s') m.1.1 m.1.2 = Ok None ∧
    board_get (board s') m.2.1 m.2.2 = Ok (Some (player, pc)) ∧
    ((board_get (board s) m.2.1 m.2.2 = Ok None ∧
      peace_counter s' = peace_counter s + 1 ∧
      ∀ q r, ¬ (q = player ∧ r = pc) →
             loc (pieces s') q r = loc (pieces s) q r) ∨
     (∃ pc2,
        board_get (board s) m.2.1 m.2.2 = Ok (Some (1 - player, pc2)) ∧
        peace_counter s' = 0 ∧
        loc (pieces s') (1 - player) pc2 = None ∧
        ∀ q r, ¬ (q = player ∧ r = pc) → ¬ (q = 1 - player ∧ r = pc2) →
               loc (pieces s') q r = loc (pieces s) q r)).
Proof.
  intros Hwf Hpl Hlegal.
  pose proof (legal_movable s player m Hwf Hpl Hlegal) as Hmv.
  destruct Hlegal as (ms & Hms & Hm).
  destruct (moves_facts s player Hwf Hpl) as (ms' & Hms' & Hfacts).
  rewrite Hms in Hms'. injection Hms' as <-.
  destruct (Hfacts m Hm) as (pc & Hloc & Hin2 & Hne & _ & Hland & _).
  destruct (affect_after s m Hwf Hmv) as (s1 & u & Ha & Ham).
  destruct (wf_loc s Hwf _ _ _ Hloc) as [Hin1 Hcell1].
  pose proof (am_mover _ _ _ _ Ham) as Hmover. rewrite Hcell1 in Hmover.
  injection Hmover as Epl Epc.
  pose proof (am_loc _ _ _ _ Ham) as Hl. rewrite <- Epl, <- Epc in Hl.
  pose proof (am_board _ _ _ _ Ham) as Hb. rewrite <- Epl, <- Epc in Hb.
  exists (set_curplayer s1 (1 - curplayer s)), pc.
  split; [by rewrite do_move_affect, Ha|]. split; [done|].
  split; [done|]. split; [exact (am_winner _ _ _ _ Ham)|].
  cbn [pieces board peace_counter set_curplayer].
  split; [by rewrite Hl, decide_True|].
  destruct m as [[a b] [c d]]. cbn [fst snd] in *.
  split; [by rewrite Hb, decide_True|].
  split; [by rewrite Hb, decide_False, decide_True|].
  destruct (am_target _ _ _ _ Ham) as [(Ht & _ & Hpc)|(Ht & _ & Hpc)];
    cbn [fst snd] in Ht.
  - right. destruct Hland as [Hnone|(pl2 & pc2 & Hsome & Hne2 & _)];
      [congruence|].
    pose proof (wf_cell s Hwf _ _ _ _ Hin2 Hsome) as Hloc2.
    pose proof (loc_player _ _ _ _ (wf_pieces s Hwf) Hloc2) as Hpl2.
    assert (pl2 = 1 - player) as -> by lia.
    exists pc2. split; [done|]. split; [done|]. split.
    + rewrite Hl, decide_False by (intros [? _]; lia).
      by rewrite decide_True.
    + intros q r N1 N2. rewrite Hl, decide_False by done.
      case_decide as E; [|done].
      destruct (wf_loc_inj s _ _ _ _ _ Hwf Hloc2 E) as [<- <-]. by destruct N2.
  - left. split; [done|]. split; [done|].
    intros q r N1. rewrite Hl, decide_False by done.
    case_decide as E; [|done].
    apply (wf_loc s Hwf) in E as [_ E]. cbn [fst snd] in E. congruence.
Qed.

Lemma do_move_effect_witness :
  ∃ s' pc,
    do_move new_Jungle (Some ((0, 6), (0, 5))) = Ok s' ∧
    loc (pieces new_Jungle) 0 pc = Some (0, 6) ∧
    curplayer s' = 1 - curplayer new_Jungle ∧ winner s' = winner new_Jungle ∧
    loc (pieces s') 0 pc = Some (0, 5) ∧
    board_get (board s') 0 6 = Ok None ∧
    board_get (board s') 0 5 = Ok (Some (0, pc)) ∧
    ((board_get (board new_Jungle) 0 5 = Ok None ∧
      peace_counter s' = peace_counter new_Jungle + 1 ∧
      ∀ q r, ¬ (q = 0 ∧ r = pc) →
             loc (pieces s') q r = loc (pieces new_Jungle) q r) ∨
     (∃ pc2,
        board_get (board new_Jungle) 0 5 = Ok (Some (1 - 0, pc2)) ∧
        peace_counter s' = 0 ∧
        loc (pieces s') (1 - 0) pc2 = None ∧
        ∀ q r, ¬ (q = 0 ∧ r = pc) → ¬ (q = 1 - 0 ∧ r = pc2) →
               loc (pieces s') q r = loc (pieces new_Jungle) q r)).
Proof.
  apply (do_move_effect new_Jungle 0 ((0, 6), (0, 5))).
  - apply wfb_wf. by vm_compute.
  - by left.
  - eexists. split; [vm_compute; reflexivity|]. by apply (bool_decide_unpack _).
Defined.

(** ** Stray spaces in a move string *)

Lemma split_space_nonempty str : split_space str ≠ [].
Proof.
  destruct str as [|c str]; [done|]. cbn [split_space].
  destruct (c =? 32); [done|]. by destruct (split_space str).
Qed.

(** [(s1 + ' ' + s2).split(' ') == s1.split(' ') + s2.split(' ')] *)
Lemma split_space_app s1 s2 :
  split_space (s1 ++ 32 :: s2) = split_space s1 ++ split_space s2.
Proof.
  induction s1 as [|c s1 IH]; [done|].
  rewrite <- app_comm_cons. cbn [split_space]. rewrite IH.
  destruct (c =? 32); [done|].
  pose proof (split_space_nonempty s1) as Hne.
  by destruct (split_space s1).
Qed.

Lemma py_ints_empty_token tokens :
  [] ∈ tokens → py_ints tokens = Raise ValueError.
Proof.
  induction tokens as [|m rest IH]; intros Hin.
  - by apply elem_of_nil in Hin.
  - cbn [py_ints]. destruct (py_int m) as [z|e] eqn:E; mred.
    + apply elem_of_cons in Hin as [<-|Hin]; [done|].
      by rewrite IH.
    + by rewrite (py_int_error _ _ E).
Qed.

Lemma update_ValueError s player move_string mes :
  py_ints (split_space move_string) = Raise ValueError →
  update s player move_string mes = Raise ValueError.
Proof. intros H. unfold update. by rewrite H. Qed.

(** X. A move string with a leading space, a trailing space or two
    spaces in a row makes [update] raise [ValueError], on any state and
    whatever the other tokens are: [split(' ')] yields an empty token and
    [int('')] fails before any move is looked at. *)
Theorem update_stray_space s player str str' mes :
  update s player (32 :: str) mes = Raise ValueError ∧
  update s player (str ++ [32]) mes = Raise ValueError ∧
  update s player (str ++ 32 :: 32 :: str') mes = Raise ValueError.
Proof.
  split; [|split]; apply update_ValueError, py_ints_empty_token.
  - cbn [split_space]. change (32 =? 32) with true. cbn iota.
    apply elem_of_cons. by left.
  - rewrite split_space_app. apply elem_of_app. right.
    apply elem_of_cons. by left.
  - rewrite split_space_app. apply elem_of_app. right.
    cbn [split_space]. change (32 =? 32) with true. cbn iota.
    apply elem_of_cons. by left.
Qed.

(** ** [random_move] *)

Lemma random_choice_elem {X} (l : list X) r :
  l ≠ [] → ∃ x, random_choice l r = Ok x ∧ x ∈ l.
Proof.
  intros Hne. unfold random_choice.
  assert (Hlt : (r `mod` length l < length l)%nat).
  { apply Nat.mod_upper_bound. by destruct l. }
  destruct (lookup_lt_is_Some_2 _ _ Hlt) as [x Hx]. rewrite Hx.
  exists x. split; [done|]. by eapply list_elem_of_lookup_2.
Qed.

(** X. On a well-formed state [random_move(player)] raises nothing: it
    returns [None] exactly when the player has no legal move, and
    otherwise one of the moves [moves(player)] lists. *)
Theorem random_move_legal s player r :
  wf s → player = 0 ∨ player = 1 →
  ∃ ms, moves s player = Ok ms ∧
    match ms with
    | [] => random_move s player r = Ok None
    | _ :: _ => ∃ m, random_move s player r = Ok (Some m) ∧ m ∈ ms
    end.
Proof.
  intros Hwf Hpl. destruct (moves_spec s player Hwf Hpl) as (ms & Hms & _).
  exists ms. split; [done|]. unfold random_move. rewrite Hms. mred.
  destruct ms as [|m0 ms']; [done|].
  destruct (random_choice_elem (m0 :: ms') r) as (m & -> & Hm); [done|].
  mred. by exists m.
Qed.

Lemma random_move_legal_witness :
  ∃ ms, moves stuck 0 = Ok ms ∧
    match ms with
    | [] => random_move stuck 0 7 = Ok None
    | _ :: _ => ∃ m, random_move stuck 0 7 = Ok (Some m) ∧ m ∈ ms
    end.
Proof.
  apply (random_move_legal stuck 0 7); [apply wfb_wf; by vm_compute|by left].
Defined.

(** ** Make and unmake, entry by entry *)

Lemma dict_set_id {V} (d : dict V) k v :
  dict_get d k = Some v → dict_set d k v = d.
Proof.
  induction d as [|[k0 v0] d IH]; [done|]. cbn [dict_get dict_set].
  destruct (Z.eqb_spec k0 k) as [->|Hne].
  - by intros [= ->].
  - intros H. by rewrite IH.
Qed.

Lemma dict_set_set {V} (d : dict V) k v v' :
  dict_set (dict_set d k v') k v = dict_set d k v.
Proof.
  induction d as [|[k0 v0] d IH]; cbn [dict_set].
  - by rewrite Z.eqb_refl.
  - destruct (Z.eqb_spec k0 k) as [->|Hne]; cbn [dict_set].
    + by rewrite Z.eqb_refl.
    + destruct (Z.eqb_spec k0 k) as [|_]; [done|]. by rewrite IH.
Qed.

Lemma pieces_ok_shape ps :
  pieces_ok ps → ∃ d0 d1, ps = [(0, d0); (1, d1)].
Proof.
  intros [Hk _]. unfold dict_keys in Hk.
  destruct ps as [|[k0 d0] [|[k1 d1] [|? ?]]]; try done.
  injection Hk as -> ->. by exists d0, d1.
Qed.

(** [pieces] with the dict of player [pl] replaced by [d]. *)
Lemma pieces_set_eq ps pl pc v d :
  dict_get ps pl = Some d →
  pieces_set ps pl pc v = Ok (dict_set ps pl (dict_set d pc v)).
Proof. intros H. unfold pieces_set, dict_getitem. by rewrite H. Qed.

Lemma affect_undo_quiet s player m :
  wf s → player = 0 ∨ player = 1 → legal s player m →
  board_get (board s) m.2.1 m.2.2 = Ok None →
  ∃ s1 u, affect s m = Ok (s1, u) ∧ undo s1 u = Ok s.
Proof.
  intros Hwf Hpl Hlegal Hempty.
  destruct (legal_movable s player m Hwf Hpl Hlegal)
    as (pl & pc & Hloc & Hin2 & Hne & _).
  destruct m as [[a b] [c d]]. cbn [fst snd] in *.
  destruct (wf_loc s Hwf _ _ _ Hloc) as [Hin1 Hcell1]. cbn [fst snd] in Hcell1.
  pose proof (wf_shape s Hwf) as Hsh.
  apply loc_Some in Hloc as (dpl & Hdpl & Hpc).
  unfold affect. rewrite Hcell1. mred. rewrite Hempty. mred.
  cbn [board pieces peace_counter curplayer winner
       set_board set_pieces set_peace_counter].
  rewrite (pieces_set_eq _ _ _ _ _ Hdpl). mred.
  destruct (board_set_spec (board s) c d (Some (pl, pc)) Hsh Hin2)
    as (b1 & -> & Hs1 & Hb1). mred.
  destruct (board_set_spec b1 a b None Hs1 Hin1) as (b2 & -> & Hs2 & Hb2).
  mred. eexists _, _. split; [reflexivity|].
  unfold undo. change (0 =? 1) with false. cbn iota.
  cbn [board pieces peace_counter curplayer winner
       set_board set_pieces set_peace_counter].
  destruct (board_set_spec b2 a b (Some (pl, pc)) Hs2 Hin1)
    as (b3 & -> & Hs3 & Hb3). mred.
  destruct (board_set_spec b3 c d None Hs3 Hin2) as (b4 & -> & Hs4 & Hb4).
  mred.
  cbn [board pieces peace_counter curplayer winner
       set_board set_pieces set_peace_counter].
  rewrite (pieces_set_eq _ pl pc (a, b) (dict_set dpl pc (c, d)))
    by (by rewrite dict_get_set, decide_True).
  mred. f_equal.
  assert (Hboard : b4 = board s).
  { apply board_ext; [done|done|]. intros x y Hxy.
    rewrite Hb4, Hb3, Hb2, Hb1 by done. decide_cases. }
  rewrite !dict_set_set, (dict_set_id dpl pc (a, b) Hpc),
    (dict_set_id (pieces s) pl dpl Hdpl), Hboard.
  destruct s as [bd ps cp pcn w].
  cbn [board pieces peace_counter curplayer winner
       set_board set_pieces set_peace_counter].
  by replace (pcn + 1 - 1) with pcn by lia.
Qed.

(** X. When the destination of a legal move is empty, the unmake block
    run right after the make block gives back the very same state: the
    same board, the same [pieces] with its entries in the same order, the
    same counters and flags. *)
Theorem affect_undo_exact s player m :
  wf s → player = 0 ∨ player = 1 → legal s player m →
  board_get (board s) m.2.1 m.2.2 = Ok None →
  ∃ s1 u, affect s m = Ok (s1, u) ∧ undo s1 u = Ok s.
Proof. intros Hwf Hpl Hlegal Hempty. by eapply affect_undo_quiet. Qed.

Lemma affect_undo_exact_witness :
  ∃ s1 u, affect new_Jungle ((0, 6), (0, 5)) = Ok (s1, u) ∧
          undo s1 u = Ok new_Jungle.
Proof.
  apply (affect_undo_exact new_Jungle 0 ((0, 6), (0, 5))).
  - apply wfb_wf. by vm_compute.
  - by left.
  - eexists. split; [vm_compute; reflexivity|]. by apply (bool_decide_unpack _).
  - reflexivity.
Defined.

Lemma affect_undo_take s player m pc2 :
  wf s → player = 0 ∨ player = 1 → legal s player m →
  board_get (board s) m.2.1 m.2.2 = Ok (Some (1 - player, pc2)) →
  ∃ s1 u d2,
    affect s m = Ok (s1, u) ∧
    dict_get (pieces s) (1 - player) = Some d2 ∧
    undo s1 u
    = Ok (set_pieces s (dict_set (pieces s) (1 - player)
                          (dict_remove d2 pc2 ++ [(pc2, m.2)]))).
Proof.
  intros Hwf Hpl Hlegal Htgt.
  destruct Hlegal as (ms & Hms & Hm).
  destruct (moves_facts s player Hwf Hpl) as (ms' & Hms' & Hfacts).
  rewrite Hms in Hms'. injection Hms' as <-.
  destruct (Hfacts m Hm) as (pc & Hloc & Hin2 & Hne & _).
  destruct m as [[a b] [c d]]. cbn [fst snd] in *.
  destruct (wf_loc s Hwf _ _ _ Hloc) as [Hin1 Hcell1]. cbn [fst snd] in Hcell1.
  pose proof (wf_shape s Hwf) as Hsh.
  pose proof (wf_cell s Hwf _ _ _ _ Hin2 Htgt) as Hloc2.
  apply loc_Some in Hloc as (dpl & Hdpl & Hpc).
  apply loc_Some in Hloc2 as (d2 & Hd2 & Hpc2).
  assert (Hopp : 1 - player ≠ player) by lia.
  unfold affect. rewrite Hcell1. mred. rewrite Htgt. mred.
  cbn [board pieces peace_counter curplayer winner
       set_board set_pieces set_peace_counter].
  unfold pieces_del, dict_getitem, dict_del, dict_contains.
  rewrite Hd2. mred. rewrite Hpc2. mred.
  cbn [board pieces peace_counter curplayer winner
       set_board set_pieces set_peace_counter].
  rewrite (pieces_set_eq _ player pc (c, d) dpl)
    by (by rewrite dict_get_set, decide_False).
  mred.
  destruct (board_set_spec (board s) c d (Some (player, pc)) Hsh Hin2)
    as (b1 & -> & Hs1 & Hb1). mred.
  destruct (board_set_spec b1 a b None Hs1 Hin1) as (b2 & -> & Hs2 & Hb2).
  mred. eexists _, _, d2. split; [reflexivity|]. split; [done|].
  unfold undo. change (1 =? 1) with true. cbn iota.
  cbn [board pieces peace_counter curplayer winner
       set_board set_pieces set_peace_counter].
  rewrite (pieces_set_eq _ (1 - player) pc2 (c, d) (dict_remove d2 pc2)).
  2:{ rewrite dict_get_set, decide_False by lia.
      by rewrite dict_get_set, decide_True. }
  mred.
  cbn [board pieces peace_counter curplayer winner
       set_board set_pieces set_peace_counter].
  destruct (board_set_spec b2 a b (Some (player, pc)) Hs2 Hin1)
    as (b3 & -> & Hs3 & Hb3). mred.
  destruct (board_set_spec b3 c d (Some (1 - player, pc2)) Hs3 Hin2)
    as (b4 & -> & Hs4 & Hb4). mred.
  cbn [board pieces peace_counter curplayer winner
       set_board set_pieces set_peace_counter].
  rewrite (pieces_set_eq _ player pc (a, b) (dict_set dpl pc (c, d))).
  2:{ rewrite dict_get_set, decide_False by done.
      by rewrite dict_get_set, decide_True. }
  mred. f_equal.
  assert (Hboard : b4 = board s).
  { apply board_ext; [done|done|]. intros x y Hxy.
    rewrite Hb4, Hb3, Hb2, Hb1 by done. decide_cases. }
  rewrite Hboard, dict_set_set, (dict_set_id dpl pc (a, b) Hpc).
  rewrite (dict_keys_set_absent (dict_remove d2 pc2) pc2).
  2:{ apply dict_get_None. rewrite dict_get_remove, decide_True; [done|done|].
      destruct (wf_pieces s Hwf) as [_ Hnd]. by eapply Hnd. }
  destruct (pieces_ok_shape _ (wf_pieces s Hwf)) as (d0 & d1 & Eps).
  destruct s as [bd ps cp pcn w].
  cbn [board pieces peace_counter curplayer winner
       set_board set_pieces set_peace_counter] in *.
  subst ps. unfold set_pieces. cbn [board pieces peace_counter curplayer winner].
  f_equal.
  destruct Hpl as [-> | ->].
  - change (1 - 0) with 1 in *. cbn in Hdpl. injection Hdpl as <-. reflexivity.
  - change (1 - 1) with 0 in *. cbn in Hdpl. injection Hdpl as <-. reflexivity.
Qed.

(** X. When a legal move captures, the unmake block run right after the
    make block gives back the state with one difference: in the dict of
    the captured piece's owner the captured rank has been deleted and
    assigned again, so it now comes last. The dict is the same mapping,
    but [moves] will list that owner's moves in another order unless the
    rank was already last. *)
Theorem affect_undo_capture s player m pc2 :
  wf s → player = 0 ∨ player = 1 → legal s player m →
  board_get (board s) m.2.1 m.2.2 = Ok (Some (1 - player, pc2)) →
  ∃ s1 u d2,
    affect s m = Ok (s1, u) ∧
    dict_get (pieces s) (1 - player) = Some d2 ∧
    undo s1 u
    = Ok (set_pieces s (dict_set (pieces s) (1 - player)
                          (dict_remove d2 pc2 ++ [(pc2, m.2)]))).
Proof. intros Hwf Hpl Hlegal Htgt. by apply affect_undo_take. Qed.

Lemma affect_undo_capture_witness :
  ∃ s1 u d2,
    affect capture_ready ((0, 5), (0, 4)) = Ok (s1, u) ∧
    dict_get (pieces capture_ready) (1 - 0) = Some d2 ∧
    undo s1 u
    = Ok (set_pieces capture_ready
            (dict_set (pieces capture_ready) (1 - 0)
               (dict_remove d2 cat ++ [(cat, (0, 4))]))).
Proof.
  apply (affect_undo_capture capture_ready 0 ((0, 5), (0, 4)) cat).
  - apply wfb_wf. by vm_compute.
  - by left.
  - eexists. split; [vm_compute; reflexivity|]. by apply (bool_decide_unpack _).
  - reflexivity.
Defined.

(** ** The round trip of the search *)






(** ** The move string is read back *)

Lemma py_str_digit z :
  0 ≤ z ≤ 9 →
  py_str z = Ok [48 + z] ∧ (48 + z =? 32) = false ∧ py_int [48 + z] = Ok z.
Proof.
  intros Hz.
  assert (z = 0 ∨ z = 1 ∨ z = 2 ∨ z = 3 ∨ z = 4 ∨ z = 5 ∨ z = 6 ∨ z = 7 ∨
          z = 8 ∨ z = 9) as Hc by lia.
  repeat (destruct Hc as [->|Hc]); try subst z;
    (split; [by vm_compute|]); split; by vm_compute.
Qed.

Lemma split_space_token ch rest :
  (ch =? 32) = false →
  split_space (ch :: 32 :: rest) = [ch] :: split_space rest.
Proof.
  intros H. cbn [split_space]. rewrite H.
  change (32 =? 32) with true. reflexivity.
Qed.

Lemma split_space_last ch :
  (ch =? 32) = false → split_space [ch] = [[ch]].
Proof. intros H. cbn [split_space]. by rewrite H. Qed.

Lemma move_string_digits a b c d :
  0 ≤ a ≤ 9 → 0 ≤ b ≤ 9 → 0 ≤ c ≤ 9 → 0 ≤ d ≤ 9 →
  ∃ str, move_string (Some a) (Some b) (Some c) (Some d) = Ok str ∧
         py_ints (split_space str) = Ok [a; b; c; d].
Proof.
  intros Ha Hb Hc Hd.
  destruct (py_str_digit a Ha) as (Ea & Na & Ia).
  destruct (py_str_digit b Hb) as (Eb & Nb & Ib).
  destruct (py_str_digit c Hc) as (Ec & Nc & Ic).
  destruct (py_str_digit d Hd) as (Ed & Nd & Id).
  exists [48 + a; 32; 48 + b; 32; 48 + c; 32; 48 + d]. split.
  - unfold move_string, py_str_opt. rewrite Ea, Eb, Ec, Ed. reflexivity.
  - rewrite !split_space_token, split_space_last by done.
    cbn [py_ints]. rewrite Ia, Ib, Ic, Id. reflexivity.
Qed.

Lemma listed_move_digits s player ms a b c d :
  wf s → player = 0 ∨ player = 1 → moves s player = Ok ms →
  ((a, b), (c, d)) ∈ ms →
  (0 ≤ a ≤ 9 ∧ 0 ≤ b ≤ 9) ∧ (0 ≤ c ≤ 9 ∧ 0 ≤ d ≤ 9).
Proof.
  intros Hwf Hpl Hms Hm.
  destruct (moves_facts s player Hwf Hpl) as (ms' & Hms' & Hfacts).
  rewrite Hms in Hms'. injection Hms' as <-.
  destruct (Hfacts _ Hm) as (p & Hloc & [Hc Hd] & _).
  destruct (wf_loc s Hwf _ _ _ Hloc) as [[Ha Hb] _].
  unfold MX, MY in *. cbn [fst snd] in *. lia.
Qed.

(** [update] on a string that spells a listed move. *)
Lemma update_listed s player a b c d str mes :
  wf s → player = 0 ∨ player = 1 →
  py_ints (split_space str) = Ok [a; b; c; d] →
  legal s player ((a, b), (c, d)) →
  ∃ s1 v s' r,
    do_move (set_curplayer s player) (Some ((a, b), (c, d))) = Ok s1 ∧
    victory s1 player mes = Ok (v, s') ∧
    update s player str mes = Ok (s', r) ∧
    wf s1 ∧ wf s' ∧
    (v = false ∧ r = None ∨
     v = true ∧ winner s' = Some 1 ∧ r = Some 1 ∨
     v = true ∧ winner s' = Some 0 ∧ r = Some (-1)).
Proof.
  intros Hwf Hpl Hstr (ms & Hms & Hm).
  pose proof (wf_set_curplayer s player Hwf) as Hwf0.
  assert (Hlegal : legal (set_curplayer s player) player ((a, b), (c, d))).
  { exists ms. by rewrite moves_set_curplayer. }
  pose proof (legal_movable _ _ _ Hwf0 Hpl Hlegal) as Hmv.
  destruct (affect_after _ _ Hwf0 Hmv) as (s1' & u & Ha & Ham).
  pose proof (after_move_wf _ _ _ _ Hwf0 Hmv Ham) as Hwf1'.
  set (s1 := set_curplayer s1' (1 - curplayer (set_curplayer s player))).
  assert (Hdo : do_move (set_curplayer s player) (Some ((a, b), (c, d))) = Ok s1).
  { rewrite do_move_affect, Ha. done. }
  assert (Hwf1 : wf s1) by (by apply wf_set_curplayer).
  destruct (update_finish s1 player mes Hwf1 Hpl) as (v & s' & r & Hv & Hr & Hcode).
  exists s1, v, s', r. split; [done|]. split; [done|].
  split; [|split; [done|split; [by eapply victory_wf|done]]].
  unfold update. rewrite Hstr. mred.
  change (Z.of_nat (length [a; b; c; d]) =? 4) with true. cbn [negb].
  rewrite moves_set_curplayer, Hms. mred.
  rewrite update_decode_eq by done.
  assert (W : is_wrong_move [a; b; c; d] ms = false).
  { cbn [is_wrong_move]. destruct ms as [|m0 ms']; [by apply elem_of_nil in Hm|].
    apply negb_false_iff, bool_decide_eq_true_2. done. }
  rewrite W. destruct ms as [|m0 ms']; [by apply elem_of_nil in Hm|].
  mred. rewrite Hdo. mred. exact Hr.
Qed.

(** [update] on a string that spells four integers which are no listed
    move and not the pass. *)
Lemma update_not_listed s player a b c d str mes ms :
  py_ints (split_space str) = Ok [a; b; c; d] →
  moves s player = Ok ms → ((a, b), (c, d)) ∉ ms →
  [a; b; c; d] ≠ [-1; -1; -1; -1] →
  update s player str mes = Raise WrongMove.
Proof.
  intros Hstr Hms Hm Hpass. unfold update. rewrite Hstr. mred.
  change (Z.of_nat (length [a; b; c; d]) =? 4) with true. cbn [negb].
  rewrite moves_set_curplayer, Hms. mred.
  rewrite update_decode_eq by done.
  assert (W : is_wrong_move [a; b; c; d] ms = true).
  { cbn [is_wrong_move]. destruct ms as [|m0 ms'].
    - apply negb_true_iff, bool_decide_eq_false_2. done.
    - apply negb_true_iff, bool_decide_eq_false_2. done. }
  by rewrite W.
Qed.

(** X. The string [Player.sym] and [Player.loop] build from a listed move,
    [str(a)+' '+str(b)+' '+str(c)+' '+str(d)], is read back by [update] as
    that move: on a well-formed state and a move [moves] lists for the
    player, building the string raises nothing, and on it [update] raises
    nothing, applies exactly this move with [do_move], and returns [None],
    [+1] or [-1] as [victory] decides; the state it leaves is well
    formed. *)
Theorem update_move_string s player a b c d mes :
  wf s → player = 0 ∨ player = 1 →
  legal s player ((a, b), (c, d)) →
  ∃ str s1 v s' r,
    move_string (Some a) (Some b) (Some c) (Some d) = Ok str ∧
    do_move (set_curplayer s player) (Some ((a, b), (c, d))) = Ok s1 ∧
    victory s1 player mes = Ok (v, s') ∧
    update s player str mes = Ok (s', r) ∧
    wf s' ∧
    (v = false ∧ r = None ∨
     v = true ∧ winner s' = Some 1 ∧ r = Some 1 ∨
     v = true ∧ winner s' = Some 0 ∧ r = Some (-1)).
Proof.
  intros Hwf Hpl Hlegal.
  assert (Hstr : ∃ str,
            move_string (Some a) (Some b) (Some c) (Some d) = Ok str ∧
            py_ints (split_space str) = Ok [a; b; c; d]).
  { destruct Hlegal as (ms & Hms & Hm).
    destruct (listed_move_digits s player ms a b c d Hwf Hpl Hms Hm)
      as [[Ha Hb] [Hc Hd]].
    by apply move_string_digits. }
  destruct Hstr as (str & Hbuild & Hstr).
  destruct (update_listed s player a b c d _ mes Hwf Hpl Hstr Hlegal)
    as (s1 & v & s' & r & Hdo & Hv & Hu & _ & Hwf' & Hcode).
  by exists str, s1, v, s', r.
Qed.

Lemma update_move_string_witness :
  ∃ str s1 v s' r,
    move_string (Some 0) (Some 2) (Some 0) (Some 3) = Ok str ∧
    do_move (set_curplayer new_Jungle 1) (Some ((0, 2), (0, 3))) = Ok s1 ∧
    victory s1 1 "gl1" = Ok (v, s') ∧
    update new_Jungle 1 str "gl1" = Ok (s', r) ∧
    wf s' ∧
    (v = false ∧ r = None ∨
     v = true ∧ winner s' = Some 1 ∧ r = Some 1 ∨
     v = true ∧ winner s' = Some 0 ∧ r = Some (-1)).
Proof.
  apply (update_move_string new_Jungle 1 0 2 0 3 "gl1").
  - apply wfb_wf. by vm_compute.
  - by right.
  - eexists. split; [vm_compute; reflexivity|]. by apply (bool_decide_unpack _).
Defined.

(** ** The listed moves depend on the placement only *)

Lemma moves_dir_same_position s s' player p pos1 d :
  same_position s s' → pieces_ok (pieces s) → pieces_ok (pieces s') →
  moves_dir s player p pos1 d = moves_dir s' player p pos1 d.
Proof.
  intros (Hb & [_ Hl] & _) Hok Hok'.
  destruct pos1 as [x y], d as [dx dy]. unfold moves_dir, moves_target.
  rewrite !(rat_is_blocking_eq s), !(rat_is_blocking_eq s') by done.
  unfold rat_on_path. rewrite Hb, !Hl. reflexivity.
Qed.

Lemma moves_same_position s s' player ms ms' :
  wf s → wf s' → same_position s s' → player = 0 ∨ player = 1 →
  moves s player = Ok ms → moves s' player = Ok ms' →
  ∀ m, m ∈ ms ↔ m ∈ ms'.
Proof.
  intros Hwf Hwf' Hsp Hpl Hms Hms' m.
  destruct (moves_spec s player Hwf Hpl) as (l & Hl & Hiff).
  destruct (moves_spec s' player Hwf' Hpl) as (l' & Hl' & Hiff').
  rewrite Hms in Hl. injection Hl as <-.
  rewrite Hms' in Hl'. injection Hl' as <-.
  rewrite Hiff, Hiff'.
  destruct Hsp as (Hb & [Hk Hloc] & Hc).
  assert (Hsp : same_position s s') by (by repeat split).
  split; intros (p & d & Hp & Hd & Hdir); exists p, d.
  - rewrite <- Hloc, <- (moves_dir_same_position s s') by (done || apply Hwf || apply Hwf').
    done.
  - rewrite Hloc, (moves_dir_same_position s s') by (done || apply Hwf || apply Hwf').
    done.
Qed.

Lemma legal_same_position s s' player m :
  wf s → wf s' → same_position s s' → player = 0 ∨ player = 1 →
  legal s player m → legal s' player m.
Proof.
  intros Hwf Hwf' Hsp Hpl (ms & Hms & Hm).
  destruct (moves_spec s' player Hwf' Hpl) as (ms' & Hms' & _).
  exists ms'. split; [done|].
  by apply (moves_same_position s s' player ms ms').
Qed.

(** ** The move a search returns *)

Lemma max_loop_chosen rec ms its :
  ∀ s alpha beta depth value px py px_2 py_2 s' v aa bb cc dd,
    (∀ m, m ∈ its → m ∈ ms) →
    chosen ms NegInf value px py px_2 py_2 →
    max_loop rec its s alpha beta depth value px py px_2 py_2
    = Ok (s', Some (v, aa, bb, cc, dd)) →
    chosen ms NegInf v aa bb cc dd.
Proof.
  induction its as [|[[a b] [c d]] rest IH];
    intros s alpha beta depth value px py px_2 py_2 s' v aa bb cc dd Hsub Hinv H.
  - cbn [max_loop] in H. by injection H as <- <- <- <- <- <-.
  - cbn [max_loop] in H. inv_bind H as [s1 u] Ha. inv_bind H as [s2 r] Hr.
    destruct r as [[[[[m mi] mj] c1] c2]|]; [|done].
    assert (Hrest : ∀ m', m' ∈ rest → m' ∈ ms).
    { intros m' Hm'. apply Hsub, elem_of_cons. by right. }
    assert (Hnew : chosen ms NegInf m (Some a) (Some b) (Some c) (Some d)).
    { right. exists a, b, c, d. split; [|done]. apply Hsub, elem_of_cons. by left. }
    destruct (num_gtb m value); cbn iota beta zeta in H; inv_bind H as s3 Hu.
    + destruct (num_geb m beta); [by injection H as <- <- <- <- <- <-|].
      by eapply IH; [| |exact H].
    + destruct (num_geb value beta); [by injection H as <- <- <- <- <- <-|].
      by eapply IH; [| |exact H].
Qed.

Lemma min_loop_chosen rec ms its :
  ∀ s alpha beta depth minv qx qy qx1 qy1 s' v aa bb cc dd,
    (∀ m, m ∈ its → m ∈ ms) →
    chosen ms PosInf minv qx qy qx1 qy1 →
    min_loop rec its s alpha beta depth minv qx qy qx1 qy1
    = Ok (s', Some (v, aa, bb, cc, dd)) →
    chosen ms PosInf v aa bb cc dd.
Proof.
  induction its as [|[[a b] [c d]] rest IH];
    intros s alpha beta depth minv qx qy qx1 qy1 s' v aa bb cc dd Hsub Hinv H.
  - cbn [min_loop] in H. by injection H as <- <- <- <- <- <-.
  - cbn [min_loop] in H. inv_bind H as [s1 u] Ha. inv_bind H as [s2 r] Hr.
    destruct r as [[[[[m mi] mj] c1] c2]|]; [|done].
    assert (Hrest : ∀ m', m' ∈ rest → m' ∈ ms).
    { intros m' Hm'. apply Hsub, elem_of_cons. by right. }
    assert (Hnew : chosen ms PosInf m (Some a) (Some b) (Some c) (Some d)).
    { right. exists a, b, c, d. split; [|done]. apply Hsub, elem_of_cons. by left. }
    destruct (num_ltb m minv); cbn iota beta zeta in H; inv_bind H as s3 Hu.
    + destruct (num_leb m alpha); [by injection H as <- <- <- <- <- <-|].
      by eapply IH; [| |exact H].
    + destruct (num_leb minv alpha); [by injection H as <- <- <- <- <- <-|].
      by eapply IH; [| |exact H].
Qed.

Lemma max_search_chosen fuel s alpha beta depth start :
  wf s → MAX_DEPTH + 2 - depth ≤ Z.of_nat fuel → depth ≤ MAX_DEPTH →
  victory s 0 "n" = Ok (false, s) →
  ∃ ms s' v aa bb cc dd,
    moves s 0 = Ok ms ∧
    max_alpha_beta fuel s alpha beta depth start
    = Ok (s', Some (v, aa, bb, cc, dd)) ∧
    same_position s s' ∧ wf s' ∧ chosen ms NegInf v aa bb cc dd.
Proof.
  intros Hwf Hfuel Hd Hv.
  destruct fuel as [|fuel]; [unfold MAX_DEPTH in *; lia|].
  destruct (search_fuel_ok fuel (depth + 1)) as [_ Hmin];
    [unfold MAX_DEPTH in *; lia..|].
  destruct (moves_spec s 0 Hwf) as (ms & Hms & _); [by left|].
  assert (Hmv : ∀ m, m ∈ ms → movable s m).
  { intros m Hm. apply (legal_movable s 0 m Hwf); [by left|]. by exists ms. }
  destruct (max_loop_ok _ depth ms s Hmin Hwf Hmv s alpha beta
              NegInf None None None None (same_position_refl s) Hwf)
    as (s' & [[[[v aa] bb] cc] dd] & Hloop & Hsp & Hwf').
  exists ms, s', v, aa, bb, cc, dd. split; [done|].
  split; [|split; [done|split; [done|]]].
  - cbn [max_alpha_beta]. rewrite Hms. mred. rewrite Hv. mred.
    unfold cut_off_tests.
    destruct (Z.gtb_spec depth MAX_DEPTH) as [Hgt|_]; [lia|].
    by rewrite not_the_none_list_true.
  - eapply max_loop_chosen; [| |exact Hloop]; [done|]. by left.
Qed.

Lemma min_search_chosen fuel s alpha beta depth start :
  wf s → MAX_DEPTH + 2 - depth ≤ Z.of_nat fuel → depth ≤ MAX_DEPTH →
  victory s 1 "n" = Ok (false, s) →
  ∃ ms s' v aa bb cc dd,
    moves s 1 = Ok ms ∧
    min_alpha_beta fuel s alpha beta depth start
    = Ok (s', Some (v, aa, bb, cc, dd)) ∧
    same_position s s' ∧ wf s' ∧ chosen ms PosInf v aa bb cc dd.
Proof.
  intros Hwf Hfuel Hd Hv.
  destruct fuel as [|fuel]; [unfold MAX_DEPTH in *; lia|].
  destruct (search_fuel_ok fuel (depth + 1)) as [Hmax _];
    [unfold MAX_DEPTH in *; lia..|].
  destruct (moves_spec s 1 Hwf) as (ms & Hms & _); [by right|].
  assert (Hmv : ∀ m, m ∈ ms → movable s m).
  { intros m Hm. apply (legal_movable s 1 m Hwf); [by right|]. by exists ms. }
  destruct (min_loop_ok _ depth ms s Hmax Hwf Hmv s alpha beta
              PosInf None None None None (same_position_refl s) Hwf)
    as (s' & [[[[v aa] bb] cc] dd] & Hloop & Hsp & Hwf').
  exists ms, s', v, aa, bb, cc, dd. split; [done|].
  split; [|split; [done|split; [done|]]].
  - cbn [min_alpha_beta]. rewrite Hms. mred. rewrite Hv. mred.
    unfold cut_off_tests.
    destruct (Z.gtb_spec depth MAX_DEPTH) as [Hgt|_]; [lia|].
    by rewrite not_the_none_list_true.
  - eapply min_loop_chosen; [| |exact Hloop]; [done|]. by left.
Qed.

(** X. At a node the search expands (the game is not over for the player
    to move and [depth <= MAX_DEPTH]), on a well-formed state and with the
    nesting the depth test allows, [max_alpha_beta] returns either the
    value [-inf] with the four coordinates [None], or the coordinates of a
    move that [moves(0)] lists for this state; [min_alpha_beta] returns
    [+inf] with [None] coordinates or a move of [moves(1)]. In both cases
    the placement is handed back unchanged. *)
Theorem search_chosen_move fuel s alpha beta depth start :
  wf s → MAX_DEPTH + 2 - depth ≤ Z.of_nat fuel → depth ≤ MAX_DEPTH →
  (victory s 0 "n" = Ok (false, s) →
   ∃ ms s' v aa bb cc dd,
     moves s 0 = Ok ms ∧
     max_alpha_beta fuel s alpha beta depth start
     = Ok (s', Some (v, aa, bb, cc, dd)) ∧
     same_position s s' ∧ wf s' ∧ chosen ms NegInf v aa bb cc dd) ∧
  (victory s 1 "n" = Ok (false, s) →
   ∃ ms s' v aa bb cc dd,
     moves s 1 = Ok ms ∧
     min_alpha_beta fuel s alpha beta depth start
     = Ok (s', Some (v, aa, bb, cc, dd)) ∧
     same_position s s' ∧ wf s' ∧ chosen ms PosInf v aa bb cc dd).
Proof.
  intros Hwf Hfuel Hd. split; intros Hv.
  - by apply max_search_chosen.
  - by apply min_search_chosen.
Qed.

Lemma search_chosen_move_witness :
  (victory new_Jungle 0 "n" = Ok (false, new_Jungle) →
   ∃ ms s' v aa bb cc dd,
     moves new_Jungle 0 = Ok ms ∧
     max_alpha_beta 5 new_Jungle NegInf PosInf 0 true
     = Ok (s', Some (v, aa, bb, cc, dd)) ∧
     same_position new_Jungle s' ∧ wf s' ∧ chosen ms NegInf v aa bb cc dd) ∧
  (victory new_Jungle 1 "n" = Ok (false, new_Jungle) →
   ∃ ms s' v aa bb cc dd,
     moves new_Jungle 1 = Ok ms ∧
     min_alpha_beta 5 new_Jungle NegInf PosInf 0 true
     = Ok (s', Some (v, aa, bb, cc, dd)) ∧
     same_position new_Jungle s' ∧ wf s' ∧ chosen ms PosInf v aa bb cc dd).
Proof.
  apply (search_chosen_move 5 new_Jungle NegInf PosInf 0 true).
  - apply wfb_wf. by vm_compute.
  - by vm_compute.
  - by vm_compute.
Defined.

(** ** Rollouts *)

Lemma sym_turn_safe rs k J player :
  wf J → player = 0 ∨ player = 1 →
  ∃ J' k' kon,
    sym_turn rs k J player = Ok (J', k', kon) ∧ wf J' ∧
    (kon = None ∨ kon = Some 1 ∧ winner J' = Some 1 ∨
     kon = Some (-1) ∧ winner J' = Some 0).
Proof.
  intros Hwf Hpl. unfold sym_turn.
  destruct (moves_spec J player Hwf Hpl) as (ms & Hms & _). rewrite Hms. mred.
  destruct ms as [|m0 ms'].
  - cbn [do_move]. mred. eexists _, _, _. split; [reflexivity|].
    split; [by apply wf_set_curplayer|by left].
  - destruct (random_choice_elem (m0 :: ms') (rs k))
      as ([[a b] [c d]] & -> & Hm); [done|]. mred.
    destruct (listed_move_digits J player _ a b c d Hwf Hpl Hms Hm)
      as [[Ha Hb] [Hc Hd]].
    destruct (move_string_digits a b c d Ha Hb Hc Hd) as (str & -> & Hstr).
    mred.
    destruct (update_listed J player a b c d str "n" Hwf Hpl Hstr)
      as (s1 & v & s' & r & _ & _ & -> & _ & Hwf' & Hcode);
      [by exists (m0 :: ms')|].
    mred. eexists _, _, _. split; [reflexivity|]. split; [done|].
    destruct Hcode as [(_ & ->)|[(_ & Hw & ->)|(_ & Hw & ->)]]; auto.
Qed.

Lemma sym_loop_safe fuel :
  ∀ rs k J, wf J →
    sym_loop fuel rs k J = Raise OutOfFuel ∨
    ∃ b J', sym_loop fuel rs k J = Ok (b, J') ∧ wf J' ∧
            winner J' = Some (if b then 1 else 0).
Proof.
  induction fuel as [|fuel IH]; intros rs k J Hwf; [by left|].
  cbn [sym_loop].
  destruct (sym_turn_safe rs k (set_curplayer J 0) 0)
    as (J1 & k1 & kon1 & -> & Hwf1 & Hk1);
    [by apply wf_set_curplayer|by left|].
  mred. destruct Hk1 as [->|[(-> & Hw)|(-> & Hw)]].
  - destruct (sym_turn_safe rs k1 J1 1) as (J2 & k2 & kon2 & -> & Hwf2 & Hk2);
      [done|by right|].
    mred. destruct Hk2 as [->|[(-> & Hw)|(-> & Hw)]].
    + by apply IH.
    + right. by exists true, J2.
    + right. by exists false, J2.
  - right. by exists true, J1.
  - right. by exists false, J1.
Qed.

(** X. A rollout raises nothing. Run on a well-formed game with a move
    that [moves(1)] lists, for whatever numbers [random.choice] draws and
    whatever bound on the number of rounds, [sym] has either not finished
    within the bound, or it has returned: then the game it played on is
    well formed, it has a recorded winner, and the returned value is
    [True] exactly when that winner is player 1. *)
Theorem sym_safe fuel rs J m :
  wf J → legal J 1 m →
  sym fuel rs J m = Raise OutOfFuel ∨
  ∃ b J', sym fuel rs J m = Ok (b, J') ∧ wf J' ∧
          winner J' = Some (if b then 1 else 0).
Proof.
  intros Hwf (ms & Hms & Hm). destruct m as [[a b] [c d]]. unfold sym.
  assert (Hpl : 1 = 0 ∨ 1 = 1) by (by right).
  destruct (listed_move_digits J 1 _ a b c d Hwf Hpl Hms Hm)
    as [[Ha Hb] [Hc Hd]].
  destruct (move_string_digits a b c d Ha Hb Hc Hd) as (str & -> & Hstr).
  mred.
  destruct (update_listed (set_curplayer J 1) 1 a b c d str "n")
    as (s1 & v & s' & r & _ & _ & -> & _ & Hwf' & Hcode);
    [by apply wf_set_curplayer|done|done|
     exists ms; by rewrite moves_set_curplayer|].
  mred. destruct Hcode as [(_ & ->)|[(_ & Hw & ->)|(_ & Hw & ->)]].
  - by apply sym_loop_safe.
  - right. by exists true, s'.
  - right. by exists false, s'.
Qed.

Lemma sym_safe_witness :
  ∃ b J', sym 200 (λ k, k) new_Jungle ((0, 2), (0, 3)) = Ok (b, J') ∧ wf J' ∧
          winner J' = Some (if b then 1 else 0).
Proof.
  destruct (sym_safe 200 (λ k, k) new_Jungle ((0, 2), (0, 3))) as [Hout|H].
  - apply wfb_wf. by vm_compute.
  - eexists. split; [vm_compute; reflexivity|]. by apply (bool_decide_unpack _).
  - vm_compute in Hout. discriminate.
  - exact H.
Defined.

(** ** One round of [Player.loop] *)

Lemma loop_max_move_choice rollout m0 rest r :
  ∃ m, random_choice (loop_max_move rollout (m0 :: rest)) r = Ok m ∧
       m ∈ m0 :: rest.
Proof.
  unfold loop_max_move.
  destruct (loop_scores_spec rollout (m0 :: rest) 0 (-1) [])
    as (kept & -> & Hsub & Hbest).
  rewrite app_nil_l.
  assert (Hin : m0 ∈ kept).
  { apply (Hbest 0%nat m0); [done| |intros j Hj; lia].
    pose proof (score_bounds rollout (0 + 0)). lia. }
  destruct (random_choice_elem kept r) as (m & Hm & Hmk).
  { intros ->. by apply elem_of_nil in Hin. }
  exists m. split; [done|]. by apply Hsub.
Qed.

(** The second half of the round: the search for player 0 and the move
    it proposes. *)
Lemma loop_reply fuel g :
  wf g → (5 ≤ fuel)%nat →
  ∃ v0 g',
    victory g 0 "n" = Ok (v0, g') ∧
    if v0 then
      (max_alpha_beta fuel g NegInf PosInf 0 true ≫= λ '(game, ans),
         match ans with
         | None => Raise TypeError
         | Some (m, aa, bb, cc, dd) =>
             str ← move_string aa bb cc dd;
             if bool_decide (aa ≠ None) then
               '(game, kon0) ← update game 0 str "gl0";
               Ok (game, None)
             else Ok (game, None)
         end) = (Raise WrongMove : result (Jungle * option bool))
    else
      ∃ g2,
        (max_alpha_beta fuel g NegInf PosInf 0 true ≫= λ '(game, ans),
           match ans with
           | None => Raise TypeError
           | Some (m, aa, bb, cc, dd) =>
               str ← move_string aa bb cc dd;
               if bool_decide (aa ≠ None) then
                 '(game, kon0) ← update game 0 str "gl0";
                 Ok (game, None)
               else Ok (game, None)
           end) = (Ok (g2, None) : result (Jungle * option bool)) ∧
        wf g2.
Proof.
  intros Hwf Hfuel.
  assert (Hpl : 0 = 0 ∨ 0 = 1) by (by left).
  destruct (victory_total g 0 "n" Hwf Hpl) as (v0 & g' & Hv & _).
  exists v0, g'. split; [done|]. destruct v0.
  - destruct fuel as [|fuel]; [lia|].
    destruct (moves_spec g 0 Hwf Hpl) as (ms & Hms & _).
    rewrite (max_alpha_beta_terminal fuel g NegInf PosInf 0 true ms g' Hms Hv).
    mred.
    change (move_string (Some 0) (Some 0) (Some 0) (Some 0))
      with (Ok [48; 32; 48; 32; 48; 32; 48] : result (list Z)).
    mred. rewrite bool_decide_eq_true_2 by done.
    pose proof (victory_wf _ _ _ _ _ Hwf Hv) as Hwf'.
    destruct (moves_facts g' 0 Hwf' Hpl) as (ms' & Hms' & Hfacts).
    rewrite (update_not_listed g' 0 0 0 0 0 _ "gl0" ms'); [done| |done| |done].
    + by vm_compute.
    + intros Hin. destruct (Hfacts _ Hin) as (p & _ & _ & Hne & _). done.
  - destruct (victory_inv _ _ _ _ _ Hv) as [[_ ->]|[? _]]; [|done].
    destruct (max_search_chosen fuel g NegInf PosInf 0 true Hwf)
      as (ms & s' & v & aa & bb & cc & dd & Hms & -> & Hsp & Hwf' & Hch);
      [unfold MAX_DEPTH; lia|unfold MAX_DEPTH; lia|done|].
    mred. destruct Hch as [(_ & -> & -> & -> & ->)|
                           (a & b & c & d & Hm & -> & -> & -> & ->)].
    + change (move_string None None None None)
        with (Ok (str_lit "None None None None") : result (list Z)).
      mred. rewrite bool_decide_eq_false_2 by (by intros H).
      by exists s'.
    + destruct (listed_move_digits g 0 ms a b c d Hwf Hpl Hms Hm)
        as [[Ha Hb] [Hc Hd]].
      destruct (move_string_digits a b c d Ha Hb Hc Hd) as (str & -> & Hstr).
      mred. rewrite bool_decide_eq_true_2 by done.
      destruct (update_listed s' 0 a b c d str "gl0" Hwf' Hpl Hstr)
        as (s1 & v1 & s'' & r & _ & _ & -> & _ & Hwf'' & _).
      { apply (legal_same_position g s'); try done. by exists ms. }
      mred. by exists s''.
Qed.

(** X. One round of [Player.loop] on a well-formed game, whatever the
    rollouts returned and whatever [random.choice] draws, with the nesting
    of calls the search needs. If [moves(1)] is empty the round raises
    [IndexError] ([random.choice] of an empty list). Otherwise a listed move
    of player 1 is played. If that ends the game the round returns [True]
    when the recorded winner is player 1 and [False] when it is player 0.
    If not, and [victory(0)] already holds of the game (the result of
    player 0's last [update] was not looked at), the search answers
    [(-inf, 0, 0, 0, 0)] and the round raises the invalid-move error on the
    string [0 0 0 0]. In every other case the round ends without an
    exception and leaves a well-formed game for the next round. *)
Theorem loop_body_outcome rollout r fuel game :
  wf game → (5 ≤ fuel)%nat →
  ∃ mov, moves game 1 = Ok mov ∧
    match mov with
    | [] => loop_body rollout r fuel game = Raise IndexError
    | _ :: _ =>
        ∃ m g1 v1 g1',
          random_choice (loop_max_move rollout mov) r = Ok m ∧ m ∈ mov ∧
          do_move (set_curplayer game 1) (Some m) = Ok g1 ∧
          victory g1 1 "gl1" = Ok (v1, g1') ∧
          if v1 then
            ∃ b, loop_body rollout r fuel game = Ok (g1', Some b) ∧
                 winner g1' = Some (if b then 1 else 0)
          else
            ∃ v0 g2, victory g1' 0 "n" = Ok (v0, g2) ∧
              if v0 then loop_body rollout r fuel game = Raise WrongMove
              else ∃ g3, loop_body rollout r fuel game = Ok (g3, None) ∧
                         wf g3
    end.
Proof.
  intros Hwf Hfuel.
  assert (Hpl : 1 = 0 ∨ 1 = 1) by (by right).
  destruct (moves_spec game 1 Hwf Hpl) as (mov & Hmov & _).
  exists mov. split; [done|]. unfold loop_body. rewrite Hmov. mred.
  destruct mov as [|m0 rest]; [done|].
  destruct (loop_max_move_choice rollout m0 rest r)
    as ([[a b] [c d]] & Hchoice & Hm).
  rewrite Hchoice. mred.
  destruct (listed_move_digits game 1 _ a b c d Hwf Hpl Hmov Hm)
    as [[Ha Hb] [Hc Hd]].
  destruct (move_string_digits a b c d Ha Hb Hc Hd) as (str & -> & Hstr).
  mred.
  destruct (update_listed game 1 a b c d str "gl1" Hwf Hpl Hstr)
    as (g1 & v1 & g1' & kon & Hdo & Hv1 & -> & _ & Hwf1 & Hcode);
    [by exists (m0 :: rest)|].
  mred. exists ((a, b), (c, d)), g1, v1, g1'.
  do 4 (split; [done|]).
  destruct Hcode as [(-> & ->)|[(-> & Hw & ->)|(-> & Hw & ->)]].
  - destruct (loop_reply fuel g1' Hwf1 Hfuel) as (v0 & g2 & Hv0 & Hreply).
    exists v0, g2. split; [done|]. destruct v0; exact Hreply.
  - by exists true.
  - by exists false.
Qed.

Lemma loop_body_outcome_witness :
  ∃ mov, moves den_taken 1 = Ok mov ∧
    match mov with
    | [] => loop_body rollouts_1_3 0 5 den_taken = Raise IndexError
    | _ :: _ =>
        ∃ m g1 v1 g1',
          random_choice (loop_max_move rollouts_1_3 mov) 0 = Ok m ∧ m ∈ mov ∧
          do_move (set_curplayer den_taken 1) (Some m) = Ok g1 ∧
          victory g1 1 "gl1" = Ok (v1, g1') ∧
          if v1 then
            ∃ b, loop_body rollouts_1_3 0 5 den_taken = Ok (g1', Some b) ∧
                 winner g1' = Some (if b then 1 else 0)
          else
            ∃ v0 g2, victory g1' 0 "n" = Ok (v0, g2) ∧
              if v0 then loop_body rollouts_1_3 0 5 den_taken = Raise WrongMove
              else ∃ g3, loop_body rollouts_1_3 0 5 den_taken = Ok (g3, None) ∧
                         wf g3
    end.
Proof.
  apply (loop_body_outcome rollouts_1_3 0 5 den_taken).
  - apply wfb_wf. by vm_compute.
  - lia.
Defined.

(** ** The picture [draw] prints *)

Lemma draw_letter pl pc :
  pl = 0 ∨ pl = 1 → 0 ≤ pc ≤ 7 →
  ∃ ch, (dict_getitem TT pl ≫= λ letters, py_index letters pc) = Ok ch ∧
        initial_cell [ch] 0 = Ok (Some (pl, pc)).
Proof.
  intros Hpl Hpc.
  assert (pc = 0 ∨ pc = 1 ∨ pc = 2 ∨ pc = 3 ∨ pc = 4 ∨ pc = 5 ∨ pc = 6 ∨
          pc = 7) as Hc by lia.
  destruct Hpl as [-> | ->];
    repeat (destruct Hc as [->|Hc]); try subst pc;
    eexists; (split; [by vm_compute|by vm_compute]).
Qed.

Lemma initial_cell_at row x ch :
  py_index row x = Ok ch → initial_cell row x = initial_cell [ch] 0.
Proof.
  intros H. unfold initial_cell. rewrite H.
  change (py_index [ch] 0) with (Ok ch). reflexivity.
Qed.

(** The character printed for a cell is read back as that cell. *)
Lemma draw_cell_char (c : option (Z * Z)) :
  (∀ pl pc, c = Some (pl, pc) → (pl = 0 ∨ pl = 1) ∧ 0 ≤ pc ≤ 7) →
  ∃ ch, match c with
        | Some (pl, pc) => dict_getitem TT pl ≫= λ letters, py_index letters pc
        | None => Ok "."%char
        end = Ok ch ∧
        initial_cell [ch] 0 = Ok c.
Proof.
  intros Hc. destruct c as [[pl pc]|].
  - destruct (Hc pl pc eq_refl) as [Hpl Hpc]. by apply draw_letter.
  - by exists "."%char.
Qed.

Lemma draw_row_read b y c0 c1 c2 c3 c4 c5 c6 :
  py_index b y = Ok [c0; c1; c2; c3; c4; c5; c6] →
  (∀ c pl pc, c ∈ [c0; c1; c2; c3; c4; c5; c6] → c = Some (pl, pc) →
              (pl = 0 ∨ pl = 1) ∧ 0 ≤ pc ≤ 7) →
  ∃ L, draw_row b y (seqZ 0 MX) = Ok L ∧
       initial_row L (seqZ 0 7) = Ok [c0; c1; c2; c3; c4; c5; c6].
Proof.
  intros Hrow Hok.
  assert (Hcell : ∀ c, c ∈ [c0; c1; c2; c3; c4; c5; c6] →
            ∃ ch, match c with
                  | Some (pl, pc) =>
                      dict_getitem TT pl ≫= λ letters, py_index letters pc
                  | None => Ok "."%char
                  end = Ok ch ∧ initial_cell [ch] 0 = Ok c).
  { intros c Hin. apply draw_cell_char. intros pl pc. by apply Hok. }
  destruct (Hcell c0) as (h0 & D0 & I0); [repeat constructor|].
  destruct (Hcell c1) as (h1 & D1 & I1); [repeat constructor|].
  destruct (Hcell c2) as (h2 & D2 & I2); [repeat constructor|].
  destruct (Hcell c3) as (h3 & D3 & I3); [repeat constructor|].
  destruct (Hcell c4) as (h4 & D4 & I4); [repeat constructor|].
  destruct (Hcell c5) as (h5 & D5 & I5); [repeat constructor|].
  destruct (Hcell c6) as (h6 & D6 & I6); [repeat constructor|].
  exists [h0; h1; h2; h3; h4; h5; h6]. split.
  - change (seqZ 0 MX) with [0; 1; 2; 3; 4; 5; 6].
    cbn [draw_row]. unfold draw_cell, board_get. rewrite Hrow. mred.
    change (py_index [c0; c1; c2; c3; c4; c5; c6] 0) with (Ok c0).
    change (py_index [c0; c1; c2; c3; c4; c5; c6] 1) with (Ok c1).
    change (py_index [c0; c1; c2; c3; c4; c5; c6] 2) with (Ok c2).
    change (py_index [c0; c1; c2; c3; c4; c5; c6] 3) with (Ok c3).
    change (py_index [c0; c1; c2; c3; c4; c5; c6] 4) with (Ok c4).
    change (py_index [c0; c1; c2; c3; c4; c5; c6] 5) with (Ok c5).
    change (py_index [c0; c1; c2; c3; c4; c5; c6] 6) with (Ok c6).
    mred. rewrite D0, D1, D2, D3, D4, D5, D6. reflexivity.
  - change (seqZ 0 7) with [0; 1; 2; 3; 4; 5; 6]. cbn [initial_row].
    rewrite (initial_cell_at _ 0 h0), (initial_cell_at _ 1 h1),
      (initial_cell_at _ 2 h2), (initial_cell_at _ 3 h3),
      (initial_cell_at _ 4 h4), (initial_cell_at _ 5 h5),
      (initial_cell_at _ 6 h6) by reflexivity.
    rewrite I0, I1, I2, I3, I4, I5, I6. reflexivity.
Qed.

Lemma py_index_at {X} (l : list X) (i : Z) (x : X) :
  0 ≤ i → l !! Z.to_nat i = Some x → py_index l i = Ok x.
Proof.
  intros Hi Hl. pose proof (lookup_lt_Some _ _ _ Hl) as Hlt.
  destruct (py_index_in_range l i) as (x' & Hx' & ->); [lia|].
  congruence.
Qed.

Lemma draw_row_read_back b y row :
  py_index b y = Ok row → length row = 7%nat →
  (∀ c pl pc, c ∈ row → c = Some (pl, pc) → (pl = 0 ∨ pl = 1) ∧ 0 ≤ pc ≤ 7) →
  ∃ L, draw_row b y (seqZ 0 MX) = Ok L ∧
       initial_row (String.list_ascii_of_string (String.string_of_list_ascii L))
                   (seqZ 0 7) = Ok row.
Proof.
  intros Hrow Hlen Hok.
  destruct row as [|c0 [|c1 [|c2 [|c3 [|c4 [|c5 [|c6 [|? ?]]]]]]]]; try done.
  destruct (draw_row_read b y c0 c1 c2 c3 c4 c5 c6 Hrow Hok) as (L & HL & HI).
  exists L. by rewrite String.list_ascii_of_string_of_list_ascii.
Qed.

(** Every piece on the board of a well-formed state has an owner 0 or 1
    and a rank 0..7. *)
Lemma wf_board_cells s row c pl pc :
  wf s → row ∈ board s → c ∈ row → c = Some (pl, pc) →
  (pl = 0 ∨ pl = 1) ∧ 0 ≤ pc ≤ 7.
Proof.
  intros Hwf Hrow Hc ->. destruct (wf_shape s Hwf) as [Hlen Hrows].
  pose proof (Hrows row Hrow) as Hlr.
  apply list_elem_of_lookup in Hrow as [j Hj].
  apply list_elem_of_lookup in Hc as [i Hi].
  pose proof (lookup_lt_Some _ _ _ Hj) as Hjlt.
  pose proof (lookup_lt_Some _ _ _ Hi) as Hilt.
  assert (Hin : in_board (Z.of_nat i, Z.of_nat j)).
  { split; unfold MX, MY; cbn [fst snd]; lia. }
  destruct (board_get_lookup (board s) _ _ (wf_shape s Hwf) Hin)
    as (row' & c' & Hr' & Hc' & Hget).
  rewrite Nat2Z.id in Hr', Hc'. rewrite Hj in Hr'. injection Hr' as <-.
  rewrite Hi in Hc'. injection Hc' as <-.
  pose proof (wf_cell s Hwf _ _ _ _ Hin Hget) as Hloc.
  split; [by eapply loc_player; [apply Hwf|]|by eapply wf_rank].
Qed.

(** X. On a well-formed state [draw] raises nothing and prints nine lines
    and an empty one; the nine lines are a picture that the parser of
    [initial_board] (letters through [T], upper case for player 1, a dot
    for an empty cell) reads back as exactly the board drawn. *)
Theorem draw_read_back s :
  wf s →
  ∃ ls, draw s = Ok (ls ++ [EmptyString]) ∧ length ls = 9%nat ∧
        initial_rows ls (seqZ 0 9) = Ok (board s).
Proof.
  intros Hwf. destruct (wf_shape s Hwf) as [Hlen Hrows].
  pose proof (wf_board_cells s) as Hvalid.
  unfold draw. revert Hlen Hrows Hvalid. generalize (board s) as b.
  intros b Hlen Hrows Hvalid.
  destruct b as [|r0 [|r1 [|r2 [|r3 [|r4 [|r5 [|r6 [|r7 [|r8 [|? ?]]]]]]]]]];
    try done.
  set (b := [r0; r1; r2; r3; r4; r5; r6; r7; r8]) in *.
  assert (Hrow : ∀ y row, 0 ≤ y → b !! Z.to_nat y = Some row →
            ∃ L, draw_row b y (seqZ 0 MX) = Ok L ∧
                 initial_row (String.list_ascii_of_string
                                (String.string_of_list_ascii L)) (seqZ 0 7)
                 = Ok row).
  { intros y row Hy Hl.
    pose proof (list_elem_of_lookup_2 _ _ _ Hl) as Hin.
    apply draw_row_read_back.
    - by apply py_index_at.
    - by apply Hrows.
    - intros c pl pc Hc E. by apply (Hvalid row c pl pc Hwf Hin Hc). }
  destruct (Hrow 0 r0) as (L0 & D0 & I0); [done..|].
  destruct (Hrow 1 r1) as (L1 & D1 & I1); [done..|].
  destruct (Hrow 2 r2) as (L2 & D2 & I2); [done..|].
  destruct (Hrow 3 r3) as (L3 & D3 & I3); [done..|].
  destruct (Hrow 4 r4) as (L4 & D4 & I4); [done..|].
  destruct (Hrow 5 r5) as (L5 & D5 & I5); [done..|].
  destruct (Hrow 6 r6) as (L6 & D6 & I6); [done..|].
  destruct (Hrow 7 r7) as (L7 & D7 & I7); [done..|].
  destruct (Hrow 8 r8) as (L8 & D8 & I8); [done..|].
  change (seqZ 0 MY) with [0; 1; 2; 3; 4; 5; 6; 7; 8]. cbn [draw_rows].
  rewrite D0, D1, D2, D3, D4, D5, D6, D7, D8. mred.
  eexists. split; [reflexivity|]. split; [reflexivity|].
  change (seqZ 0 9) with [0; 1; 2; 3; 4; 5; 6; 7; 8]. cbn [initial_rows].
  repeat match goal with
         | |- context [py_index ?l ?i] =>
             erewrite (py_index_at l i) by first [lia | reflexivity]
         end.
  mred.
  rewrite I0. mred. rewrite I1. mred. rewrite I2. mred. rewrite I3. mred.
  rewrite I4. mred. rewrite I5. mred. rewrite I6. mred. rewrite I7. mred.
  rewrite I8. reflexivity.
Qed.

Lemma draw_read_back_witness :
  ∃ ls, draw new_Jungle = Ok (ls ++ [EmptyString]) ∧ length ls = 9%nat ∧
        initial_rows ls (seqZ 0 9) = Ok (board new_Jungle).
Proof. apply (draw_read_back new_Jungle). apply wfb_wf. by vm_compute. Defined.
